(** * InferMate: retrieval engine and provider routing core

    A shallow embedding of the in-memory vector store (chunker, corpus index,
    similarity ranker, subscriptions) and of the provider router
    ([withRetry], [getEmbedding], [chatHybrid]) of the InferMate sources,
    with the properties of the design document stated and proved over it.
    The single-request helpers of the service, the secondary provider and
    the callers of the store in the components follow, with the properties
    their code shows.

    JavaScript values are modelled as follows: a string is the list of its
    UTF-16 code units, a [number] that holds a measurement is a binary64
    float (Rocq's primitive floats), a [number] that holds a count or an index
    is an integer, a thrown value is a record of the fields the code inspects,
    and every await of an external service is a step of a state-and-exception
    monad that appends to a trace and asks an oracle for the outcome. *)

From Stdlib Require Import List ZArith NArith Lia Bool String Ascii.
From Stdlib Require Import DecimalString.
From Stdlib Require Import Permutation Sorted.
From Stdlib Require Import Floats.
Import ListNotations.

Set Implicit Arguments.

(* ================================================================== *)
(** * JavaScript built-ins used by the sources *)
(* ================================================================== *)

Module JS.

(** A string is its sequence of UTF-16 code units. *)
Definition codeunit := N.
Definition jsstring := list codeunit.

(** A literal of the sources. *)
Definition lit (s : string) : jsstring :=
  map N_of_ascii (list_ascii_of_string s).

Definition len {A} (l : list A) : Z := Z.of_nat (List.length l).

(** [relIndex len k]: how [slice] reads an integer bound, counting from the
    end when it is negative and clamping to [0, len]. *)
Definition relIndex (n k : Z) : Z :=
  if (k <? 0)%Z then Z.max (n + k) 0 else Z.min k n.

(** [String.prototype.slice(b, e)] and [Array.prototype.slice(b, e)]. *)
Definition slice {A} (l : list A) (b e : Z) : list A :=
  let from := relIndex (len l) b in
  let to := relIndex (len l) e in
  firstn (Z.to_nat (to - from)) (skipn (Z.to_nat from) l).

(** [String.prototype.substring(b)]: from index [b], clamped, to the end. *)
Definition substring {A} (l : list A) (b : Z) : list A :=
  skipn (Z.to_nat (Z.min (Z.max b 0) (len l))) l.

Fixpoint eqs (a b : jsstring) : bool :=
  match a, b with
  | [], [] => true
  | x :: a', y :: b' => N.eqb x y && eqs a' b'
  | _, _ => false
  end.

Fixpoint startsWith (s p : jsstring) : bool :=
  match p, s with
  | [], _ => true
  | c :: p', d :: s' => N.eqb c d && startsWith s' p'
  | _ :: _, [] => false
  end.

(** [String.prototype.includes(p)]. *)
Fixpoint includes (s p : jsstring) : bool :=
  startsWith s p ||
  match s with
  | [] => false
  | _ :: s' => includes s' p
  end.

End JS.

Import JS.

(* ================================================================== *)
(** * Chunker ([VectorStore.chunkText]) *)
(* ================================================================== *)

Module Chunker.

(** The loop [for (let i = 0; i < text.length; i += chunkSize)
    chunks.push(text.slice(i, i + chunkSize))], from index [i] on.  The
    chunk size is a positive count of code units, so the index grows by at
    least one each turn and [fuel] turns are enough whenever
    [text.length - i <= fuel] (lemma [chunkLoop_fuel]). *)
Fixpoint chunkLoop (fuel : nat) (text : jsstring) (chunkSize : positive) (i : Z)
  : list jsstring :=
  match fuel with
  | O => []
  | S fuel' =>
      if (i <? len text)%Z
      then slice text i (i + Zpos chunkSize)
             :: chunkLoop fuel' text chunkSize (i + Zpos chunkSize)
      else []
  end.

Definition chunkText (text : jsstring) (chunkSize : positive) : list jsstring :=
  chunkLoop (List.length text) text chunkSize 0.

End Chunker.

(* ================================================================== *)
(** * Numbers, sorting and truthiness *)
(* ================================================================== *)

Module JSArray.

(** [Array.prototype.sort(compareFn)].  The sort is stable (ECMAScript 2019),
    a positive value of [compareFn a b] puts [a] after [b], and a [NaN] value
    is read as [+0]: the element taken from the left stays before [b] unless
    [compareFn a b > 0].  For a comparator that is consistent on the elements
    every stable sort returns this list.  For an inconsistent one (the
    comparator of [similaritySearch] when a score is [NaN]) ECMAScript leaves
    the order to the engine: the list below is then the order of a stable
    insertion from the right, and an engine may return another (V8 does on
    some inputs).  The theorems on the order therefore assume that no score
    is [NaN]; what is proved without that assumption speaks of the members
    and the length of the result; and the sample runs with a [NaN] score are
    on a corpus whose neighbours the comparator reports as equal, which V8
    finds in order and returns as it is. *)
Section Sort.
Context {A : Type}.
Variable compareFn : A -> A -> float.

Fixpoint insert (a : A) (l : list A) : list A :=
  match l with
  | [] => [a]
  | b :: l' =>
      if (0 <? compareFn a b)%float then b :: insert a l' else a :: b :: l'
  end.

Fixpoint sort (l : list A) : list A :=
  match l with
  | [] => []
  | a :: l' => insert a (sort l')
  end.
End Sort.

(** A string in a condition: the empty string is falsy. *)
Definition truthy (s : jsstring) : bool :=
  match s with [] => false | _ :: _ => true end.

(** [x || d] on an optional string: [undefined], [null] and the empty string
    give [d]. *)
Definition orElse (x : option jsstring) (d : jsstring) : jsstring :=
  match x with
  | Some s => if truthy s then s else d
  | None => d
  end.

(** An optional string in a condition. *)
Definition present (x : option jsstring) : bool :=
  match x with Some s => truthy s | None => false end.

End JSArray.

Import JSArray.

(* ================================================================== *)
(** * Effects: thrown values, the world, and the monad of awaits *)
(* ================================================================== *)

Module Eff.

(** A thrown value, by the fields the handlers read: [error.status],
    [error.code] (a number or absent) and [error.message] (a string or
    absent). *)
Record JsError := {
  status : option Z;
  code : option Z;
  message : option jsstring
}.

(** [new Error(m)]. *)
Definition newError (m : jsstring) : JsError :=
  {| status := None; code := None; message := Some m |}.

Inductive Result (A : Type) : Type :=
| Ok (a : A)
| Throw (e : JsError).
Arguments Ok {A} a.
Arguments Throw {A} e.

(** A subscribed function, known by its identity: the code compares
    listeners with [!==]. *)
Definition Listener := nat.

(** The interface [VectorDocument] of the types module: the entry that
    [addDocument] builds and the store keeps. *)
Record VectorDocument := {
  id : jsstring;
  text : jsstring;
  source : jsstring;
  category : jsstring;
  embedding : list float;
  timestamp : Z
}.

(** Provider requests. *)
Inductive Tool :=
| FunctionDeclarations (names : list jsstring)
| GoogleMaps
| GoogleSearch.

Inductive Part :=
| TextPart (t : jsstring)
| InlineData (mimeType data : jsstring)
| FunctionResponse (name result : jsstring).

Record Content := { role : jsstring; parts : list Part }.

Inductive Message :=
| MessageText (t : jsstring)
| MessageParts (ps : list Part).

Record Chat := {
  model : jsstring;
  systemInstruction : jsstring;
  tools : list Tool;
  history : list Content
}.

Record FunctionCall := {
  callName : jsstring;
  argPrompt : jsstring;
  argSize : option jsstring
}.

Record Reference := { uri : option jsstring; title : option jsstring }.

Record GroundingChunk := { web : option Reference; maps : option Reference }.

Record Response := {
  responseText : option jsstring;
  functionCalls : option (list FunctionCall);
  groundingChunks : option (list GroundingChunk)
}.

(** What the program asks of the outside, in the order it asks. *)
Inductive Event :=
| EmbedContent (text : jsstring)
| Sleep (ms : Z)
| Called (l : Listener)
| MathRandom
| DateNow
| EnsureApiKey
| Scrape (topic : jsstring)
| SendMessage (chat : Chat) (m : Message)
| GenerateContent (model prompt : jsstring) (tools : list Tool)
| GenerateImageContent (prompt : jsstring) (size : jsstring)
| GenerateVideos (image prompt mimeType : jsstring).

(** The outside: for each request, the outcome of the request made when the
    trace had [t] entries.  [callListener] is the call [l()] of a subscribed
    function: it returns or it throws.  A subscriber is code of a component
    (the one of KnowledgeBase reads [getStats] and sets its own state): it
    reads the store and does not change it.  [scrape] is the local knowledge
    proxy (the content of an OK answer, if it has one); [imageContent] gives,
    for each part of the answer, its inline data if it has some;
    [videoOperation] gives the URI of the video once the operation is done,
    if it has one. *)
Record Env := {
  embedContent : nat -> jsstring -> Result (option (list float));
  callListener : nat -> Listener -> Result unit;
  mathRandom36 : nat -> jsstring;
  dateNow : nat -> Z;
  ensureKey : nat -> Result unit;
  sendMessage : nat -> Chat -> Message -> Result Response;
  scrape : nat -> jsstring -> Result (option jsstring);
  generateText : nat -> jsstring -> jsstring -> list Tool -> Result (option jsstring);
  imageContent : nat -> jsstring -> jsstring -> Result (list (option jsstring));
  videoOperation : nat -> jsstring -> jsstring -> jsstring -> Result (option jsstring);
  API_KEY : jsstring
}.

(** The vector store object and the trace of the session. *)
Record World := {
  documents : list VectorDocument;
  listeners : list Listener;
  trace : list Event
}.

Definition M (A : Type) : Type := World -> Result A * World.

Definition ret {A} (a : A) : M A := fun w => (Ok a, w).

Definition bind {A B} (m : M A) (k : A -> M B) : M B :=
  fun w =>
    match m w with
    | (Ok a, w') => k a w'
    | (Throw e, w') => (Throw e, w')
    end.

Definition throw {A} (e : JsError) : M A := fun w => (Throw e, w).

(** [try { m } catch (e) { handler e }]. *)
Definition tryCatch {A} (m : M A) (handler : JsError -> M A) : M A :=
  fun w =>
    match m w with
    | (Ok a, w') => (Ok a, w')
    | (Throw e, w') => handler e w'
    end.

(** One request to the outside: it is appended to the trace and answered by
    the oracle at the time of the request. *)
Definition request {A} (ev : Event) (answer : nat -> Result A) : M A :=
  fun w =>
    (answer (List.length (trace w)),
     {| documents := documents w; listeners := listeners w;
        trace := trace w ++ [ev] |}).

Definition observe {A} (ev : Event) (answer : nat -> A) : M A :=
  request ev (fun t => Ok (answer t)).

End Eff.

Import Eff.

Declare Scope eff_scope.
Delimit Scope eff_scope with eff.
Notation "x <- m ;; k" := (bind m (fun x => k))
  (at level 61, m at next level, right associativity) : eff_scope.
Notation "m ;;; k" := (bind m (fun _ => k))
  (at level 61, right associativity) : eff_scope.

(* ================================================================== *)
(** * geminiService: [withRetry] and [getEmbedding] *)
(* ================================================================== *)

Module Gemini.
Local Open Scope eff_scope.

Section WithEnv.
Variable env : Env.

(** [error?.status === 500 || error?.code === 500 ||
    error?.message?.includes("Internal error")]. *)
Definition isInternal (error : JsError) : bool :=
  match status error with Some s => (s =? 500)%Z | None => false end
  || match code error with Some c => (c =? 500)%Z | None => false end
  || match message error with
     | Some m => includes m (lit "Internal error")
     | None => false
     end.

(** [await new Promise(resolve => setTimeout(resolve, delay))]. *)
Definition sleep (delay : Z) : M unit := observe (Sleep delay) (fun _ => tt).

(** [withRetry(fn, retries = 3, delay = 1000)].  The recursive call is
    made with [retries - 1] under the guard [isInternal && retries > 0]. *)
Fixpoint withRetry {T} (fn : M T) (retries : nat) (delay : Z) : M T :=
  tryCatch fn (fun error =>
    match retries with
    | S retries' =>
        if isInternal error
        then sleep delay ;;; withRetry fn retries' (delay * 2)
        else throw error
    | O => throw error
    end).

(** The wrapped call of [getEmbedding]:
    [response.embeddings?.[0]?.values || []]. *)
Definition embedOnce (text : jsstring) : M (list float) :=
  values <- request (EmbedContent text) (fun t => embedContent env t text) ;;
  ret (match values with Some v => v | None => [] end).

(** [getEmbedding]: the embedding, or the empty array when the call failed
    for good. *)
Definition getEmbedding (text : jsstring) : M (list float) :=
  tryCatch (withRetry (embedOnce text) 3 1000) (fun _ => ret []).

End WithEnv.
End Gemini.

(* ================================================================== *)
(** * The vector store *)
(* ================================================================== *)

Module VectorStore.
Import Chunker Gemini.
Local Open Scope eff_scope.

(** [vecB[i]] read as a number: an index past the end gives [undefined],
    which arithmetic reads as [NaN]. *)
Definition at_ (v : list float) (i : nat) : float := nth i v nan.

(** [cosineSimilarity(vecA, vecB)]: one pass over the indices of [vecA]. *)
Definition cosineSimilarity (vecA vecB : list float) : float :=
  let '(dotProduct, magA, magB) :=
    fold_left
      (fun '(dotProduct, magA, magB) i =>
         ((dotProduct + at_ vecA i * at_ vecB i)%float,
          (magA + at_ vecA i * at_ vecA i)%float,
          (magB + at_ vecB i * at_ vecB i)%float))
      (seq 0 (List.length vecA))
      (0%float, 0%float, 0%float) in
  (dotProduct / (sqrt magA * sqrt magB))%float.

Definition setListeners (ls : list Listener) : M unit :=
  fun w => (Ok tt, {| documents := documents w; listeners := ls; trace := trace w |}).

Definition getListeners : M (list Listener) := fun w => (Ok (listeners w), w).

Definition getDocuments : M (list VectorDocument) := fun w => (Ok (documents w), w).

(** [this.documents.push(doc)]. *)
Definition pushDocument (doc : VectorDocument) : M unit :=
  fun w => (Ok tt, {| documents := documents w ++ [doc];
                      listeners := listeners w; trace := trace w |}).

(** The function [subscribe] returns: it keeps the listeners that are not the
    subscribed function. *)
Definition unsubscribe (listener : Listener) : M unit :=
  ls <- getListeners ;;
  setListeners (filter (fun l => negb (Nat.eqb l listener)) ls).

Definition subscribe (listener : Listener) : M (M unit) :=
  ls <- getListeners ;;
  setListeners (ls ++ [listener]) ;;;
  ret (unsubscribe listener).

Section WithEnv.
Variable env : Env.

(** [this.listeners.forEach(l => l())]: the listeners are called in turn,
    outside any [try]; one that throws ends the loop, and the listeners
    after it are not called. *)
Fixpoint callAll (ls : list Listener) : M unit :=
  match ls with
  | [] => ret tt
  | l :: ls' => request (Called l) (fun t => callListener env t l) ;;; callAll ls'
  end.

Definition notify : M unit :=
  ls <- getListeners ;; callAll ls.

(** The body of the loop of [addDocument] for one chunk; the value is the
    success count after it. *)
Definition addChunk (source category : jsstring) (successCount : nat)
           (chunk : jsstring) : M nat :=
  tryCatch
    (embedding <- getEmbedding env chunk ;;
     if (0 <? len embedding)%Z then
       r <- observe MathRandom (mathRandom36 env) ;;
       now <- observe DateNow (dateNow env) ;;
       pushDocument {| id := substring r 7; text := chunk; source := source;
                       category := category; embedding := embedding;
                       timestamp := now |} ;;;
       ret (S successCount)
     else ret successCount)
    (fun err => ret successCount).

Fixpoint addChunks (source category : jsstring) (successCount : nat)
         (chunks : list jsstring) : M nat :=
  match chunks with
  | [] => ret successCount
  | chunk :: rest =>
      n <- addChunk source category successCount chunk ;;
      addChunks source category n rest
  end.

Definition addDocument (text source category : jsstring) : M nat :=
  let chunks := chunkText text 500 in
  successCount <- addChunks source category 0 chunks ;;
  (if (0 <? successCount)%nat then notify else ret tt) ;;;
  ret successCount.

(** [similaritySearch(query, topK = 3)]. *)
Definition similaritySearch (query : jsstring) (topK : Z) : M (list VectorDocument) :=
  queryEmbedding <- getEmbedding env query ;;
  if (len queryEmbedding =? 0)%Z then ret [] else
  docs <- getDocuments ;;
  let scoredDocs :=
    map (fun doc => (doc, cosineSimilarity queryEmbedding (embedding doc))) docs in
  let sorted := sort (fun a b => (snd b - snd a)%float) scoredDocs in
  ret (map fst (slice sorted 0 topK)).

End WithEnv.
End VectorStore.

(* ================================================================== *)
(** * The indexing of a document, as the design describes it *)
(* ================================================================== *)

Module IndexingSpec.
Import Gemini VectorStore.

Section WithEnv.
Variable env : Env.
Variables src cat : jsstring.

(** The world after a new entry for [chunk] with embedding [e] is appended:
    one random draw names it, one clock reading stamps it. *)
Definition appended (chunk : jsstring) (e : list float) (w : World) : World :=
  let t := List.length (trace w) in
  {| documents := documents w ++
       [{| id := substring (mathRandom36 env t) 7; text := chunk;
           source := src; category := cat; embedding := e;
           timestamp := dateNow env (S t) |}];
     listeners := listeners w;
     trace := trace w ++ [MathRandom; DateNow] |}.

(** [indexes w chunks oks w']: every fragment of [chunks] is embedded in
    turn, starting in [w]; a fragment whose embedding comes back non-empty
    is appended and marked [true], the others are skipped and marked
    [false]; [w'] is the world after the last fragment. *)
Inductive indexes : World -> list jsstring -> list bool -> World -> Prop :=
| indexes_done w : indexes w [] [] w
| indexes_skip w w1 w' chunk rest oks :
    getEmbedding env chunk w = (Ok [], w1) ->
    indexes w1 rest oks w' ->
    indexes w (chunk :: rest) (false :: oks) w'
| indexes_add w w1 w' chunk rest e oks :
    getEmbedding env chunk w = (Ok e, w1) ->
    e <> [] ->
    indexes (appended chunk e w1) rest oks w' ->
    indexes w (chunk :: rest) (true :: oks) w'.

(** The world after every listener was called once, in registration order. *)
Definition notified (w : World) : World :=
  {| documents := documents w; listeners := listeners w;
     trace := trace w ++ map Called (listeners w) |}.

(** Every listener of [ls] returns, when the listeners are called in turn
    from time [t] on. *)
Definition returning (t : nat) (ls : list Listener) : Prop :=
  forall i l, nth_error ls i = Some l -> callListener env (t + i) l = Ok tt.

(** When the listeners of [ls] are called in turn from time [t] on, the one
    at position [i] is the first that throws, and it throws [e]. *)
Definition throwsAt (t : nat) (ls : list Listener) (i : nat) (e : JsError) : Prop :=
  returning t (firstn i ls)
  /\ exists l, nth_error ls i = Some l /\ callListener env (t + i) l = Throw e.

End WithEnv.

(** The fragments marked [true]. *)
Fixpoint kept (oks : list bool) (chunks : list jsstring) : list jsstring :=
  match oks, chunks with
  | true :: oks', c :: chunks' => c :: kept oks' chunks'
  | false :: oks', _ :: chunks' => kept oks' chunks'
  | _, _ => []
  end.

(** The world with more events in its trace and the same store. *)
Definition extended (w : World) (evs : list Event) : World :=
  {| documents := documents w; listeners := listeners w;
     trace := trace w ++ evs |}.

(** The events of an embedding: requests to the backend and waits. *)
Definition quiet (ev : Event) : bool :=
  match ev with EmbedContent _ | Sleep _ => true | _ => false end.

(** The listeners called by the events of a trace, in order. *)
Definition calls (evs : list Event) : list Listener :=
  flat_map (fun ev => match ev with Called l => [l] | _ => [] end) evs.

(** The fragments handed to the embedding backend by the events of a trace. *)
Definition embedded (evs : list Event) : list jsstring :=
  flat_map (fun ev => match ev with EmbedContent t => [t] | _ => [] end) evs.

(** The delays awaited by the events of a trace. *)
Definition delays (evs : list Event) : list Z :=
  flat_map (fun ev => match ev with Sleep d => [d] | _ => [] end) evs.

End IndexingSpec.

(* ================================================================== *)
(** * Sessions of the store *)
(* ================================================================== *)

Module Session.
Import Gemini VectorStore.

(** What a client of the store can do; [DoUnsubscribe l] is a call of a
    function that [subscribe l] returned. *)
Inductive Op :=
| DoSubscribe (l : Listener)
| DoUnsubscribe (l : Listener)
| DoAddDocument (text source category : jsstring)
| DoSearch (query : jsstring) (topK : Z).

Definition perform (env : Env) (op : Op) (w : World) : World :=
  match op with
  | DoSubscribe l => snd (subscribe l w)
  | DoUnsubscribe l => snd (unsubscribe l w)
  | DoAddDocument text source category => snd (addDocument env text source category w)
  | DoSearch query topK => snd (similaritySearch env query topK w)
  end.

Definition session (env : Env) (ops : list Op) (w : World) : World :=
  fold_left (fun w op => perform env op w) ops w.

Definition subscribes (l : Listener) (op : Op) : bool :=
  match op with DoSubscribe l' => Nat.eqb l' l | _ => false end.

(** The renderings [Math.random().toString(36)] drawn by the events of a
    trace whose first event has index [t]. *)
Fixpoint drawn (env : Env) (t : nat) (evs : list Event) : list jsstring :=
  match evs with
  | [] => []
  | MathRandom :: evs' => mathRandom36 env t :: drawn env (S t) evs'
  | _ :: evs' => drawn env (S t) evs'
  end.

(** [Math.random().toString(36).substring(7)]. *)
Definition idOf (r : jsstring) : jsstring := substring r 7.

Definition newStore : World := {| documents := []; listeners := []; trace := [] |}.

(** The ids of the corpus are what is left of the draws of the trace. *)
Definition idsAreDraws (env : Env) (w : World) : Prop :=
  map id (documents w) = map idOf (drawn env 0 (trace w)).

End Session.

(* ================================================================== *)
(** * Sample environments *)
(* ================================================================== *)

Module Samples.

Definition unreachable : JsError :=
  {| status := Some 503%Z; code := None; message := Some (lit "Service Unavailable") |}.

Definition internal : JsError :=
  {| status := Some 500%Z; code := None; message := Some (lit "Internal error") |}.

Definition forbidden : JsError :=
  {| status := Some 403%Z; code := None; message := Some (lit "PERMISSION_DENIED") |}.

(** An outside where nothing answers. *)
Definition silent : Env :=
  {| embedContent := fun _ _ => Throw unreachable;
     callListener := fun _ _ => Ok tt;
     mathRandom36 := fun _ => lit "0.4fzyo82mvyr";
     dateNow := fun t => Z.of_nat t;
     ensureKey := fun _ => Ok tt;
     sendMessage := fun _ _ _ => Throw unreachable;
     scrape := fun _ _ => Throw unreachable;
     generateText := fun _ _ _ _ => Throw unreachable;
     imageContent := fun _ _ _ => Throw unreachable;
     videoOperation := fun _ _ _ _ => Throw unreachable;
     API_KEY := lit "key" |}.

Definition withEmbedding (f : nat -> jsstring -> Result (option (list float)))
           (env : Env) : Env :=
  {| embedContent := f;
     callListener := callListener env;
     mathRandom36 := mathRandom36 env;
     dateNow := dateNow env;
     ensureKey := ensureKey env;
     sendMessage := sendMessage env;
     scrape := scrape env;
     generateText := generateText env;
     imageContent := imageContent env;
     videoOperation := videoOperation env;
     API_KEY := API_KEY env |}.

Definition withRandom (f : nat -> jsstring) (env : Env) : Env :=
  {| embedContent := embedContent env;
     callListener := callListener env;
     mathRandom36 := f;
     dateNow := dateNow env;
     ensureKey := ensureKey env;
     sendMessage := sendMessage env;
     scrape := scrape env;
     generateText := generateText env;
     imageContent := imageContent env;
     videoOperation := videoOperation env;
     API_KEY := API_KEY env |}.

Definition withChat (f : nat -> Chat -> Message -> Result Response) (env : Env) : Env :=
  {| embedContent := embedContent env;
     callListener := callListener env;
     mathRandom36 := mathRandom36 env;
     dateNow := dateNow env;
     ensureKey := ensureKey env;
     sendMessage := f;
     scrape := scrape env;
     generateText := generateText env;
     imageContent := imageContent env;
     videoOperation := videoOperation env;
     API_KEY := API_KEY env |}.

Definition withListeners (f : nat -> Listener -> Result unit) (env : Env) : Env :=
  {| embedContent := embedContent env;
     callListener := f;
     mathRandom36 := mathRandom36 env;
     dateNow := dateNow env;
     ensureKey := ensureKey env;
     sendMessage := sendMessage env;
     scrape := scrape env;
     generateText := generateText env;
     imageContent := imageContent env;
     videoOperation := videoOperation env;
     API_KEY := API_KEY env |}.

(** A text of [n] letters [a]. *)
Definition letters (n : nat) : jsstring := repeat 97%N n.

(** The embedding backend answers every fragment with the same unit vector,
    except the request made at time [t], which is refused. *)
Definition embedsExceptAt (t : nat) : Env :=
  withEmbedding
    (fun t' _ => if Nat.eqb t' t then Throw unreachable
                 else Ok (Some [1%float; 0%float]))
    silent.

(** What a subscriber throws when its component is gone. *)
Definition unmounted : JsError := newError (lit "component unmounted").

(** The embedding backend answers every fragment with the same unit vector,
    and the subscriber [l] throws whenever it is called. *)
Definition brokenSubscriber (l : Listener) : Env :=
  withListeners
    (fun _ l' => if Nat.eqb l' l then Throw unmounted else Ok tt)
    (withEmbedding (fun _ _ => Ok (Some [1%float; 0%float])) silent).

(** Two draws that differ and share what is left after seven code units:
    [(0.5).toString(36)] is [0.i] and [(0.25).toString(36)] is [0.9]. *)
Definition shortDraws : Env :=
  withRandom (fun t => if (t <? 2)%nat then lit "0.i" else lit "0.9")
    (withEmbedding (fun _ _ => Ok (Some [1%float; 0%float])) silent).

End Samples.

(* ================================================================== *)
(** * Regular expressions of the router *)
(* ================================================================== *)

Module Regex.

(** The fragment of the regular expressions the sources use; without flags,
    [\w] is [[A-Za-z0-9_]] and [.] is any code unit that is not a line
    terminator. *)
Inductive Re :=
| Lit (s : jsstring)
| Alt (r1 r2 : Re)
| Seq (r1 r2 : Re)
| WordBoundary
| DotStar.

Definition isWordChar (c : codeunit) : bool :=
  ((97 <=? c) && (c <=? 122) || (65 <=? c) && (c <=? 90)
   || (48 <=? c) && (c <=? 57) || (c =? 95))%N.

Definition isLineTerminator (c : codeunit) : bool :=
  ((c =? 10) || (c =? 13) || (c =? 8232) || (c =? 8233))%N.

Definition wordy (c : option codeunit) : bool :=
  match c with Some c => isWordChar c | None => false end.

(** [consume l prev s]: the literal [l] read off the front of [s]; the value
    is the last code unit read (or [prev]) and the rest. *)
Fixpoint consume (l : jsstring) (prev : option codeunit) (s : jsstring)
  : option (option codeunit * jsstring) :=
  match l, s with
  | [], _ => Some (prev, s)
  | c :: l', d :: s' => if N.eqb c d then consume l' (Some d) s' else None
  | _ :: _, [] => None
  end.

(** [.*] followed by the continuation [k]. *)
Fixpoint dotStar (k : option codeunit -> jsstring -> bool)
         (prev : option codeunit) (s : jsstring) : bool :=
  k prev s ||
  match s with
  | c :: s' => negb (isLineTerminator c) && dotStar k (Some c) s'
  | [] => false
  end.

(** [matchesAt r k prev s]: some way of matching [r] at the front of [s]
    (the code unit before being [prev]) leaves a rest that [k] accepts. *)
Fixpoint matchesAt (r : Re) (k : option codeunit -> jsstring -> bool)
         (prev : option codeunit) (s : jsstring) : bool :=
  match r with
  | Lit l =>
      match consume l prev s with
      | Some (prev', s') => k prev' s'
      | None => false
      end
  | Alt r1 r2 => matchesAt r1 k prev s || matchesAt r2 k prev s
  | Seq r1 r2 => matchesAt r1 (matchesAt r2 k) prev s
  | WordBoundary => xorb (wordy prev) (wordy (hd_error s)) && k prev s
  | DotStar => dotStar k prev s
  end.

Fixpoint searchFrom (r : Re) (prev : option codeunit) (s : jsstring) : bool :=
  matchesAt r (fun _ _ => true) prev s ||
  match s with
  | c :: s' => searchFrom r (Some c) s'
  | [] => false
  end.

(** [s.match(r)] in a condition: there is a match somewhere in [s]. *)
Definition matches (s : jsstring) (r : Re) : bool := searchFrom r None s.

(** [(w|w1|...|wn)]. *)
Fixpoint oneOf (w : jsstring) (ws : list jsstring) : Re :=
  match ws with
  | [] => Lit w
  | w' :: ws' => Alt (Lit w) (oneOf w' ws')
  end.

End Regex.

(* ================================================================== *)
(** * geminiService: constants, prompts and intents *)
(* ================================================================== *)

Module Prompts.

(** The enumeration [ChatPersona] of the types module; its members are the
    keys of [PERSONA_PROMPTS]. *)
Inductive ChatPersona :=
| GENERAL | RESEARCHER | CREATIVE | ANALYST | VISUAL_CREATOR | CUSTOM.

Definition isVisualCreator (p : ChatPersona) : bool :=
  match p with VISUAL_CREATOR => true | _ => false end.

Definition isCustom (p : ChatPersona) : bool :=
  match p with CUSTOM => true | _ => false end.

Definition MODEL_NAME : jsstring := lit "gemini-3-flash-preview".
Definition MAPS_MODEL : jsstring := lit "gemini-2.5-flash".
Definition IMAGE_MODEL : jsstring := lit "gemini-3-pro-image-preview".
Definition VEO_MODEL : jsstring := lit "veo-3.1-fast-generate-preview".

Definition nl : jsstring := [10%N].
Definition quote : jsstring := [34%N].

Definition BASE_SYSTEM_INSTRUCTION : jsstring :=
  lit "You are InferMate AI. " ++ nl
  ++ lit "Safety Rules: Do not generate hate speech, harmful content, or biased information."
  ++ nl ++ lit "Objective: Be helpful, accurate, and concise.".

Definition PERSONA_PROMPTS (p : ChatPersona) : jsstring :=
  BASE_SYSTEM_INSTRUCTION ++
  match p with
  | GENERAL => lit " You are a helpful general assistant."
  | RESEARCHER =>
      lit " You are an academic researcher. Cite sources, be objective, and use formal language."
  | CREATIVE =>
      lit " You are a creative writer. Be expressive, imaginative, and engaging."
  | ANALYST =>
      lit " You are a data analyst. Focus on facts, patterns, and structured data outputs."
  | VISUAL_CREATOR =>
      lit " You are a Visual Tool User. " ++ nl
      ++ lit "  If the user asks for a video or animation and provides NO image, I will automatically:"
      ++ nl ++ lit "  1. Enhance their prompt with visual details."
      ++ nl ++ lit "  2. Generate a reference image."
      ++ nl ++ lit "  3. Create a video from that image."
      ++ nl ++ lit "  "
      ++ nl ++ lit "  If they want just an image, I use the generate_image tool."
      ++ nl ++ lit "  If they upload an image, I guide them to animate it."
  | CUSTOM => lit " You are a custom persona."
  end.

(** The name of the declared function [generateImageTool]. *)
Definition generateImageTool : jsstring := lit "generate_image".

Definition PAYMENT_REQUIRED : jsstring := lit "PAYMENT_REQUIRED".

Definition mapsInstruction : jsstring :=
  nl ++ lit "Use Google Maps to verify locations. For historical queries (like Ramayana), first find the modern equivalent of the place name, then use Google Maps to show the location.".

Definition videoWords : Regex.Re :=
  Regex.Seq Regex.WordBoundary
    (Regex.Seq (Regex.oneOf (lit "video") [lit "animate"; lit "movie"; lit "motion"])
       Regex.WordBoundary).

Definition imageWords : Regex.Re :=
  Regex.Seq Regex.WordBoundary
    (Regex.Seq (Regex.oneOf (lit "generate") [lit "create"; lit "draw"; lit "make"])
       (Regex.Seq Regex.WordBoundary
          (Regex.Seq Regex.DotStar
             (Regex.Seq Regex.WordBoundary
                (Regex.Seq (Regex.oneOf (lit "image") [lit "picture"; lit "photo"; lit "art"])
                   Regex.WordBoundary))))).

(** [String.prototype.toLowerCase] on texts of the Basic Latin block. *)
Definition asciiLower (s : jsstring) : jsstring :=
  map (fun c => if ((65 <=? c) && (c <=? 90))%N then (c + 32)%N else c) s.

End Prompts.

(* ================================================================== *)
(** * geminiService: media generation, knowledge fetch and [chatHybrid] *)
(* ================================================================== *)

Module Router.
Import Gemini Prompts.
Local Open Scope eff_scope.

Record Document := {
  content : jsstring;
  docMimeType : jsstring;
  isBinary : bool
}.

Record Source := { sourceUri : jsstring; sourceTitle : jsstring }.

(** The object [chatHybrid] resolves to; an absent field is [None]. *)
Record ChatResult := {
  text : jsstring;
  sources : option (list Source);
  generatedImage : option jsstring;
  mapData : option (list Source);
  generatedVideo : option jsstring
}.

Definition textOnly (t : jsstring) : ChatResult :=
  {| text := t; sources := None; generatedImage := None; mapData := None;
     generatedVideo := None |}.

Definition hasStatus (error : JsError) (n : Z) : bool :=
  match status error with Some s => (s =? n)%Z | None => false end.

Definition messageIncludes (error : JsError) (p : jsstring) : bool :=
  match message error with Some m => includes m p | None => false end.

Definition messageIs (error : JsError) (p : jsstring) : bool :=
  match message error with Some m => eqs m p | None => false end.

(** The test of [generateImage] and [generateVeoVideo] for a model that
    needs a paid key. *)
Definition isPaidModelError (e : JsError) : bool :=
  messageIncludes e (lit "404") || messageIncludes e (lit "not found")
  || messageIncludes e (lit "403") || hasStatus e 404 || hasStatus e 403.

Definition isWhiteSpace (c : codeunit) : bool :=
  ((9 <=? c) && (c <=? 13) || (c =? 32) || (c =? 160) || (c =? 5760)
   || (8192 <=? c) && (c <=? 8202) || (c =? 8232) || (c =? 8233)
   || (c =? 8239) || (c =? 8287) || (c =? 12288) || (c =? 65279))%N.

Fixpoint trimStart (s : jsstring) : jsstring :=
  match s with
  | c :: s' => if isWhiteSpace c then trimStart s' else s
  | [] => []
  end.

(** [String.prototype.trim]. *)
Definition trim (s : jsstring) : jsstring :=
  rev (trimStart (rev (trimStart s))).

(** [Array.prototype.join(sep)]. *)
Fixpoint join (sep : jsstring) (l : list jsstring) : jsstring :=
  match l with
  | [] => []
  | [x] => x
  | x :: l' => x ++ sep ++ join sep l'
  end.

Section WithEnv.
Variable env : Env.
Variable toLowerCase : jsstring -> jsstring.

Definition ensureApiKey : M unit := request EnsureApiKey (ensureKey env).

(** [generateImage(prompt, size = "1K")]. *)
Definition generateImage (prompt size : jsstring) : M (option jsstring) :=
  tryCatch
    (ensureApiKey ;;;
     answer <- request (GenerateImageContent prompt size)
                 (fun t => imageContent env t prompt size) ;;
     ret (hd_error (flat_map (fun part => match part with
                                          | Some data => [data]
                                          | None => []
                                          end) answer)))
    (fun e =>
       if isPaidModelError e then throw (newError PAYMENT_REQUIRED) else ret None).

(** [generateVeoVideo(imageBase64, prompt, mimeType)]; the polling of the
    operation is the oracle's. *)
Definition generateVeoVideo (imageBase64 prompt mimeType : jsstring)
  : M (option jsstring) :=
  tryCatch
    (ensureApiKey ;;;
     let p := if truthy prompt then prompt else lit "Animate this image" in
     uri <- request (GenerateVideos imageBase64 p mimeType)
              (fun t => videoOperation env t imageBase64 p mimeType) ;;
     ret (match uri with
          | Some u => if truthy u then Some (u ++ lit "&key=" ++ API_KEY env) else None
          | None => None
          end))
    (fun e =>
       if isPaidModelError e then throw (newError PAYMENT_REQUIRED) else throw e).

(** [executeFetch] of [fetchKnowledgeFromWeb]. *)
Definition executeFetch (topic : jsstring) : M jsstring :=
  let prompt := lit "Research: " ++ quote ++ topic ++ quote ++ lit ". detailed summary." in
  tryCatch
    (t <- request (GenerateContent MODEL_NAME prompt [GoogleSearch])
            (fun t => generateText env t MODEL_NAME prompt [GoogleSearch]) ;;
     ret (orElse t []))
    (fun e =>
       if hasStatus e 403 || messageIncludes e (lit "PERMISSION_DENIED") then
         t <- request (GenerateContent MODEL_NAME prompt [])
                (fun t => generateText env t MODEL_NAME prompt []) ;;
         ret (orElse t [])
       else throw e).

Definition fetchKnowledgeFromWeb (topic : jsstring) : M jsstring :=
  scraped <- tryCatch (request (Scrape topic) (fun t => scrape env t topic))
               (fun _ => ret None) ;;
  if present scraped then ret (orElse scraped [])
  else tryCatch (withRetry (executeFetch topic) 3 2000) (fun _ => ret []).

Definition isMapIntent (query : jsstring) : bool :=
  includes (toLowerCase query) (lit "map")
  || includes (toLowerCase query) (lit "location")
  || includes (toLowerCase query) (lit "path")
  || includes (toLowerCase query) (lit "where is").

Definition isVideoRequest (query : jsstring) : bool :=
  Regex.matches (toLowerCase query) videoWords.

Definition isImageRequest (query : jsstring) : bool :=
  Regex.matches (toLowerCase query) imageWords.

(** What the first part of [chatHybrid] settles: the model, the tools and
    the system instruction of the chat. *)
Record Selection := {
  selectedModel : jsstring;
  selectedTools : list Tool;
  instruction : jsstring
}.

(** Lines 532-538 and 544-546: the defaults, the custom persona, and the
    model and tool of the visual persona. *)
Definition initialSelection (persona : ChatPersona)
           (customPersonaInstruction : option jsstring) : Selection :=
  let systemInstruction :=
    if isCustom persona && present customPersonaInstruction
    then BASE_SYSTEM_INSTRUCTION ++ nl ++ nl ++ lit "[CUSTOM PERSONA INSTRUCTION]"
         ++ nl ++ orElse customPersonaInstruction []
    else PERSONA_PROMPTS persona in
  if isVisualCreator persona
  then {| selectedModel := IMAGE_MODEL;
          selectedTools := [FunctionDeclarations [generateImageTool]];
          instruction := systemInstruction |}
  else {| selectedModel := MODEL_NAME; selectedTools := [];
          instruction := systemInstruction |}.

(** Lines 593-609: the map intent, else the general fallback. *)
Definition intentSelection (query : jsstring) (document : option Document)
           (persona : ChatPersona) (sel : Selection) : Selection :=
  if isMapIntent query then
    {| selectedModel := MAPS_MODEL; selectedTools := [GoogleMaps];
       instruction := instruction sel ++ mapsInstruction |}
  else if (match document with None => true | Some _ => false end)
          && negb (isVisualCreator persona) then
    {| selectedModel := selectedModel sel;
       selectedTools := if isImageRequest query
                        then [FunctionDeclarations [generateImageTool]]
                        else [GoogleSearch];
       instruction := instruction sel |}
  else sel.

(** The condition under which the visual persona starts the video chain and
    returns from it. *)
Definition startsVideoChain (query : jsstring) (document : option Document)
           (persona : ChatPersona) : bool :=
  isVisualCreator persona && isVideoRequest query
  && match document with None => true | Some _ => false end.

(** The video chain of the visual persona (lines 555-589). *)
Definition videoChain (query : jsstring) : M ChatResult :=
  tryCatch
    (let enhancementPrompt :=
       lit "You are a visual prompt expert. Analyze the user request: "
       ++ quote ++ query ++ quote ++ lit "." ++ nl
       ++ lit "              Enhance it by adding details (lighting, style, camera angle, mood) that are missing but likely (>75% probability) intended for a high-quality video generation."
       ++ nl
       ++ lit "              Return ONLY the raw enhanced prompt text, no explanations." in
     enhancementRes <- request (GenerateContent MODEL_NAME enhancementPrompt [])
                         (fun t => generateText env t MODEL_NAME enhancementPrompt []) ;;
     let enhancedPrompt :=
       orElse (option_map trim enhancementRes) query in
     imgData <- generateImage enhancedPrompt (lit "1K") ;;
     if present imgData then
       videoUri <- generateVeoVideo (orElse imgData []) enhancedPrompt (lit "image/png") ;;
       ret {| text := [63743%N; 252%N; 233%N; 8226%N] ++ lit " **Video Generated**"
                      ++ nl ++ nl ++ lit "**Enhanced Prompt:** " ++ enhancedPrompt
                      ++ nl ++ nl ++ lit "(I first generated a reference image using "
                      ++ IMAGE_MODEL ++ lit ", then animated it with " ++ VEO_MODEL
                      ++ lit ".)";
              sources := None; generatedImage := imgData; mapData := None;
              generatedVideo := videoUri |}
     else
       ret (textOnly (lit "I tried to generate a base image for your video but failed. Please try a different prompt.")))
    (fun e =>
       if messageIs e PAYMENT_REQUIRED then throw e
       else ret (textOnly (lit "Error during video generation pipeline. Please check your API limits or try again."))).

(** The body of the loop over [response.functionCalls] for one call; the
    state is the text and the generated image so far. *)
Definition handleCall (chat : Chat) (call : FunctionCall)
           (state : jsstring * option jsstring) : M (jsstring * option jsstring) :=
  let '(text0, generatedImage0) := state in
  if eqs (callName call) (lit "generate_image") then
    let text1 := text0 ++ nl ++ nl ++ lit "(Generating image for: " ++ quote
                 ++ argPrompt call ++ quote ++ lit " at "
                 ++ orElse (argSize call) (lit "1K") ++ lit ")..." in
    let failed := nl ++ lit "[Image Generation Failed: Please try again]" in
    tryCatch
      (imgData <- generateImage (argPrompt call)
                    (match argSize call with Some s => s | None => lit "1K" end) ;;
       if present imgData then
         tryCatch
           (request
              (SendMessage chat
                 (MessageParts [FunctionResponse (lit "generate_image")
                                  (lit "Image generated successfully.")]))
              (fun t => sendMessage env t chat
                 (MessageParts [FunctionResponse (lit "generate_image")
                                  (lit "Image generated successfully.")])) ;;;
            ret (text1, imgData))
           (fun e =>
              if messageIs e PAYMENT_REQUIRED then throw e
              else ret (text1 ++ failed, imgData))
       else ret (text1, generatedImage0))
      (fun e =>
         if messageIs e PAYMENT_REQUIRED then throw e
         else ret (text1 ++ failed, generatedImage0))
  else ret state.

Fixpoint handleCalls (chat : Chat) (calls : list FunctionCall)
         (state : jsstring * option jsstring) : M (jsstring * option jsstring) :=
  match calls with
  | [] => ret state
  | call :: rest => s <- handleCall chat call state ;; handleCalls chat rest s
  end.

(** The sources of the grounding chunks: the web source, then the map
    source, of each chunk. *)
Definition referenceSource (r : option Reference) (fallback : jsstring) : list Source :=
  match r with
  | Some ref =>
      if present (uri ref)
      then [{| sourceUri := orElse (uri ref) [];
               sourceTitle := orElse (title ref) fallback |}]
      else []
  | None => []
  end.

Definition groundingSources (chunks : option (list GroundingChunk)) : list Source :=
  match chunks with
  | Some cs =>
      flat_map (fun chunk => referenceSource (web chunk) (lit "Web Source")
                             ++ referenceSource (maps chunk) (lit "Map Location")) cs
  | None => []
  end.

(** Lines 611-614: what the RAG context, the document and the links add. *)
Definition finalInstruction (sel : Selection) (ragContext : option jsstring)
           (document : option Document) : jsstring :=
  instruction sel
  ++ (if present ragContext
      then nl ++ nl ++ lit "[RAG CONTEXT]" ++ nl ++ orElse ragContext []
      else [])
  ++ (match document with
      | Some _ => nl ++ nl ++ lit "[DOCUMENT CONTEXT]" ++ nl
                  ++ lit "Analyze the uploaded document."
      | None => []
      end).

Definition finalQuery (query : jsstring) (links : option (list jsstring)) : jsstring :=
  match links with
  | Some (l :: ls) => query ++ nl ++ nl ++ lit "Refer to: " ++ join (lit ", ") (l :: ls)
  | _ => query
  end.

(** Lines 616-623. *)
Definition apiHistory (chatHistory : list Content) (document : option Document)
  : list Content :=
  match document with
  | Some d =>
      let docPart :=
        if isBinary d then InlineData (docMimeType d) (content d)
        else TextPart (lit "[DOCUMENT]" ++ nl ++ content d) in
      [ {| role := lit "model"; parts := [TextPart (lit "Document received.")] |};
        {| role := lit "user"; parts := [docPart; TextPart (lit "Context Document")] |} ]
      ++ chatHistory
  | None => chatHistory
  end.

(** The chat of line 627, and the chat of the fallback of line 695. *)
Definition chatOf (sel : Selection) (chatHistory : list Content)
           (document : option Document) (ragContext : option jsstring) : Chat :=
  {| model := selectedModel sel;
     systemInstruction := finalInstruction sel ragContext document;
     tools := selectedTools sel;
     history := apiHistory chatHistory document |}.

Definition withoutTools (chat : Chat) : Chat :=
  {| model := model chat; systemInstruction := systemInstruction chat;
     tools := []; history := history chat |}.

(** [error.status === 403 || error.message?.includes("PERMISSION_DENIED")]. *)
Definition isPermissionError (error : JsError) : bool :=
  hasStatus error 403 || messageIncludes error (lit "PERMISSION_DENIED").

(** Lines 625-712: the chat itself, and what is done with its failure. *)
Definition converse (sel : Selection) (query : jsstring) (chatHistory : list Content)
           (document : option Document) (links : option (list jsstring))
           (ragContext : option jsstring) : M ChatResult :=
  let chat := chatOf sel chatHistory document ragContext in
  let query := finalQuery query links in
  tryCatch
    (response <- request (SendMessage chat (MessageText query))
                   (fun t => sendMessage env t chat (MessageText query)) ;;
     let text0 := orElse (responseText response) [] in
     s <- handleCalls chat
            (match functionCalls response with Some cs => cs | None => [] end)
            (text0, None) ;;
     ret {| text := fst s;
            sources := Some (groundingSources (groundingChunks response));
            generatedImage := snd s; mapData := Some []; generatedVideo := None |})
    (fun error =>
       if isPermissionError error then
         if (0 <? len (tools chat))%Z then
           let fallbackChat := withoutTools chat in
           response <- request (SendMessage fallbackChat (MessageText query))
                         (fun t => sendMessage env t fallbackChat (MessageText query)) ;;
           ret (textOnly (orElse (responseText response) []))
         else throw (newError PAYMENT_REQUIRED)
       else if messageIs error PAYMENT_REQUIRED || messageIncludes error (lit "404") then
         throw (newError PAYMENT_REQUIRED)
       else ret (textOnly (lit "Error connecting to AI. Please try again."))).

(** [chatHybrid(query, chatHistory, document, links, persona, ragContext,
    customPersonaInstruction)]. *)
Definition chatHybrid (query : jsstring) (chatHistory : list Content)
           (document : option Document) (links : option (list jsstring))
           (persona : ChatPersona) (ragContext customPersonaInstruction : option jsstring)
  : M ChatResult :=
  let sel := initialSelection persona customPersonaInstruction in
  (if isVisualCreator persona then ensureApiKey else ret tt) ;;;
  if startsVideoChain query document persona then videoChain query
  else converse (intentSelection query document persona sel)
         query chatHistory document links ragContext.

End WithEnv.
End Router.

(* ================================================================== *)
(** * The retry schedule *)
(* ================================================================== *)

Module RetrySpec.
Import IndexingSpec.

(** The world in which attempt number [k] (from 0) of [fn] starts when every
    earlier attempt failed and was retried: after attempt [j] the helper
    waits [delay * 2^j]. *)
Fixpoint attemptWorld {T} (fn : M T) (delay : Z) (k : nat) (w : World) : World :=
  match k with
  | O => w
  | S k' =>
      extended (snd (fn (attemptWorld fn delay k' w)))
        [Sleep (delay * 2 ^ Z.of_nat k')]
  end.

(** Every embedding request is answered with an internal error. *)
Definition alwaysInternal : Env :=
  {| embedContent := fun _ _ => Throw Samples.internal;
     callListener := fun _ _ => Ok tt;
     mathRandom36 := fun _ => lit "0.4fzyo82mvyr";
     dateNow := fun t => Z.of_nat t;
     ensureKey := fun _ => Ok tt;
     scrape := fun _ _ => Throw Samples.unreachable;
     sendMessage := fun _ _ _ => Throw Samples.internal;
     generateText := fun _ _ _ _ => Throw Samples.internal;
     imageContent := fun _ _ _ => Throw Samples.internal;
     videoOperation := fun _ _ _ _ => Throw Samples.internal;
     API_KEY := lit "key" |}.

(** The embedding backend fails twice with an internal error, then answers. *)
Definition recovers : Env :=
  Samples.withEmbedding
    (fun t _ => if (t <? 4)%nat then Throw Samples.internal
                else Ok (Some [1%float]))
    Samples.silent.

End RetrySpec.

(* ================================================================== *)
(** * Frames and sample backends of the router *)
(* ================================================================== *)

Module Frame.
Import IndexingSpec.

(** [emits P m]: whatever the world, [m] leaves the store alone and adds to
    the trace only events that satisfy [P]. *)
Definition emits {A} (P : Event -> Prop) (m : M A) : Prop :=
  forall w, exists evs, snd (m w) = extended w evs /\ Forall P evs.

Definition notChat (ev : Event) : Prop :=
  match ev with SendMessage _ _ => False | _ => True end.

Definition anyEvent (ev : Event) : Prop := True.

(** The chat backend refuses every message for lack of permission. *)
Definition refusing : Env :=
  Samples.withChat (fun _ _ _ => Throw Samples.forbidden) Samples.silent.

Definition answer (t : jsstring) : Response :=
  {| responseText := Some t; functionCalls := None; groundingChunks := None |}.

(** The chat backend refuses a chat that has tools and answers one that has
    none. *)
Definition refusesTools : Env :=
  Samples.withChat
    (fun _ chat _ => match tools chat with
                     | [] => Ok (answer (lit "plain answer"))
                     | _ :: _ => Throw Samples.forbidden
                     end)
    Samples.silent.

End Frame.

(* ================================================================== *)
(** * The order of binary64 numbers, and rankings *)
(* ================================================================== *)

Module FloatOrder.
Local Open Scope Z_scope.

(** A key that orders the numbers of the format as [SFcompare] does: the
    class and sign first, then the exponent, then the mantissa. *)
Definition key (x : spec_float) : Z * Z * Z :=
  match x with
  | S754_zero _ => (0, 0, 0)
  | S754_infinity false => (2, 0, 0)
  | S754_infinity true => (-2, 0, 0)
  | S754_nan => (3, 0, 0)
  | S754_finite false m e => (1, e, Zpos m)
  | S754_finite true m e => (-1, - e, Zneg m)
  end.

Definition lex (a b : Z * Z * Z) : comparison :=
  let '(a1, a2, a3) := a in
  let '(b1, b2, b3) := b in
  match a1 ?= b1 with
  | Eq => match a2 ?= b2 with Eq => a3 ?= b3 | c => c end
  | c => c
  end.

Definition numeric (x : spec_float) : bool :=
  match x with S754_nan => false | _ => true end.

(** [signed s r]: [r] is a non-zero number of sign [s]. *)
Definition signed (s : bool) (r : spec_float) : bool :=
  match r with
  | S754_finite s' _ _ | S754_infinity s' => Bool.eqb s' s
  | _ => false
  end.

End FloatOrder.

Module RankingSpec.
Import VectorStore.

(** [dot(a, b)], summed from the first component on, in binary64. *)
Definition dot (a b : list float) : float :=
  fold_left (fun acc p => (acc + fst p * snd p)%float) (combine a b) 0%float.

(** The score of a stored entry against the embedding of the query. *)
Definition scoreOf (qe : list float) (d : VectorDocument) : float :=
  cosineSimilarity qe (embedding d).

Definition scored (qe : list float) (docs : list VectorDocument)
  : list (VectorDocument * float) :=
  map (fun doc => (doc, cosineSimilarity qe (embedding doc))) docs.

(** The corpus in the order of [similaritySearch], before the cut at
    [topK]. *)
Definition ranking (qe : list float) (docs : list VectorDocument)
  : list VectorDocument :=
  map fst (sort (fun a b => (snd b - snd a)%float) (scored qe docs)).

(** The comparator [(a, b) => b.score - a.score]. *)
Definition byScore {A} (score : A -> float) (a b : A) : float :=
  (score b - score a)%float.

(** No score is [NaN]. *)
Definition numbered {A} (score : A -> float) (l : list A) : Prop :=
  Forall (fun a => is_nan (score a) = false) l.

(** No entry has a smaller score than a later one. *)
Definition descending {A} (score : A -> float) : list A -> Prop :=
  StronglySorted (fun a b => (score b <=? score a)%float = true).

Definition entry (name : string) (e : list float) : VectorDocument :=
  {| id := lit name; text := lit name; source := lit "s"; category := lit "c";
     embedding := e; timestamp := 0 |}.

Definition store (docs : list VectorDocument) : World :=
  {| documents := docs; listeners := []; trace := [] |}.

(** Every text is embedded as the first unit vector of the plane. *)
Definition unitQuery : Env :=
  Samples.withEmbedding (fun _ _ => Ok (Some [1%float; 0%float])) Samples.silent.

Definition half : VectorDocument := entry "half" [1%float; 1%float].
Definition zero : VectorDocument := entry "zero" [0%float; 0%float].
Definition full : VectorDocument := entry "full" [1%float; 0%float].
Definition twin : VectorDocument := entry "twin" [1%float; 1%float].
Definition back : VectorDocument := entry "back" [(-1)%float; 0%float].
Definition short : VectorDocument := entry "short" [1%float].

End RankingSpec.

(* ================================================================== *)
(** * Statistics of the store ([VectorStore.getStats]) *)
(* ================================================================== *)

Module Stats.
Import VectorStore.
Local Open Scope eff_scope.

Record StoreStats := {
  totalDocuments : Z;
  categories : list jsstring
}.

(** [[...new Set(l)]]: the values of [l] in the order of their first
    occurrence. *)
Definition setOf (l : list jsstring) : list jsstring :=
  fold_left (fun seen c => if existsb (eqs c) seen then seen else seen ++ [c]) l [].

Definition getStats : M StoreStats :=
  docs <- getDocuments ;;
  ret {| totalDocuments := len docs; categories := setOf (map category docs) |}.

(** The first occurrences of a list, said by recursion on the list. *)
Fixpoint firstSeen (l : list jsstring) : list jsstring :=
  match l with
  | [] => []
  | c :: l' => c :: filter (fun d => negb (eqs d c)) (firstSeen l')
  end.

End Stats.

(* ================================================================== *)
(** * Invariants of the corpus, schedules of the retry helper, events *)
(* ================================================================== *)

Module Invariants.
Import Gemini VectorStore.

(** What [addDocument] stores: a fragment that is not empty and has at most
    500 code units, with an embedding that is not empty. *)
Definition wellFormed (d : VectorDocument) : Prop :=
  embedding d <> [] /\ (0 < len (text d) <= 500)%Z.

(** The events of an embedding that is answered after [n] retries, the first
    wait being [delay]. *)
Fixpoint attempts (t : jsstring) (delay : Z) (n : nat) : list Event :=
  match n with
  | O => [EmbedContent t]
  | S n' => EmbedContent t :: Sleep delay :: attempts t (delay * 2) n'
  end.

(** The first [n] waits of the retry helper. *)
Fixpoint waits (delay : Z) (n : nat) : list Z :=
  match n with
  | O => []
  | S n' => delay :: waits (delay * 2) n'
  end.

Definition notSleep (ev : Event) : Prop :=
  match ev with Sleep _ => False | _ => True end.

(** A listener of the store [w] throws at some time. *)
Definition someListenerThrows (env : Env) (w : World) : Prop :=
  exists t l e, In l (listeners w) /\ callListener env t l = Throw e.

(** The numbers that are a zero or [NaN]. *)
Definition void (X : spec_float) : bool :=
  match X with S754_zero _ | S754_nan => true | _ => false end.

End Invariants.

Module RouterSpec.
Import Prompts Router.

(** The requests of the router: the key selector, the chat, text, image and
    video backends. *)
Definition routerEvent (ev : Event) : Prop :=
  match ev with
  | EnsureApiKey | SendMessage _ _ | GenerateContent _ _ _
  | GenerateImageContent _ _ | GenerateVideos _ _ _ => True
  | _ => False
  end.

(** A research request of [executeFetch], with the search tool or without
    any. *)
Definition researchEvent (ev : Event) : Prop :=
  match ev with
  | GenerateContent m _ ts => m = MODEL_NAME /\ (ts = [GoogleSearch] \/ ts = [])
  | _ => False
  end.


(** The text the video chain sends to the text model for [query]. *)
Definition enhancementRequest (query : jsstring) : jsstring :=
  lit "You are a visual prompt expert. Analyze the user request: "
  ++ quote ++ query ++ quote ++ lit "." ++ nl
  ++ lit "              Enhance it by adding details (lighting, style, camera angle, mood) that are missing but likely (>75% probability) intended for a high-quality video generation."
  ++ nl
  ++ lit "              Return ONLY the raw enhanced prompt text, no explanations.".

(** The inline data of the first part that has some. *)
Definition firstInline (answer : list (option jsstring)) : option jsstring :=
  hd_error (flat_map (fun part => match part with
                                  | Some data => [data]
                                  | None => []
                                  end) answer).

(** The requests of the video chain, in their order, when [enhancement] is
    asked of the text model, [prompt] is the enhanced prompt and [image] the
    reference image. *)
Definition videoRequests (enhancement prompt image : jsstring) : list Event :=
  [GenerateContent MODEL_NAME enhancement [];
   EnsureApiKey;
   GenerateImageContent prompt (lit "1K");
   EnsureApiKey;
   GenerateVideos image (if truthy prompt then prompt else lit "Animate this image")
     (lit "image/png")].

End RouterSpec.

(* ================================================================== *)
(** * geminiService: the persona generator and the document chat *)
(* ================================================================== *)

Module Services.
Import Gemini Prompts Router.
Local Open Scope eff_scope.

Section WithEnv.
Variable env : Env.

(** [createPersonaDescription(userDescription)].  The client is built from
    the key of the environment before the request is tried. *)
Definition createPersonaDescription (userDescription : jsstring) : M jsstring :=
  let prompt :=
    lit "Role: Expert System Prompt Engineer." ++ nl
    ++ lit "    Task: Create a detailed, actionable system instruction for an AI persona described as: "
    ++ quote ++ userDescription ++ quote ++ lit "." ++ nl
    ++ lit "    Requirements:" ++ nl
    ++ lit "    1. Define tone, voice, and style." ++ nl
    ++ lit "    2. Define constraints and behavioral rules." ++ nl
    ++ lit "    3. Be specific and immersive." ++ nl
    ++ lit "    Output: Return ONLY the raw system instruction text, no markdown code blocks." in
  tryCatch
    (response <- request (GenerateContent MODEL_NAME prompt [])
                   (fun t => generateText env t MODEL_NAME prompt []) ;;
     ret (orElse (option_map trim response) userDescription))
    (fun e => ret userDescription).

(** The chat that [chatWithDocument] creates. *)
Definition documentChat (fileContent : jsstring) (history : list Content) : Chat :=
  let docPart :=
    TextPart (lit "[DOCUMENT CONTENT]" ++ nl ++ fileContent ++ nl ++ nl
              ++ lit "[INSTRUCTION]" ++ nl
              ++ lit "Answer the user's questions based on the document above.") in
  {| model := MODEL_NAME;
     systemInstruction :=
       lit "You are a helpful assistant. Answer questions based on the provided document context.";
     tools := [];
     history :=
       {| role := lit "user"; parts := [docPart] |}
       :: {| role := lit "model";
             parts := [TextPart (lit "Understood. I will answer based on the document.")] |}
       :: history |}.

(** [chatWithDocument(query, fileContent, history)]. *)
Definition chatWithDocument (query fileContent : jsstring) (history : list Content)
  : M jsstring :=
  tryCatch
    (let chat := documentChat fileContent history in
     response <- request (SendMessage chat (MessageText query))
                   (fun t => sendMessage env t chat (MessageText query)) ;;
     ret (orElse (responseText response) []))
    (fun e => ret (lit "Error processing document chat.")).

End WithEnv.
End Services.

(* ================================================================== *)
(** * Awaits of a service that keeps no state *)
(* ================================================================== *)

Module Asking.

Section Monad.
Variable Req : Type.

(** The requests made so far are the state, and the answer to a request is
    the outside's, given the number of requests made before it. *)
Definition Ask (A : Type) : Type := list Req -> Result A * list Req.

Definition pure {A} (a : A) : Ask A := fun reqs => (Ok a, reqs).

Definition raise {A} (e : JsError) : Ask A := fun reqs => (Throw e, reqs).

Definition andThen {A B} (m : Ask A) (k : A -> Ask B) : Ask B :=
  fun reqs =>
    match m reqs with
    | (Ok a, reqs') => k a reqs'
    | (Throw e, reqs') => (Throw e, reqs')
    end.

(** [try { m } catch (e) { handler e }]. *)
Definition attempt {A} (m : Ask A) (handler : JsError -> Ask A) : Ask A :=
  fun reqs =>
    match m reqs with
    | (Ok a, reqs') => (Ok a, reqs')
    | (Throw e, reqs') => handler e reqs'
    end.

(** A value that is computed without awaiting, or the error it throws. *)
Definition settle {A} (r : Result A) : Ask A := fun reqs => (r, reqs).

Definition ask {A} (answer : nat -> Req -> Result A) (req : Req) : Ask A :=
  fun reqs => (answer (List.length reqs) req, reqs ++ [req]).

End Monad.

Arguments pure {Req A} a.
Arguments raise {Req A} e.
Arguments settle {Req A} r.

End Asking.

(* ================================================================== *)
(** * huggingFaceService: the secondary provider *)
(* ================================================================== *)

Module HuggingFace.
Import Prompts Asking.

Definition LOCAL_PROXY_URL : jsstring := lit "http://localhost:5000/chat/hf".

Definition MODELS : list jsstring :=
  [lit "HuggingFaceH4/zephyr-7b-beta";
   lit "microsoft/Phi-3-mini-4k-instruct";
   lit "mistralai/Mistral-7B-Instruct-v0.2"].

(** What reading [.text] of [undefined] throws; the wording of the message
    is the engine's and no handler reads it. *)
Definition typeError : JsError :=
  newError (lit "Cannot read properties of undefined (reading 'text')").

(** [msg.parts[0].text] inside a template: the text of a text part,
    [undefined] for a part of another kind, and a [TypeError] when the
    message has no part. *)
Definition firstText (msg : Content) : Result jsstring :=
  match parts msg with
  | [] => Throw typeError
  | TextPart t :: _ => Ok t
  | _ :: _ => Ok (lit "undefined")
  end.

(** [msgs.forEach(msg => prompt += render(msg))]. *)
Fixpoint appendEach (render : jsstring -> jsstring -> jsstring) (msgs : list Content)
         (prompt : jsstring) : Result jsstring :=
  match msgs with
  | [] => Ok prompt
  | msg :: rest =>
      match firstText msg with
      | Ok t => appendEach render rest (prompt ++ render (role msg) t)
      | Throw e => Throw e
      end
  end.

(** [getPromptForModel(modelId, query, history, systemInstruction,
    ragContext)]. *)
Definition getPromptForModel (modelId query : jsstring) (history : list Content)
           (systemInstruction : jsstring) (ragContext : option jsstring)
  : Result jsstring :=
  let recent := slice history (-4) (len history) in
  if includes modelId (lit "zephyr") || includes modelId (lit "Phi") then
    let prompt := lit "<|system|>" ++ nl ++ systemInstruction ++ nl in
    let prompt :=
      if present ragContext
      then prompt ++ lit "CONTEXT:" ++ nl ++ orElse ragContext [] ++ nl
      else prompt in
    let prompt := prompt ++ lit "</s>" ++ nl in
    match appendEach
            (fun role t =>
               let role := if eqs role (lit "user") then lit "user" else lit "assistant" in
               lit "<|" ++ role ++ lit "|>" ++ nl ++ t ++ lit "</s>" ++ nl)
            recent prompt with
    | Ok prompt =>
        Ok (prompt ++ lit "<|user|>" ++ nl ++ query ++ lit "</s>" ++ nl
            ++ lit "<|assistant|>" ++ nl)
    | Throw e => Throw e
    end
  else if includes modelId (lit "Mistral") then
    let prompt := lit "<s>[INST] " ++ systemInstruction ++ nl in
    let prompt :=
      if present ragContext
      then prompt ++ lit "CONTEXT:" ++ nl ++ orElse ragContext [] ++ nl ++ nl
      else prompt in
    match appendEach
            (fun role t =>
               if eqs role (lit "user") then lit "User: " ++ t ++ nl
               else lit "Assistant: " ++ t ++ nl)
            recent prompt with
    | Ok prompt => Ok (prompt ++ lit "User: " ++ query ++ lit " [/INST]")
    | Throw e => Throw e
    end
  else Ok (systemInstruction ++ nl ++ nl ++ lit "User: " ++ query ++ nl
           ++ lit "Assistant:").

(** The body of a request, by its fields; [do_sample] is absent from the
    request to the local proxy. *)
Record Parameters := {
  max_new_tokens : Z;
  temperature : float;
  return_full_text : bool;
  do_sample : option bool
}.

(** A [fetch]: the address, the body, and whether an abort signal is
    attached. *)
Record FetchRequest := {
  url : jsstring;
  inputs : jsstring;
  parameters : Parameters;
  signal : bool
}.

(** What [response.json()] resolves to, by what the code reads of it: an
    array with the [generated_text] of each of its elements, [null], or any
    other value with its [error] field. *)
Inductive Payload :=
| Items (generated : list (option jsstring))
| Null
| Fields (error : option jsstring).

Record FetchResponse := {
  ok : bool;
  httpStatus : Z;
  json : Result Payload
}.

(** [Number.prototype.toString] of an integer status. *)
Definition decimal (n : Z) : jsstring := lit (NilZero.string_of_int (Z.to_int n)).

Definition NO_CONNECTION : jsstring :=
  lit "Error: Could not connect to Open Source model. " ++ nl ++ nl
  ++ lit "Tip: For the best experience, run the included 'backend/app.py' server to bypass browser restrictions, or use the Gemini provider.".

Section WithFetch.
Variable fetch : nat -> FetchRequest -> Result FetchResponse.
Variable query : jsstring.
Variable history : list Content.
Variable systemInstruction : jsstring.
Variable ragContext : option jsstring.

Definition localRequest (prompt : jsstring) : FetchRequest :=
  {| url := LOCAL_PROXY_URL; inputs := prompt;
     parameters := {| max_new_tokens := 512; temperature := 0x1.6666666666666p-1;
                      return_full_text := false; do_sample := None |};
     signal := true |}.

Definition remoteRequest (model prompt : jsstring) : FetchRequest :=
  {| url := lit "https://api-inference.huggingface.co/models/" ++ model;
     inputs := prompt;
     parameters := {| max_new_tokens := 512; temperature := 0x1.6666666666666p-1;
                      return_full_text := false; do_sample := Some true |};
     signal := false |}.

(** [result[0]?.generated_text]. *)
Definition firstGenerated (result : Payload) : option jsstring :=
  match result with
  | Items (Some t :: _) => Some t
  | _ => None
  end.

(** The first step, lines 52-76: the local proxy.  The value is what the
    function returns from this step, if it returns from it. *)
Definition tryLocal : Ask FetchRequest (option jsstring) :=
  attempt
    (andThen (settle (getPromptForModel (lit "HuggingFaceH4/zephyr-7b-beta") query
                        history systemInstruction ragContext)) (fun prompt =>
     andThen (ask fetch (localRequest prompt)) (fun response =>
     if ok response then
       andThen (settle (json response)) (fun result =>
       match result with
       | Null => raise typeError
       | Items _ =>
           pure (Some (orElse (firstGenerated result) (lit "No response.")))
       | Fields error =>
           pure (Some (orElse error (lit "No response.")))
       end)
     else pure None)))
    (fun e => pure None).

(** One turn of the loop of lines 79-113; the prompt is built before the
    [try]. *)
Definition tryModel (model : jsstring) : Ask FetchRequest (option jsstring) :=
  andThen (settle (getPromptForModel model query history systemInstruction ragContext))
    (fun prompt =>
  attempt
    (andThen (ask fetch (remoteRequest model prompt)) (fun response =>
     if (httpStatus response =? 503)%Z then pure None
     else if negb (ok response)
     then raise (newError (lit "Status " ++ decimal (httpStatus response)))
     else
       andThen (settle (json response)) (fun result =>
       match result with
       | Items _ =>
           match firstGenerated result with
           | Some t => if truthy t then pure (Some t) else pure None
           | None => pure None
           end
       | _ => pure None
       end)))
    (fun err => pure None)).

Fixpoint tryModels (models : list jsstring) : Ask FetchRequest jsstring :=
  match models with
  | [] => pure NO_CONNECTION
  | model :: rest =>
      andThen (tryModel model) (fun r =>
      match r with
      | Some t => pure t
      | None => tryModels rest
      end)
  end.

(** [chatWithHuggingFace(query, history, systemInstruction, ragContext)]. *)
Definition chatWithHuggingFace : Ask FetchRequest jsstring :=
  andThen tryLocal (fun r =>
  match r with
  | Some t => pure t
  | None => tryModels MODELS
  end).

End WithFetch.

(** The addresses the provider may ask, in the order it asks them. *)
Definition addresses : list jsstring :=
  LOCAL_PROXY_URL
  :: map (fun model => lit "https://api-inference.huggingface.co/models/" ++ model) MODELS.

End HuggingFace.

(* ================================================================== *)
(** * geminiService: translation, OCR and document analysis *)
(* ================================================================== *)

Module SingleShot.
Import Prompts Asking.

Inductive TranslationMode := TRANSLATE | TRANSLITERATE.

(** The [contents] of a request: a prompt, the parts of one user turn, or
    parts without a role. *)
Inductive Contents :=
| Prompt (text : jsstring)
| UserParts (parts : list Part)
| Parts (parts : list Part).

(** [ai.models.generateContent({ model, contents, config })]; the
    instruction is absent when there is no [config]. *)
Record GenerateContentRequest := {
  model : jsstring;
  contents : Contents;
  systemInstruction : option jsstring
}.

(** The file [translateDocument] is given. *)
Record TranslationFile := { data : jsstring; mimeType : jsstring; isBinary : bool }.

Inductive Task := summary | questions | keywords.

(** [task.toUpperCase()]. *)
Definition toUpperCase (task : Task) : jsstring :=
  match task with
  | summary => lit "SUMMARY"
  | questions => lit "QUESTIONS"
  | keywords => lit "KEYWORDS"
  end.

Section WithModel.
(** [response.text] of the answer to a request, given the number of requests
    made before it. *)
Variable generateContent : nat -> GenerateContentRequest -> Result (option jsstring).

(** [translateText(text, sourceLang, targetLang, mode, verbose = false)]. *)
Definition translateText (text sourceLang targetLang : jsstring) (mode : TranslationMode)
           (verbose : bool) : Ask GenerateContentRequest jsstring :=
  if negb (truthy (Router.trim text)) then pure [] else
  let source :=
    if eqs sourceLang (lit "auto") then lit "the detected language" else sourceLang in
  let systemInstruction :=
    match mode with
    | TRANSLITERATE =>
        lit "You are a professional Transliteration Engine." ++ nl
        ++ lit "      Task: Convert the script of the user input from " ++ source
        ++ lit " to " ++ targetLang ++ lit " script." ++ nl ++ lit "      " ++ nl
        ++ lit "      CRITICAL RULES:" ++ nl
        ++ lit "      1. Do NOT translate the meaning of the words. Keep the original words, just change the alphabet/script."
        ++ nl ++ lit "      2. Example (Hindi to English): " ++ quote
        ++ [8225%N; 167%N; 174%N; 8225%N; 167%N; 198%N; 8225%N; 167%N; 8719%N; 8225%N; 8226%N; 231%N; 8225%N; 167%N; 167%N; 8225%N; 8226%N; 225%N]
        ++ quote ++ lit " -> " ++ quote ++ lit "Namaste" ++ quote ++ lit " (NOT "
        ++ quote ++ lit "Hello" ++ quote ++ lit ")." ++ nl
        ++ lit "      3. Example (English to Hindi): " ++ quote ++ lit "Hello"
        ++ quote ++ lit " -> " ++ quote
        ++ [8225%N; 167%N; 960%N; 8225%N; 8226%N; 225%N; 8225%N; 167%N; 8804%N; 8225%N; 8226%N; 227%N]
        ++ quote ++ lit " (NOT " ++ quote
        ++ [8225%N; 167%N; 174%N; 8225%N; 167%N; 198%N; 8225%N; 167%N; 8719%N; 8225%N; 8226%N; 231%N; 8225%N; 167%N; 167%N; 8225%N; 8226%N; 225%N]
        ++ quote ++ lit ")." ++ nl
        ++ lit "      4. Return ONLY the transliterated text." ++ nl ++ lit "      "
    | TRANSLATE =>
        if verbose then
          lit "You are a helpful AI assistant and expert linguist." ++ nl
          ++ lit "    Task: Translate the user input from " ++ source ++ lit " to "
          ++ targetLang ++ lit "." ++ nl ++ lit "    " ++ nl
          ++ lit "    Instructions:" ++ nl
          ++ lit "    1. Provide the direct translation first." ++ nl
          ++ lit "    2. Then, provide a breakdown, alternative meanings, grammar notes, or cultural context."
          ++ nl ++ lit "    3. Be descriptive and educational."
        else
          lit "You are a professional, high-precision translator." ++ nl
          ++ lit "    Task: Translate the user input from " ++ source ++ lit " to "
          ++ targetLang ++ lit "." ++ nl ++ lit "    " ++ nl
          ++ lit "    STRICT OUTPUT RULES:" ++ nl
          ++ lit "    1. Return ONLY the translated text. " ++ nl
          ++ lit "    2. Do NOT include phrases like " ++ quote
          ++ lit "Here is the translation" ++ quote ++ lit ", " ++ quote
          ++ lit "The translation is" ++ quote ++ lit ", or " ++ quote ++ lit "Sure"
          ++ quote ++ lit "." ++ nl
          ++ lit "    3. Do NOT wrap the output in quotes." ++ nl
          ++ lit "    4. Exception: If the source text is extremely ambiguous or has multiple distinct meanings, you may add a brief parenthetical note explaining the chosen context (e.g. "
          ++ quote ++ lit "Kinder im Garten (referring to multiple children)"
          ++ quote ++ lit "). Otherwise, NO notes."
    end in
  let prompt :=
    match mode with
    | TRANSLITERATE =>
        lit "Transliterate into " ++ targetLang ++ lit " script: " ++ quote ++ text
        ++ quote
    | TRANSLATE =>
        lit "Input to translate: " ++ quote ++ text ++ quote
    end in
  attempt
    (andThen (ask generateContent
                {| model := MODEL_NAME; contents := Prompt prompt;
                   systemInstruction := Some systemInstruction |}) (fun response =>
     pure (orElse (option_map Router.trim response) (lit "Processing failed."))))
    (fun error => pure (lit "Error.")).

(** [translateDocument(file, sourceLang, targetLang, mode, verbose = false)]. *)
Definition translateDocument (file : TranslationFile) (sourceLang targetLang : jsstring)
           (mode : TranslationMode) (verbose : bool)
  : Ask GenerateContentRequest jsstring :=
  let source :=
    if eqs sourceLang (lit "auto") then lit "detected language" else sourceLang in
  let isImage := startsWith (mimeType file) (lit "image/") in
  let systemInstruction :=
    if isImage then
      lit "You are a helpful AI visual translator." ++ nl
      ++ lit "      Target Language: " ++ targetLang ++ lit "." ++ nl
      ++ lit "      " ++ nl ++ lit "      Your Goal:" ++ nl
      ++ lit "      1. Extract and translate any text found in the image to "
      ++ targetLang ++ lit "." ++ nl
      ++ lit "      2. If NO text is found, or the text is unreadable, provide a detailed description of the image content in "
      ++ targetLang ++ lit "." ++ nl
      ++ lit "      3. If there is text, provide the translation first, then a brief description of the visual context."
      ++ nl ++ lit "      "
    else
      match mode with
      | TRANSLITERATE =>
          lit "You are a document transliterator." ++ nl
          ++ lit "      Task: Transliterate the provided document content from "
          ++ source ++ lit " script to " ++ targetLang ++ lit " script." ++ nl
          ++ lit "      " ++ nl ++ lit "      Rules:" ++ nl
          ++ lit "      1. Do NOT translate the meaning. Convert script only." ++ nl
          ++ lit "      2. Preserve the original formatting, paragraphs, and structure exactly."
          ++ nl ++ lit "      3. Return ONLY the transliterated content." ++ nl
          ++ lit "      "
      | TRANSLATE =>
          if verbose then
            lit "You are a helpful AI assistant and expert linguist analyzing a document."
            ++ nl ++ lit "    Task: Translate the provided document from " ++ source
            ++ lit " to " ++ targetLang ++ lit "." ++ nl ++ lit "    " ++ nl
            ++ lit "    Instructions:" ++ nl
            ++ lit "    1. Provide the translation." ++ nl
            ++ lit "    2. You may add footnotes or a summary of linguistic choices at the end if the document has complex terminology."
          else
            lit "You are a document translator." ++ nl
            ++ lit "    Task: Translate the provided document content from "
            ++ source ++ lit " to " ++ targetLang ++ lit "." ++ nl
            ++ lit "    Rules:" ++ nl
            ++ lit "    1. Preserve the original formatting, paragraphs, and structure exactly."
            ++ nl
            ++ lit "    2. Return ONLY the translated content. No introductory or concluding text."
      end in
  attempt
    (let parts :=
       if isBinary file then
         [InlineData (mimeType file) (data file);
          TextPart
            (if isImage then
               nl ++ lit "Please analyze this image." ++ nl
               ++ lit "1. If there is text in the image, translate it to "
               ++ targetLang ++ lit "." ++ nl
               ++ lit "2. If there is NO text, provide a detailed description of what you see in the image in "
               ++ targetLang ++ lit "." ++ nl
               ++ lit "3. If there is text but it's part of a larger scene, translate the text and briefly describe the scene."
               ++ nl
             else
               match mode with
               | TRANSLITERATE => lit "Transliterate this document."
               | TRANSLATE => lit "Translate this document."
               end)]
       else
         [TextPart (lit "[DOCUMENT CONTENT TO PROCESS]" ++ nl ++ data file)] in
     andThen (ask generateContent
                {| model := MODEL_NAME; contents := UserParts parts;
                   systemInstruction := Some systemInstruction |}) (fun response =>
     pure (orElse (option_map Router.trim response) (lit "Failed."))))
    (fun error => pure (lit "Error.")).

(** [extractTextFromImage(base64Data, mimeType)]. *)
Definition extractTextFromImage (base64Data mimeType : jsstring)
  : Ask GenerateContentRequest jsstring :=
  attempt
    (andThen (ask generateContent
                {| model := MODEL_NAME;
                   contents :=
                     Parts [InlineData mimeType base64Data;
                            TextPart (lit "OCR Task: Extract all text from this image exactly as it appears. Return only the extracted text, no markdown, no commentary.")];
                   systemInstruction := None |}) (fun response =>
     pure (orElse (option_map Router.trim response) [])))
    (fun e => pure []).

(** [analyzeDocument(file, task)]. *)
Definition analyzeDocument (file : Router.Document) (task : Task)
  : Ask GenerateContentRequest jsstring :=
  let prompt :=
    lit "Perform task: " ++ toUpperCase task ++ lit " on the attached document." in
  attempt
    (let parts :=
       (if Router.isBinary file
        then InlineData (Router.docMimeType file) (Router.content file)
        else TextPart (lit "Document:" ++ nl ++ Router.content file))
       :: [TextPart prompt] in
     andThen (ask generateContent
                {| model := MODEL_NAME; contents := UserParts parts;
                   systemInstruction := None |}) (fun response =>
     pure (orElse response (lit "Analysis failed."))))
    (fun e => pure (lit "Error analyzing document.")).

End WithModel.
End SingleShot.

(* ================================================================== *)
(** * The callers: chat, knowledge base and translation hand-off *)
(* ================================================================== *)

Module Clients.
Import Gemini VectorStore Prompts Router.
Local Open Scope eff_scope.



(** A source of the knowledge base. *)
Record KnowledgeSource := { name : jsstring; query : jsstring; description : jsstring }.

Inductive Tier := FREE | PRO | ENTERPRISE.

Definition TIER_KNOWLEDGE (tier : Tier) : list KnowledgeSource :=
  match tier with
  | FREE =>
      [{| name := lit "General Science";
          query := lit "Key concepts in physics, chemistry, and biology summary";
          description := lit "Scientific Principles" |};
       {| name := lit "World History";
          query := lit "Summary of major world history events 20th century";
          description := lit "Historical Context" |}]
  | PRO =>
      [{| name := lit "Advanced Philosophy";
          query := lit "Major philosophical schools: Stoicism, Existentialism, Eastern Philosophy";
          description := lit "Ethics & Thought" |};
       {| name := lit "Literature Classics";
          query := lit "Summary of Shakespeare, Homer, and Dante key themes";
          description := lit "Classic Literature" |}]
  | ENTERPRISE =>
      [{| name := lit "Global Economics";
          query := lit "Macroeconomic principles and global market structures";
          description := lit "Economics" |};
       {| name := lit "Cutting Edge Tech";
          query := lit "Latest developments in AI, Quantum Computing, and Biotech";
          description := lit "Future Tech" |}]
  end.

(** KnowledgeBase, [getSources], for the tier of the context. *)
Definition getSources (currentTier : Tier) : list KnowledgeSource :=
  let sources := TIER_KNOWLEDGE FREE in
  let sources :=
    match currentTier with
    | FREE => sources
    | _ => sources ++ TIER_KNOWLEDGE PRO
    end in
  match currentTier with
  | ENTERPRISE => sources ++ TIER_KNOWLEDGE ENTERPRISE
  | _ => sources
  end.

Inductive StatusType := success | error.

Record StatusMsg := { type : StatusType; text : jsstring }.

(** A count inside a template: an integer below 10^21 is written in
    decimal. *)
Definition count (n : nat) : jsstring := lit (NilZero.string_of_uint (Nat.to_uint n)).

Section WithEnv.
Variable env : Env.
Variable toLowerCase : jsstring -> jsstring.



(** KnowledgeBase, lines 69-83: one turn of the loop of [handleSync]; the
    state is the count of new vectors and the count of failed topics. *)
Definition syncSource (totals : nat * nat) (source : KnowledgeSource) : M (nat * nat) :=
  let '(totalVectors, failedTopics) := totals in
  tryCatch
    (content <- fetchKnowledgeFromWeb env (query source) ;;
     if truthy content then
       n <- addDocument env content (name source) (lit "Core Knowledge") ;;
       ret ((totalVectors + n)%nat, failedTopics)
     else ret (totalVectors, S failedTopics))
    (fun e => ret (totalVectors, S failedTopics)).

Fixpoint syncSources (totals : nat * nat) (sources : list KnowledgeSource)
  : M (nat * nat) :=
  match sources with
  | [] => ret totals
  | source :: rest => t <- syncSource totals source ;; syncSources t rest
  end.

(** KnowledgeBase, [handleSync]; the value is the status message it sets at
    the end, if it gets there. *)
Definition handleSync (isSyncing : bool) (currentTier : Tier) : M (option StatusMsg) :=
  if isSyncing then ret None else
  let sources := getSources currentTier in
  totals <- syncSources (0%nat, 0%nat) sources ;;
  let '(totalVectors, failedTopics) := totals in
  if (0 <? totalVectors)%nat then
    ret (Some {| type := success;
                 text :=
                   lit "Sync complete. Added " ++ count totalVectors
                   ++ lit " new vectors."
                   ++ (if (0 <? failedTopics)%nat
                       then lit " (" ++ count failedTopics ++ lit " topics failed)"
                       else []) |})
  else
    ret (Some {| type := error;
                 text :=
                   lit "Sync completed but no new vectors were generated. Check connection." |}).

(** App, [handleTranslationToChat]: the value is the initial message of the
    chat and the alert that is shown, if one is. *)
Definition handleTranslationToChat (text : jsstring) (isRAG : bool)
  : M (jsstring * option jsstring) :=
  if isRAG then
    tryCatch
      (n <- addDocument env text (lit "Translation Result") (lit "User Translation") ;;
       if (0 <? n)%nat then
         ret (lit "I have analyzed the translation text you sent to the Knowledge Base. Please summarize it.",
              None)
       else
         ret (text,
              Some (lit "Could not create knowledge vectors from this translation. Please try again.")))
      (fun e => ret (text, Some (lit "Error adding translation to Knowledge Base.")))
  else ret (text, None).

End WithEnv.
End Clients.

(* ================================================================== *)
(** * Properties *)
(* ================================================================== *)

Module ChunkerFacts.
Import Chunker.

Lemma len_nonneg {A} (l : list A) : (0 <= len l)%Z.
Proof. unfold len. lia. Qed.

(** Inside the text, [slice] is [firstn] after [skipn]. *)
Lemma slice_firstn_skipn {A} (l : list A) (b e : Z) :
  (0 <= b <= len l)%Z -> (b <= e)%Z ->
  slice l b e = firstn (Z.to_nat (e - b)) (skipn (Z.to_nat b) l).
Proof.
  intros Hb He. unfold slice, relIndex.
  assert (Hb0 : (b <? 0)%Z = false) by (apply Z.ltb_ge; lia).
  assert (He0 : (e <? 0)%Z = false) by (apply Z.ltb_ge; lia).
  rewrite Hb0, He0. rewrite (Z.min_l b) by lia.
  destruct (Z.le_gt_cases e (len l)) as [Hle | Hgt].
  - rewrite Z.min_l by lia. reflexivity.
  - rewrite Z.min_r by lia.
    assert (Hlen : List.length (skipn (Z.to_nat b) l) = Z.to_nat (len l - b)).
    { rewrite length_skipn. unfold len in *. lia. }
    rewrite !firstn_all2; try reflexivity; rewrite Hlen; lia.
Qed.

(** The loop from index [i] rebuilds the text from [i] on, slice by slice. *)
Lemma chunkLoop_spec (text : jsstring) (S : positive) :
  forall (fuel : nat) (i : Z),
    (0 <= i)%Z -> (len text - i <= Z.of_nat fuel)%Z ->
    List.concat (chunkLoop fuel text S i) = skipn (Z.to_nat i) text
    /\ Forall (fun c => (0 < len c <= Zpos S)%Z) (chunkLoop fuel text S i)
    /\ (forall k, (k < List.length (chunkLoop fuel text S i))%nat ->
          nth k (chunkLoop fuel text S i) [] =
            slice text (i + Z.of_nat k * Zpos S) (i + (Z.of_nat k + 1) * Zpos S))
    /\ (forall k, (Datatypes.S k < List.length (chunkLoop fuel text S i))%nat ->
          len (nth k (chunkLoop fuel text S i) []) = Zpos S)
    /\ (Z.of_nat (List.length (chunkLoop fuel text S i)) =
          (Z.max (len text - i) 0 + Zpos S - 1) / Zpos S)%Z.
Proof.
  induction fuel as [| fuel IH]; intros i Hi Hfuel.
  - assert (Hge : (len text <= i)%Z) by lia.
    cbn [chunkLoop List.concat List.length]. repeat split.
    + symmetry. apply skipn_all2. unfold len in Hge. lia.
    + constructor.
    + intros k Hk. inversion Hk.
    + intros k Hk. inversion Hk.
    + rewrite Z.max_r by lia. symmetry. apply Z.div_small. lia.
  - cbn [chunkLoop]. destruct (i <? len text)%Z eqn:Hlt.
    + apply Z.ltb_lt in Hlt.
      destruct (IH (i + Zpos S)%Z) as (Hcat & Hall & Hnth & Hfull & Hcount); try lia.
      assert (Hsl : slice text i (i + Zpos S)
                    = firstn (Pos.to_nat S) (skipn (Z.to_nat i) text)).
      { rewrite slice_firstn_skipn by lia. f_equal. lia. }
      assert (Hsklen : List.length (skipn (Z.to_nat i) text) = Z.to_nat (len text - i)).
      { rewrite length_skipn. unfold len. lia. }
      assert (Hsllen : len (slice text i (i + Zpos S)) = Z.min (Zpos S) (len text - i)).
      { rewrite Hsl. unfold len at 1. rewrite length_firstn, Hsklen. lia. }
      repeat split.
      * cbn [List.concat]. rewrite Hcat, Hsl.
        replace (Z.to_nat (i + Zpos S)) with (Pos.to_nat S + Z.to_nat i)%nat by lia.
        rewrite <- skipn_skipn. apply firstn_skipn.
      * constructor; [rewrite Hsllen; lia | exact Hall].
      * intros [| k] Hk; cbn [nth].
        -- f_equal; lia.
        -- cbn [List.length] in Hk. rewrite Hnth by lia. f_equal; lia.
      * intros [| k] Hk; cbn [nth]; cbn [List.length] in Hk.
        -- rewrite Hsllen.
           destruct (chunkLoop fuel text S (i + Zpos S)) eqn:Hrest;
             [cbn in Hk; lia |].
           assert (Hpos : (0 < Z.max (len text - (i + Zpos S)) 0 + Zpos S - 1)%Z).
           { destruct (Z.le_gt_cases (Z.max (len text - (i + Zpos S)) 0 + Zpos S - 1) 0)
               as [Hz | Hz]; [| lia].
             exfalso. cbn [List.length] in Hcount.
             assert (Hq : ((Z.max (len text - (i + Zpos S)) 0 + Zpos S - 1) / Zpos S = 0)%Z)
               by (apply Z.div_small; lia).
             lia. }
           assert (Hmore : (Zpos S <= Z.max (len text - (i + Zpos S)) 0 + Zpos S - 1)%Z).
           { destruct (Z.lt_ge_cases (Z.max (len text - (i + Zpos S)) 0 + Zpos S - 1) (Zpos S))
               as [Hz | Hz]; [| lia].
             exfalso. cbn [List.length] in Hcount.
             assert (Hq : ((Z.max (len text - (i + Zpos S)) 0 + Zpos S - 1) / Zpos S = 0)%Z)
               by (apply Z.div_small; lia).
             lia. }
           lia.
        -- apply Hfull. lia.
      * cbn [List.length]. rewrite Nat2Z.inj_succ, Hcount.
        destruct (Z.le_gt_cases (len text) (i + Zpos S)) as [Hend | Hmid].
        -- rewrite (Z.max_r (len text - (i + Zpos S))) by lia.
           rewrite (Z.max_l (len text - i)) by lia.
           rewrite (Z.div_small (0 + Zpos S - 1)) by lia.
           symmetry.
           assert (Hq : (len text - i + Zpos S - 1 = 1 * Zpos S + (len text - i - 1))%Z) by lia.
           rewrite Hq, Z.div_add_l by lia.
           rewrite Z.div_small by lia. lia.
        -- rewrite !Z.max_l by lia.
           replace (len text - i + Zpos S - 1)%Z
             with (1 * Zpos S + (len text - (i + Zpos S) + Zpos S - 1))%Z by lia.
           rewrite Z.div_add_l by lia. lia.
    + apply Z.ltb_ge in Hlt. cbn [List.concat List.length]. repeat split.
      * symmetry. apply skipn_all2. unfold len in Hlt. lia.
      * constructor.
      * intros k Hk. inversion Hk.
      * intros k Hk. inversion Hk.
      * rewrite Z.max_r by lia. symmetry. apply Z.div_small. lia.
Qed.

(** The fuel of [chunkText] never cuts the loop short: any larger fuel gives
    the same chunks. *)
Lemma chunkLoop_fuel (text : jsstring) (S : positive) :
  forall (fuel extra : nat) (i : Z),
    (0 <= i)%Z -> (len text - i <= Z.of_nat fuel)%Z ->
    chunkLoop (fuel + extra) text S i = chunkLoop fuel text S i.
Proof.
  induction fuel as [| fuel IH]; intros extra i Hi Hfuel.
  - destruct extra as [| extra]; [reflexivity |].
    cbn [chunkLoop Nat.add].
    assert (Hge : (i <? len text)%Z = false) by (apply Z.ltb_ge; lia).
    now rewrite Hge.
  - cbn [chunkLoop Nat.add]. destruct (i <? len text)%Z; [| reflexivity].
    f_equal. apply IH; lia.
Qed.

(** C2. For every text and every positive chunk size, [chunkText] returns
    the consecutive, non-overlapping slices [text.slice(k*S, (k+1)*S)] in
    order; their concatenation is the text; every slice has at most [S] code
    units and every slice but the last exactly [S]; equal inputs give equal
    sequences and the empty text gives the empty sequence.  The loop ends by
    itself: more turns than the length of the text change nothing. *)
Theorem chunkText_partitions (T : jsstring) (S : positive) :
  List.concat (chunkText T S) = T
  /\ (forall k, (k < List.length (chunkText T S))%nat ->
        nth k (chunkText T S) [] =
          slice T (Z.of_nat k * Zpos S) ((Z.of_nat k + 1) * Zpos S))
  /\ Forall (fun c => (len c <= Zpos S)%Z) (chunkText T S)
  /\ (forall k, (Datatypes.S k < List.length (chunkText T S))%nat ->
        len (nth k (chunkText T S) []) = Zpos S)
  /\ (forall T' S', T' = T -> S' = S -> chunkText T' S' = chunkText T S)
  /\ chunkText [] S = []
  /\ (forall extra, chunkLoop (List.length T + extra) T S 0 = chunkText T S).
Proof.
  unfold chunkText.
  destruct (@chunkLoop_spec T S (List.length T) 0%Z) as (Hcat & Hall & Hnth & Hfull & _).
  - lia.
  - unfold len. lia.
  - repeat split.
    + exact Hcat.
    + intros k Hk. rewrite Hnth by exact Hk. f_equal; lia.
    + eapply Forall_impl; [| exact Hall]. cbn. intros c Hc. lia.
    + exact Hfull.
    + intros T' S' -> ->. reflexivity.
    + intros extra. apply chunkLoop_fuel; [lia | unfold len; lia].
Qed.

End ChunkerFacts.

Module StoreFacts.
Import Chunker Gemini VectorStore IndexingSpec.

Lemma extended_nil w : extended w [] = w.
Proof. destruct w. unfold extended. cbn. now rewrite app_nil_r. Qed.

Lemma extended_app w evs evs' :
  extended (extended w evs) evs' = extended w (evs ++ evs').
Proof. unfold extended. cbn. now rewrite app_assoc. Qed.

Lemma calls_app a b : calls (a ++ b) = calls a ++ calls b.
Proof. unfold calls. apply flat_map_app. Qed.

Lemma embedded_app a b : embedded (a ++ b) = embedded a ++ embedded b.
Proof. unfold embedded. apply flat_map_app. Qed.

Lemma calls_Called ls : calls (map Called ls) = ls.
Proof.
  induction ls as [| l ls IH]; [reflexivity |].
  change (calls (map Called (l :: ls))) with (l :: calls (map Called ls)).
  now rewrite IH.
Qed.

Section WithEnv.
Variable env : Env.

Lemma embedOnce_run t w :
  embedOnce env t w =
    (match embedContent env (List.length (trace w)) t with
     | Ok (Some v) => Ok v
     | Ok None => Ok []
     | Throw e => Throw e
     end, extended w [EmbedContent t]).
Proof.
  unfold embedOnce, bind, request, ret, extended.
  destruct (embedContent env (List.length (trace w)) t) as [[v |] | e]; reflexivity.
Qed.

(** The retried embedding call only talks to the embedding backend and the
    timer, and asks the backend at least once. *)
Lemma withRetry_embed_run t :
  forall retries delay w,
  exists r evs,
    withRetry (embedOnce env t) retries delay w = (r, extended w evs)
    /\ calls evs = []
    /\ In t (embedded evs)
    /\ Forall (eq t) (embedded evs)
    /\ forallb quiet evs = true.
Proof.
  induction retries as [| retries IH]; intros delay w;
    cbn [withRetry]; unfold tryCatch; rewrite embedOnce_run;
    destruct (embedContent env (List.length (trace w)) t) as [[v |] | e].
  1-2, 4-5:
    eexists; exists [EmbedContent t]; split; [reflexivity |];
    cbn; repeat split; auto.
  - unfold throw. eexists; exists [EmbedContent t]; split; [reflexivity |].
    cbn; repeat split; auto.
  - destruct (isInternal e).
    + unfold bind, sleep, observe, request.
      match goal with
      | |- context [withRetry _ retries ?d ?w1] =>
          destruct (IH d w1) as (r & evs & Hrun & Hcalls & Hin & Hall & Hq)
      end.
      rewrite Hrun. exists r, ([EmbedContent t; Sleep delay] ++ evs).
      split.
      * f_equal. unfold extended. cbn. now rewrite <- !app_assoc.
      * rewrite calls_app, embedded_app, Hcalls. cbn. repeat split; auto.
    + unfold throw. eexists; exists [EmbedContent t]; split; [reflexivity |].
      cbn; repeat split; auto.
Qed.

(** [getEmbedding] never throws. *)
Lemma getEmbedding_run t w :
  exists e evs,
    getEmbedding env t w = (Ok e, extended w evs)
    /\ calls evs = []
    /\ In t (embedded evs)
    /\ Forall (eq t) (embedded evs)
    /\ forallb quiet evs = true.
Proof.
  unfold getEmbedding, tryCatch.
  destruct (withRetry_embed_run t 3 1000 w) as (r & evs & Hrun & Hrest).
  rewrite Hrun. destruct r as [e | err].
  - exists e, evs. split; [reflexivity | exact Hrest].
  - exists [], evs. split; [reflexivity | exact Hrest].
Qed.

Section OneDocument.
Variables source category : jsstring.

(** One turn of the loop is one step of the indexing relation. *)
Lemma addChunk_run n chunk w :
(exists w1, getEmbedding env chunk w = (Ok [], w1)
            /\ addChunk env source category n chunk w = (Ok n, w1))
\/ (exists e w1, getEmbedding env chunk w = (Ok e, w1) /\ e <> []
            /\ addChunk env source category n chunk w
               = (Ok (S n), appended env source category chunk e w1)).
Proof.
destruct (getEmbedding_run chunk w) as (e & evs & Hrun & _).
unfold addChunk, tryCatch, bind. rewrite Hrun.
destruct e as [| x e].
- left. eexists. split; reflexivity.
- right. exists (x :: e). eexists. split; [reflexivity |].
  split; [discriminate |].
  assert (Hlen : (0 <? len (x :: e))%Z = true).
  { apply Z.ltb_lt. unfold len. cbn [List.length]. lia. }
  rewrite Hlen. unfold observe, request, pushDocument, ret, appended, extended.
  cbn. rewrite (length_app (trace w ++ evs) [MathRandom]). cbn [List.length].
  rewrite Nat.add_1_r, <- (app_assoc (trace w ++ evs)). reflexivity.
Qed.

Lemma addChunks_run chunks :
forall n w,
exists oks w',
  indexes env source category w chunks oks w'
  /\ addChunks env source category n chunks w
     = (Ok (n + count_occ bool_dec oks true), w').
Proof.
induction chunks as [| chunk rest IH]; intros n w.
- exists [], w. split; [constructor |]. cbn. unfold ret. now rewrite Nat.add_0_r.
- cbn [addChunks]. unfold bind.
  destruct (addChunk_run n chunk w) as [(w1 & Hemb & Hrun) | (e & w1 & Hemb & Hne & Hrun)];
    rewrite Hrun.
  + destruct (IH n w1) as (oks & w' & Hidx & Hrest).
    exists (false :: oks), w'. split; [econstructor 2; eassumption |].
    rewrite Hrest. cbn. reflexivity.
  + destruct (IH (S n) (appended env source category chunk e w1))
      as (oks & w' & Hidx & Hrest).
    exists (true :: oks), w'. split; [econstructor 3; eassumption |].
    rewrite Hrest. cbn. f_equal. f_equal. lia.
Qed.

(** What the indexing relation leaves behind: the listeners are the same,
  no listener was called, every fragment went to the backend, and the
  corpus grew by one entry per fragment marked [true], in order. *)
Lemma indexes_effect w chunks oks w' :
indexes env source category w chunks oks w' ->
List.length oks = List.length chunks
/\ listeners w' = listeners w
/\ exists docs evs,
     documents w' = documents w ++ docs
     /\ map text docs = kept oks chunks
     /\ List.length docs = count_occ bool_dec oks true
     /\ Forall (fun d => Eff.source d = source /\ Eff.category d = category
                         /\ embedding d <> []) docs
     /\ trace w' = trace w ++ evs
     /\ calls evs = []
     /\ incl chunks (embedded evs).
Proof.
induction 1 as [w | w w1 w' chunk rest oks Hemb Hidx IH
                  | w w1 w' chunk rest e oks Hemb Hne Hidx IH].
- repeat split. exists [], []. cbn. rewrite !app_nil_r.
  repeat split; auto. intros x [].
- destruct IH as (Hlen & Hls & docs & evs & Hdocs & Htext & Hcount & Hall & Htr & Hcalls & Hincl).
  destruct (getEmbedding_run chunk w) as (e0 & evs0 & Hrun & Hc0 & Hin0 & _).
  rewrite Hrun in Hemb. inversion Hemb; subst e0 w1. clear Hemb.
  cbn [extended documents listeners trace] in *.
  split; [cbn; lia |]. split; [exact Hls |].
  exists docs, (evs0 ++ evs). cbn [kept count_occ].
  destruct (bool_dec false true) as [Hff |]; [discriminate |].
  repeat split; auto.
  + now rewrite Htr, app_assoc.
  + now rewrite calls_app, Hc0, Hcalls.
  + intros x [<- | Hx]; rewrite embedded_app; apply in_or_app; auto.
- destruct IH as (Hlen & Hls & docs & evs & Hdocs & Htext & Hcount & Hall & Htr & Hcalls & Hincl).
  destruct (getEmbedding_run chunk w) as (e0 & evs0 & Hrun & Hc0 & Hin0 & _).
  rewrite Hrun in Hemb. inversion Hemb; subst e0 w1. clear Hemb.
  cbn [appended extended documents listeners trace] in *.
  split; [cbn; lia |]. split; [exact Hls |].
  eexists (_ :: docs), (evs0 ++ [MathRandom; DateNow] ++ evs).
  cbn [kept count_occ]. destruct (bool_dec true true) as [_ | Hff]; [| congruence].
  split; [rewrite Hdocs, <- app_assoc; reflexivity |].
  split; [cbn; now rewrite Htext |].
  split; [cbn; now rewrite Hcount |].
  split; [constructor; [cbn; auto | exact Hall] |].
  split; [rewrite Htr, <- !app_assoc; reflexivity |].
  split; [rewrite !calls_app, Hc0, Hcalls; reflexivity |].
  intros x [<- | Hx]; rewrite !embedded_app; apply in_or_app; auto.
Qed.

Lemma returning_throwsAt t ls i e :
returning env t ls -> throwsAt env t ls i e -> False.
Proof.
intros Hret (_ & l & Hl & Hthrow). rewrite (Hret i l Hl) in Hthrow. discriminate.
Qed.

Lemma throwsAt_unique t ls i e j e' :
throwsAt env t ls i e -> throwsAt env t ls j e' -> j = i /\ e' = e.
Proof.
intros (Hi & l & Hl & Hthrow) (Hj & l' & Hl' & Hthrow').
destruct (Nat.lt_trichotomy i j) as [Hlt | [<- | Hgt]].
- exfalso. assert (Hnth : nth_error (firstn j ls) i = Some l)
    by (rewrite nth_error_firstn; apply Nat.ltb_lt in Hlt; now rewrite Hlt).
  rewrite (Hj i l Hnth) in Hthrow. discriminate.
- rewrite Hl in Hl'. inversion Hl'; subst l'. rewrite Hthrow in Hthrow'.
  inversion Hthrow'. auto.
- exfalso. assert (Hnth : nth_error (firstn i ls) j = Some l')
    by (rewrite nth_error_firstn; apply Nat.ltb_lt in Hgt; now rewrite Hgt).
  rewrite (Hi j l' Hnth) in Hthrow'. discriminate.
Qed.

(** The loop over the listeners: either every listener returns and each was
  called once, in order, or the loop ends with what the first throwing
  listener threw, the listeners after it not being called. *)
Lemma callAll_run ls :
forall w,
  (returning env (List.length (trace w)) ls
   /\ callAll env ls w = (Ok tt, extended w (map Called ls)))
  \/ (exists i e,
        throwsAt env (List.length (trace w)) ls i e
        /\ callAll env ls w
           = (Throw e, extended w (map Called (firstn (S i) ls)))).
Proof.
induction ls as [| l ls IH]; intros w; cbn [callAll].
- left. split; [intros [| i] l' H; discriminate H |].
  unfold ret. now rewrite extended_nil.
- unfold bind, request.
  change {| documents := documents w; listeners := listeners w;
            trace := trace w ++ [Called l] |} with (extended w [Called l]).
  destruct (callListener env (List.length (trace w)) l) as [[] | e] eqn:Hl.
  + destruct (IH (extended w [Called l]))
      as [(Hret & Hrun) | (i & e & (Hbefore & l' & Hnth & Hthrow) & Hrun)];
      rewrite Hrun, extended_app; cbn [extended trace] in *;
      rewrite length_app in *; cbn [List.length] in *.
    * left. split; [| reflexivity]. intros [| i] l' Hnth; cbn [nth_error] in Hnth.
      -- inversion Hnth; subst l'. now rewrite Nat.add_0_r.
      -- rewrite <- (Hret i l' Hnth). f_equal. lia.
    * right. exists (S i), e. split; [| reflexivity]. split.
      -- intros [| j] l'' Hj; cbn [firstn nth_error] in Hj.
         ++ inversion Hj; subst l''. now rewrite Nat.add_0_r.
         ++ rewrite <- (Hbefore j l'' Hj). f_equal. lia.
      -- exists l'. split; [exact Hnth |]. rewrite <- Hthrow. f_equal. lia.
  + right. exists 0%nat, e. split; [| reflexivity]. split.
    * intros [| j] l' Hj; discriminate Hj.
    * exists l. split; [reflexivity |]. now rewrite Nat.add_0_r.
Qed.

Lemma notify_run w :
(returning env (List.length (trace w)) (listeners w)
 /\ notify env w = (Ok tt, notified w))
\/ (exists i e,
      throwsAt env (List.length (trace w)) (listeners w) i e
      /\ notify env w
         = (Throw e, extended w (map Called (firstn (S i) (listeners w))))).
Proof. unfold notify, getListeners, bind. apply callAll_run. Qed.

(** The three ways [addDocument] ends: nothing was indexed; something was
  and every listener returned; something was and a listener threw. *)
Lemma addDocument_outcome text w :
exists oks w1,
  indexes env source category w (chunkText text 500) oks w1
  /\ ((count_occ bool_dec oks true = 0%nat
       /\ addDocument env text source category w = (Ok 0%nat, w1))
      \/ ((0 < count_occ bool_dec oks true)%nat
          /\ returning env (List.length (trace w1)) (listeners w1)
          /\ addDocument env text source category w
             = (Ok (count_occ bool_dec oks true), notified w1))
      \/ ((0 < count_occ bool_dec oks true)%nat
          /\ exists i e,
               throwsAt env (List.length (trace w1)) (listeners w1) i e
               /\ addDocument env text source category w
                  = (Throw e,
                     extended w1 (map Called (firstn (S i) (listeners w1)))))).
Proof.
destruct (addChunks_run (chunkText text 500) 0 w) as (oks & w1 & Hidx & Hrun).
exists oks, w1. split; [exact Hidx |].
unfold addDocument, bind. rewrite Hrun. cbn [Nat.add].
destruct (0 <? count_occ bool_dec oks true)%nat eqn:Hpos.
- apply Nat.ltb_lt in Hpos. right.
  destruct (notify_run w1) as [(Hret & Hn) | (i & e & Hthrow & Hn)]; rewrite Hn.
  + left. repeat split; auto.
  + right. split; [exact Hpos |]. exists i, e. split; [exact Hthrow | reflexivity].
- apply Nat.ltb_ge in Hpos. left.
  assert (Hz : count_occ bool_dec oks true = 0%nat) by lia.
  rewrite Hz. split; reflexivity.
Qed.

End OneDocument.
End WithEnv.

(** C1, as the code has it.  [addDocument] embeds every fragment of the text
    in turn, whatever happened to the earlier ones, and the corpus grows by
    exactly the fragments whose embedding came back non-empty.  When there is
    none it returns 0, throws nothing and calls no listener.  When there is
    one the listeners are called in registration order: if they all return,
    each was called once and [addDocument] returns the number of entries it
    added; if one throws, the entries stay in the corpus, the listeners after
    it are not called, and [addDocument] throws what that listener threw.
    One of the three cases always applies. *)
Theorem addDocument_counts_indexed (env : Env) (text source category : jsstring)
        (w : World) :
  exists (oks : list bool) (w1 w' : World) (r : Result nat)
         (docs : list VectorDocument) (evs : list Event),
    let chunks := chunkText text 500 in
    let n := count_occ bool_dec oks true in
    let t := List.length (trace w1) in
    indexes env source category w chunks oks w1
    /\ List.length oks = List.length chunks
    /\ addDocument env text source category w = (r, w')
    /\ documents w' = documents w ++ docs
    /\ map Eff.text docs = kept oks chunks
    /\ List.length docs = n
    /\ listeners w' = listeners w
    /\ trace w' = trace w ++ evs
    /\ incl chunks (embedded evs)
    /\ (n = 0 <-> Forall (eq false) oks)
    /\ (n = 0 -> r = Ok 0 /\ w' = w1 /\ calls evs = [])
    /\ (0 < n -> returning env t (listeners w) ->
        r = Ok n /\ w' = notified w1 /\ calls evs = listeners w)
    /\ (0 < n -> forall i e, throwsAt env t (listeners w) i e ->
        r = Throw e
        /\ w' = extended w1 (map Called (firstn (S i) (listeners w)))
        /\ calls evs = firstn (S i) (listeners w))
    /\ (n = 0 \/ returning env t (listeners w)
        \/ exists i e, throwsAt env t (listeners w) i e).
Proof.
  destruct (addDocument_outcome env source category text w)
    as (oks & w1 & Hidx & Hcases).
  destruct (indexes_effect Hidx)
    as (Hlen & Hls & docs & evs & Hdocs & Htext & Hcount & _ & Htr & Hcalls & Hincl).
  set (n := count_occ bool_dec oks true) in *.
  assert (Hzero : n = 0 <-> Forall (eq false) oks).
  { unfold n. split.
    - intros Hz. apply Forall_forall. intros [|] Hin; [| reflexivity].
      exfalso. apply (count_occ_In bool_dec) in Hin. lia.
    - intros Hall. apply count_occ_not_In. intros Hin.
      rewrite Forall_forall in Hall. specialize (Hall _ Hin). discriminate. }
  rewrite Hls in Hcases.
  destruct Hcases as [(Hn & Hrun) | [(Hn & Hret & Hrun) | (Hn & i & e & Hthrow & Hrun)]].
  - exists oks, w1, w1, (Ok 0%nat), docs, evs. cbn zeta. fold n.
    repeat split; auto; try tauto; try lia.
  - exists oks, w1, (notified w1), (Ok n), docs, (evs ++ map Called (listeners w)).
    cbn zeta. fold n. cbn [notified documents listeners trace].
    assert (Hc : calls (evs ++ map Called (listeners w)) = listeners w)
      by now rewrite calls_app, Hcalls, calls_Called.
    repeat split; auto; try tauto; try lia.
    + now rewrite Htr, Hls, app_assoc.
    + intros x Hx. rewrite embedded_app. apply in_or_app. auto.
    + exfalso. eapply returning_throwsAt; eassumption.
    + exfalso. eapply returning_throwsAt; eassumption.
    + exfalso. eapply returning_throwsAt; eassumption.
  - assert (Huniq : forall j e', throwsAt env (List.length (trace w1)) (listeners w) j e'
                                 -> j = i /\ e' = e).
    { intros j e' Hj. eapply throwsAt_unique; eassumption. }
    exists oks, w1, (extended w1 (map Called (firstn (S i) (listeners w)))), (Throw e),
      docs, (evs ++ map Called (firstn (S i) (listeners w))).
    cbn zeta. fold n. cbn [extended documents listeners trace].
    assert (Hc : calls (evs ++ map Called (firstn (S i) (listeners w)))
                 = firstn (S i) (listeners w))
      by now rewrite calls_app, Hcalls, calls_Called.
    repeat split; auto; try tauto; try lia.
    + now rewrite Htr, app_assoc.
    + intros x Hx. rewrite embedded_app. apply in_or_app. auto.
    + exfalso. eapply returning_throwsAt; eassumption.
    + exfalso. eapply returning_throwsAt; eassumption.
    + exfalso. eapply returning_throwsAt; eassumption.
    + destruct (Huniq _ _ H0) as [_ ->]. reflexivity.
    + destruct (Huniq _ _ H0) as [-> _]. reflexivity.
    + destruct (Huniq _ _ H0) as [-> _]. exact Hc.
    + right. right. exists i, e. exact Hthrow.
Qed.

(** C1 fails as stated: the fragment is embedded and stored, the first of
    two subscribers throws, and [addDocument] throws instead of returning
    the count of 1; the second subscriber is not called. *)
Lemma addDocument_rejects_after_storing :
  let w := {| documents := []; listeners := [7; 8]; trace := [] |} in
  let run := addDocument (Samples.brokenSubscriber 7) (lit "text") (lit "s") (lit "c") w in
  fst run = Throw Samples.unmounted
  /\ map Eff.text (documents (snd run)) = [lit "text"]
  /\ calls (trace (snd run)) = [7].
Proof. vm_compute. repeat split. Qed.

Section SearchFacts.
Variable env : Env.

Lemma slice_nil {A} (b e : Z) : slice (@nil A) b e = [].
Proof. unfold slice. now rewrite skipn_nil, firstn_nil. Qed.

(** [similaritySearch] never throws, touches neither the corpus nor the
    listeners, and only talks to the embedding backend. *)
Lemma similaritySearch_run query topK w :
  exists r evs,
    similaritySearch env query topK w = (Ok r, extended w evs)
    /\ getEmbedding env query w = (fst (getEmbedding env query w), extended w evs)
    /\ forallb quiet evs = true.
Proof.
  destruct (getEmbedding_run env query w) as (e & evs & Hrun & _ & _ & _ & Hq).
  unfold similaritySearch, bind. rewrite Hrun. cbn [fst].
  destruct (len e =? 0)%Z.
  - exists [], evs. repeat split; auto.
  - eexists; exists evs. unfold getDocuments, ret. repeat split; auto.
Qed.

(** How the embedding of a text comes back empty: the backend refuses the
    request with an error that is not retried, or answers without values. *)
Lemma getEmbedding_refused t w e :
  embedContent env (List.length (trace w)) t = Throw e ->
  isInternal e = false ->
  fst (getEmbedding env t w) = Ok [].
Proof.
  intros Hthrow Hint. unfold getEmbedding, tryCatch. cbn [withRetry].
  unfold tryCatch. rewrite embedOnce_run, Hthrow, Hint. reflexivity.
Qed.

Lemma getEmbedding_absent t w :
  embedContent env (List.length (trace w)) t = Ok None ->
  fst (getEmbedding env t w) = Ok [].
Proof.
  intros Hnone. unfold getEmbedding, tryCatch. cbn [withRetry].
  unfold tryCatch. rewrite embedOnce_run, Hnone. reflexivity.
Qed.

End SearchFacts.

(** C4. [similaritySearch] returns the empty sequence, and throws nothing,
    whenever the corpus is empty or the embedding of the query came back
    empty (the value [getEmbedding] gives when the embedding call failed);
    the store is left as it was. *)
Theorem similaritySearch_empty (env : Env) (query : jsstring) (topK : Z) (w : World) :
  documents w = [] \/ fst (getEmbedding env query w) = Ok [] ->
  fst (similaritySearch env query topK w) = Ok []
  /\ documents (snd (similaritySearch env query topK w)) = documents w
  /\ listeners (snd (similaritySearch env query topK w)) = listeners w.
Proof.
  intros Hempty.
  destruct (getEmbedding_run env query w) as (e & evs & Hrun & _).
  unfold similaritySearch, bind. rewrite Hrun in *. cbn [fst] in Hempty.
  destruct (len e =? 0)%Z eqn:Hlen.
  - repeat split.
  - unfold getDocuments, ret. cbn [fst snd extended documents listeners].
    repeat split.
    destruct Hempty as [Hdocs | He].
    + rewrite Hdocs. cbn. now rewrite slice_nil.
    + inversion He; subst e. discriminate Hlen.
Qed.

(** The theorem at work: a query against a store of one entry while the
    embedding backend is unreachable. *)
Lemma similaritySearch_empty_witness :
  fst (similaritySearch Samples.silent (lit "where") 3
         {| documents := [{| id := lit "a"; text := lit "t"; source := lit "s";
                             category := lit "c"; embedding := [1%float];
                             timestamp := 0 |}];
            listeners := []; trace := [] |}) = Ok [].
Proof.
  apply (@similaritySearch_empty Samples.silent (lit "where") 3).
  right. reflexivity.
Defined.

Section Subscriptions.
Import Session.

Lemma unsubscribe_run l w :
  unsubscribe l w =
    (Ok tt, {| documents := documents w;
               listeners := filter (fun l' => negb (Nat.eqb l' l)) (listeners w);
               trace := trace w |}).
Proof. reflexivity. Qed.

Lemma subscribe_run l w :
  subscribe l w =
    (Ok (unsubscribe l),
     {| documents := documents w; listeners := listeners w ++ [l];
        trace := trace w |}).
Proof. reflexivity. Qed.

Lemma filter_drops l ls :
  ~ In l (filter (fun l' => negb (Nat.eqb l' l)) ls).
Proof.
  intros Hin. apply filter_In in Hin. destruct Hin as [_ Hne].
  now rewrite Nat.eqb_refl in Hne.
Qed.

Lemma subscribe_all_listeners ls :
  forall w,
    listeners (fold_left (fun w l => snd (subscribe l w)) ls w) = listeners w ++ ls.
Proof.
  induction ls as [| l ls IH]; intros w; cbn [fold_left].
  - now rewrite app_nil_r.
  - rewrite IH, subscribe_run. cbn. now rewrite <- app_assoc.
Qed.

Variable env : Env.

(** [addDocument] leaves the listeners as they are, and the only listeners
    it calls are the registered ones. *)
Lemma addDocument_run text source category w :
  exists r w' evs,
    addDocument env text source category w = (r, w')
    /\ listeners w' = listeners w
    /\ trace w' = trace w ++ evs
    /\ incl (calls evs) (listeners w).
Proof.
  destruct (addDocument_outcome env source category text w)
    as (oks & w1 & Hidx & Hcases).
  destruct (indexes_effect Hidx)
    as (_ & Hls & docs & evs & _ & _ & _ & _ & Htr & Hcalls & _).
  destruct Hcases as [(_ & Hrun) | [(_ & _ & Hrun) | (_ & i & e & _ & Hrun)]];
    rewrite Hrun.
  - do 2 eexists. exists evs. split; [reflexivity |]. repeat split; auto.
    rewrite Hcalls. intros x [].
  - do 2 eexists. exists (evs ++ map Called (listeners w1)).
    split; [reflexivity |]. cbn [notified listeners trace].
    repeat split; auto.
    + now rewrite Htr, app_assoc.
    + rewrite calls_app, Hcalls, calls_Called, Hls. apply incl_refl.
  - do 2 eexists. exists (evs ++ map Called (firstn (S i) (listeners w1))).
    split; [reflexivity |]. cbn [extended listeners trace].
    repeat split; auto.
    + now rewrite Htr, app_assoc.
    + rewrite calls_app, Hcalls, calls_Called, Hls. cbn [app].
      intros x Hx. rewrite <- (firstn_skipn (S i) (listeners w)).
      apply in_or_app. now left.
Qed.

Lemma quiet_calls evs : forallb quiet evs = true -> calls evs = [].
Proof.
  induction evs as [| ev evs IH]; [reflexivity |].
  cbn [forallb]. intros H. apply andb_prop in H. destruct H as [Hq Hrest].
  destruct ev; try discriminate Hq; cbn; auto.
Qed.

(** One operation that does not subscribe [f] keeps [f] out of the listeners
    and calls no [f]. *)
Lemma perform_keeps_out f op w :
  subscribes f op = false ->
  ~ In f (listeners w) ->
  ~ In f (listeners (perform env op w))
  /\ exists evs, trace (perform env op w) = trace w ++ evs /\ ~ In f (calls evs).
Proof.
  intros Hop Hout. destruct op as [l | l | text source category | query topK];
    cbn [perform subscribes] in *.
  - rewrite subscribe_run. cbn [snd listeners trace]. split.
    + intros Hin. apply in_app_or in Hin. destruct Hin as [Hin | [-> | []]]; auto.
      now rewrite Nat.eqb_refl in Hop.
    + exists []. now rewrite app_nil_r.
  - rewrite unsubscribe_run. cbn [snd listeners trace]. split.
    + intros Hin. apply filter_In in Hin. tauto.
    + exists []. now rewrite app_nil_r.
  - destruct (addDocument_run text source category w)
      as (r & w' & evs & Hrun & Hls & Htr & Hcalls).
    rewrite Hrun. cbn [snd]. split; [now rewrite Hls |].
    exists evs. split; [exact Htr |]. intros Hin. apply Hout, Hcalls, Hin.
  - destruct (similaritySearch_run env query topK w) as (r & evs & Hrun & _ & Hq).
    rewrite Hrun. cbn [snd extended listeners trace]. split; [exact Hout |].
    exists evs. split; [reflexivity |]. now rewrite (quiet_calls _ Hq).
Qed.

Lemma session_keeps_out f ops :
  forall w,
    forallb (fun op => negb (subscribes f op)) ops = true ->
    ~ In f (listeners w) ->
    ~ In f (listeners (session env ops w))
    /\ exists evs, trace (session env ops w) = trace w ++ evs /\ ~ In f (calls evs).
Proof.
  induction ops as [| op ops IH]; intros w Hops Hout; cbn [session fold_left].
  - split; [exact Hout |]. exists []. now rewrite app_nil_r.
  - cbn [forallb] in Hops. apply andb_prop in Hops. destruct Hops as [Hop Hops].
    apply negb_true_iff in Hop.
    destruct (perform_keeps_out f op w Hop Hout) as (Hout1 & evs1 & Htr1 & Hc1).
    destruct (IH (perform env op w) Hops Hout1) as (Hout2 & evs2 & Htr2 & Hc2).
    split; [exact Hout2 |]. exists (evs1 ++ evs2). split.
    + unfold session in Htr2. rewrite Htr2, Htr1. now rewrite app_assoc.
    + rewrite calls_app. intros Hin. apply in_app_or in Hin. tauto.
Qed.

End Subscriptions.

(** C10. When one callback [f] is subscribed twice (other subscriptions may
    come in between), both calls of [subscribe] return the same function, and
    one call of it removes both registrations: [f] is no longer a listener,
    and as long as [f] is not subscribed again no later operation of the
    store calls it. *)
Theorem unsubscribe_removes_every_registration
        (env : Env) (f : Listener) (between : list Listener)
        (later : list Session.Op) (w : World) :
  forallb (fun op => negb (Session.subscribes f op)) later = true ->
  let w1 := snd (subscribe f w) in
  let w2 := fold_left (fun w l => snd (subscribe l w)) between w1 in
  let w3 := snd (subscribe f w2) in
  let w4 := snd (unsubscribe f w3) in
  let w5 := Session.session env later w4 in
  fst (subscribe f w) = Ok (unsubscribe f)
  /\ fst (subscribe f w2) = Ok (unsubscribe f)
  /\ (count_occ Nat.eq_dec (listeners w) f + 2
      <= count_occ Nat.eq_dec (listeners w3) f)%nat
  /\ listeners w4 = filter (fun l => negb (Nat.eqb l f)) (listeners w3)
  /\ count_occ Nat.eq_dec (listeners w4) f = 0%nat
  /\ ~ In f (listeners w5)
  /\ exists evs, trace w5 = trace w4 ++ evs /\ ~ In f (calls evs).
Proof.
  intros Hlater w1 w2 w3 w4 w5.
  assert (Hout : ~ In f (listeners w4)).
  { subst w4. rewrite unsubscribe_run. cbn [snd listeners]. apply filter_drops. }
  split; [reflexivity |]. split; [reflexivity |]. split.
  { subst w3 w2 w1. rewrite subscribe_run. cbn [snd listeners].
    rewrite subscribe_all_listeners, subscribe_run. cbn [snd listeners].
    rewrite !count_occ_app. cbn [count_occ].
    destruct (Nat.eq_dec f f) as [_ | Hne]; [| congruence].
    unfold Listener in *. lia. }
  split; [reflexivity |]. split.
  { apply count_occ_not_In. exact Hout. }
  subst w5. apply session_keeps_out; assumption.
Qed.

(** The theorem at work: [7] is subscribed, then [8], then [7] again; after
    one unsubscription a document is indexed and only [8] is called. *)
Lemma unsubscribe_removes_every_registration_witness :
  let w4 := snd (unsubscribe 7
              (snd (subscribe 7 (snd (subscribe 8 (snd (subscribe 7 Session.newStore))))))) in
  let w5 := Session.session (Samples.embedsExceptAt 99)
              [Session.DoAddDocument (lit "text") (lit "s") (lit "c")] w4 in
  listeners w4 = [8]
  /\ calls (trace w5) = [8].
Proof.
  pose proof (@unsubscribe_removes_every_registration (Samples.embedsExceptAt 99) 7 [8]
                [Session.DoAddDocument (lit "text") (lit "s") (lit "c")]
                Session.newStore eq_refl) as H.
  cbv zeta in H. destruct H as (_ & _ & _ & Hls & _).
  split; [exact Hls | reflexivity].
Defined.

Section Identifiers.
Import Session.
Variable env : Env.

Lemma drawn_app a : forall t b,
  drawn env t (a ++ b) = drawn env t a ++ drawn env (t + List.length a) b.
Proof.
  induction a as [| ev a IH]; intros t b; cbn [app drawn List.length].
  - now rewrite Nat.add_0_r.
  - destruct ev; rewrite IH, Nat.add_succ_r; reflexivity.
Qed.

Lemma quiet_drawn evs : forall t, forallb quiet evs = true -> drawn env t evs = [].
Proof.
  induction evs as [| ev evs IH]; intros t; [reflexivity |].
  cbn [forallb]. intros H. apply andb_prop in H. destruct H as [Hq Hrest].
  destruct ev; try discriminate Hq; cbn; auto.
Qed.

Lemma called_drawn ls : forall t, drawn env t (map Called ls) = [].
Proof. induction ls as [| l ls IH]; intros t; cbn; auto. Qed.

Lemma getEmbedding_ids t w :
  idsAreDraws env w -> idsAreDraws env (snd (getEmbedding env t w)).
Proof.
  intros Hinv. destruct (getEmbedding_run env t w) as (e & evs & Hrun & _ & _ & _ & Hq).
  rewrite Hrun. unfold idsAreDraws in *. cbn [snd extended documents trace].
  now rewrite drawn_app, (quiet_drawn _ _ Hq), app_nil_r.
Qed.

Lemma indexes_ids source category w chunks oks w' :
  indexes env source category w chunks oks w' -> idsAreDraws env w -> idsAreDraws env w'.
Proof.
  induction 1 as [w | w w1 w' chunk rest oks Hemb Hidx IH
                    | w w1 w' chunk rest e oks Hemb Hne Hidx IH]; intros Hinv.
  - exact Hinv.
  - apply IH. pose proof (getEmbedding_ids chunk Hinv) as H1. now rewrite Hemb in H1.
  - apply IH. pose proof (getEmbedding_ids chunk Hinv) as H1. rewrite Hemb in H1.
    cbn [snd] in H1. unfold idsAreDraws in *.
    cbn [appended documents trace]. rewrite map_app, H1, drawn_app.
    cbn [drawn map Nat.add]. now rewrite map_app.
Qed.

Lemma perform_ids op w : idsAreDraws env w -> idsAreDraws env (perform env op w).
Proof.
  intros Hinv. destruct op as [l | l | text source category | query topK];
    cbn [perform].
  - exact Hinv.
  - exact Hinv.
  - destruct (addDocument_outcome env source category text w)
      as (oks & w1 & Hidx & Hcases).
    pose proof (indexes_ids Hidx Hinv) as H1.
    destruct Hcases as [(_ & Hrun) | [(_ & _ & Hrun) | (_ & i & e & _ & Hrun)]];
      rewrite Hrun; cbn [snd].
    + exact H1.
    + unfold idsAreDraws in *. cbn [notified documents trace].
      now rewrite drawn_app, called_drawn, app_nil_r.
    + unfold idsAreDraws in *. cbn [extended documents trace].
      now rewrite drawn_app, called_drawn, app_nil_r.
  - destruct (similaritySearch_run env query topK w) as (r & evs & Hrun & _ & Hq).
    rewrite Hrun. unfold idsAreDraws in *. cbn [snd extended documents trace].
    now rewrite drawn_app, (quiet_drawn _ _ Hq), app_nil_r.
Qed.

Lemma session_ids ops : forall w, idsAreDraws env w -> idsAreDraws env (session env ops w).
Proof.
  induction ops as [| op ops IH]; intros w Hinv; cbn [session fold_left].
  - exact Hinv.
  - apply IH, perform_ids, Hinv.
Qed.

End Identifiers.

(** C9, as the code has it.  In every session of a new store the ids of the
    stored entries are, in order, what is left after the first seven code
    units of the base-36 renderings of the random numbers drawn, one draw
    per entry; so the ids are pairwise distinct exactly when those remainders
    are.  No id is compared with the ids already stored. *)
Theorem ids_are_the_draws (env : Env) (ops : list Session.Op) :
  let w := Session.session env ops Session.newStore in
  map id (documents w) = map Session.idOf (Session.drawn env 0 (trace w))
  /\ (NoDup (map id (documents w))
      <-> NoDup (map Session.idOf (Session.drawn env 0 (trace w)))).
Proof.
  cbv zeta.
  assert (H : Session.idsAreDraws env (Session.session env ops Session.newStore)).
  { apply session_ids. reflexivity. }
  unfold Session.idsAreDraws in H. split; [exact H |]. now rewrite H.
Qed.

(** C9 fails as stated: one document of two fragments, two different random
    draws ([0.i] and [0.9]), and both entries get the empty id. *)
Lemma ids_can_collide :
  let w := Session.session Samples.shortDraws
             [Session.DoAddDocument (Samples.letters 501) (lit "s") (lit "c")]
             Session.newStore in
  Session.drawn Samples.shortDraws 0 (trace w) = [lit "0.i"; lit "0.9"]
  /\ map id (documents w) = [[]; []]
  /\ ~ NoDup (map id (documents w)).
Proof.
  cbv zeta.
  assert (Hids : map id (documents
                   (Session.session Samples.shortDraws
                      [Session.DoAddDocument (Samples.letters 501) (lit "s") (lit "c")]
                      Session.newStore)) = [[]; []]) by (vm_compute; reflexivity).
  split; [vm_compute; reflexivity |]. split; [exact Hids |].
  rewrite Hids. intros Hnd. inversion Hnd as [| x l Hnotin _]; subst.
  apply Hnotin. now left.
Qed.

End StoreFacts.

Module RetryFacts.
Import Gemini IndexingSpec RetrySpec.

(** Which errors are retried. *)
Lemma isInternal_spec e :
  isInternal e = true <->
  status e = Some 500%Z \/ code e = Some 500%Z
  \/ exists m, message e = Some m /\ includes m (lit "Internal error") = true.
Proof.
  unfold isInternal. rewrite !orb_true_iff. split.
  - intros [[Hs | Hc] | Hm].
    + left. destruct (status e) as [s |]; [| discriminate].
      apply Z.eqb_eq in Hs. now subst.
    + right. left. destruct (code e) as [c |]; [| discriminate].
      apply Z.eqb_eq in Hc. now subst.
    + right. right. destruct (message e) as [m |]; [| discriminate]. eauto.
  - intros [Hs | [Hc | (m & Hm & Hinc)]].
    + left. left. now rewrite Hs.
    + left. right. now rewrite Hc.
    + right. now rewrite Hm.
Qed.

Section Policy.
Context {T : Type}.
Variable fn : M T.

Lemma withRetry_returns retries delay w v w' :
  fn w = (Ok v, w') -> withRetry fn retries delay w = (Ok v, w').
Proof.
  intros Hfn. destruct retries; cbn [withRetry]; unfold tryCatch; now rewrite Hfn.
Qed.

Lemma withRetry_raises_other retries delay w e w' :
  fn w = (Throw e, w') -> isInternal e = false ->
  withRetry fn retries delay w = (Throw e, w').
Proof.
  intros Hfn Hint. destruct retries; cbn [withRetry]; unfold tryCatch;
    rewrite Hfn; [| rewrite Hint]; reflexivity.
Qed.

Lemma withRetry_exhausted delay w : withRetry fn 0 delay w = fn w.
Proof.
  cbn [withRetry]. unfold tryCatch. destruct (fn w) as [[v | e] w']; reflexivity.
Qed.

Lemma withRetry_again retries delay w e w' :
  fn w = (Throw e, w') -> isInternal e = true ->
  withRetry fn (S retries) delay w
  = withRetry fn retries (delay * 2) (extended w' [Sleep delay]).
Proof.
  intros Hfn Hint. cbn [withRetry]. unfold tryCatch at 1. rewrite Hfn, Hint.
  reflexivity.
Qed.

Lemma attemptWorld_shift delay k : forall w,
  attemptWorld fn delay (S k) w
  = attemptWorld fn (delay * 2) k (extended (snd (fn w)) [Sleep delay]).
Proof.
  induction k as [| k IH]; intros w.
  - cbn [attemptWorld]. now rewrite Z.pow_0_r, Z.mul_1_r.
  - change (attemptWorld fn delay (S (S k)) w)
      with (extended (snd (fn (attemptWorld fn delay (S k) w)))
              [Sleep (delay * 2 ^ Z.of_nat (S k))]).
    rewrite IH. cbn [attemptWorld]. do 3 f_equal.
    rewrite Nat2Z.inj_succ, Z.pow_succ_r by lia. lia.
Qed.

Lemma withRetry_schedule retries : forall delay w n,
  (n <= retries)%nat ->
  (forall k, (k < n)%nat ->
     exists e, fst (fn (attemptWorld fn delay k w)) = Throw e /\ isInternal e = true) ->
  (n = retries \/
   forall e, fst (fn (attemptWorld fn delay n w)) = Throw e -> isInternal e = false) ->
  withRetry fn retries delay w = fn (attemptWorld fn delay n w).
Proof.
  induction retries as [| retries IH]; intros delay w n Hle Hfail Hlast.
  - assert (n = 0)%nat by lia. subst n. apply withRetry_exhausted.
  - destruct n as [| n].
    + cbn [attemptWorld] in *. destruct Hlast as [Hz | Hother]; [discriminate |].
      destruct (fn w) as [[v | e] w'] eqn:Hfn.
      * now apply withRetry_returns.
      * apply withRetry_raises_other; [exact Hfn |]. apply Hother. reflexivity.
    + destruct (Hfail 0%nat) as (e & Hthrow & Hint); [lia |].
      cbn [attemptWorld] in Hthrow.
      destruct (fn w) as [r w'] eqn:Hfn. cbn [fst] in Hthrow. subst r.
      rewrite (withRetry_again retries delay Hfn Hint), attemptWorld_shift, Hfn.
      cbn [snd]. apply IH.
      * lia.
      * intros k Hk. specialize (Hfail (S k)).
        rewrite attemptWorld_shift, Hfn in Hfail. apply Hfail. lia.
      * destruct Hlast as [Heq | Hother]; [left; lia | right].
        intros e'. rewrite attemptWorld_shift, Hfn in Hother. apply Hother.
Qed.

End Policy.

(** C8, as the code has it.  An error is retried when its status or its code
    is exactly 500 or its message contains [Internal error], and only then.
    When the first [n] attempts fail with such an error, [n] being at most
    [retries] (3 unless the caller says otherwise), the helper waits
    [delay * 2^k] after attempt [k] ([delay] is 1000 ms unless the caller says
    otherwise) and ends as attempt [n] ends, provided attempt [n] is the last
    one allowed or does not fail with such an error: its value is returned,
    its error, whatever it is, is raised. *)
Theorem withRetry_policy (T : Type) (fn : M T) (retries : nat) (delay : Z)
        (w : World) (n : nat) :
  (n <= retries)%nat ->
  (forall k, (k < n)%nat ->
     exists e, fst (fn (attemptWorld fn delay k w)) = Throw e /\ isInternal e = true) ->
  (n = retries \/
   forall e, fst (fn (attemptWorld fn delay n w)) = Throw e -> isInternal e = false) ->
  withRetry fn retries delay w = fn (attemptWorld fn delay n w)
  /\ (forall e, isInternal e = true <->
        status e = Some 500%Z \/ code e = Some 500%Z
        \/ exists m, message e = Some m /\ includes m (lit "Internal error") = true).
Proof.
  intros Hle Hfail Hlast. split.
  - now apply withRetry_schedule.
  - intros e. apply isInternal_spec.
Qed.

(** The theorem at work: two internal errors, then an answer, with waits of
    1000 and 2000 ms. *)
Lemma withRetry_policy_witness :
  withRetry (embedOnce recovers (lit "q")) 3 1000 Session.newStore
  = (Ok [1%float],
     {| documents := []; listeners := [];
        trace := [EmbedContent (lit "q"); Sleep 1000; EmbedContent (lit "q");
                  Sleep 2000; EmbedContent (lit "q")] |}).
Proof.
  refine (eq_trans
            (proj1 (@withRetry_policy _ (embedOnce recovers (lit "q")) 3 1000
                      Session.newStore 2 _ _ _)) _).
  - lia.
  - intros [| [| k]] Hk.
    + exists Samples.internal. split; reflexivity.
    + exists Samples.internal. split; reflexivity.
    + lia.
  - right. intros e He. discriminate He.
  - reflexivity.
Defined.

(** C8 fails as stated: an error of status 503, a server error of the 5xx
    class, is raised after one attempt, with no wait; and the retries of the
    knowledge fetch start at 2000 ms, not at 1000. *)
Lemma unavailable_is_not_retried :
  status Samples.unreachable = Some 503%Z
  /\ withRetry (embedOnce Samples.silent (lit "q")) 3 1000 Session.newStore
     = (Throw Samples.unreachable,
        {| documents := []; listeners := []; trace := [EmbedContent (lit "q")] |})
  /\ delays (trace (snd (Router.fetchKnowledgeFromWeb alwaysInternal (lit "topic")
                           Session.newStore)))
     = [2000; 4000; 8000]%Z.
Proof. repeat split. Qed.

End RetryFacts.

Module RouterFacts.
Import Gemini IndexingSpec Prompts Router Frame.
Import StoreFacts.

Section Emits.
Context {A B : Type}.
Variable P : Event -> Prop.

Lemma emits_ret (a : A) : emits P (ret a).
Proof. intros w. exists []. split; [symmetry; apply extended_nil | constructor]. Qed.

Lemma emits_throw (e : JsError) : emits P (@throw A e).
Proof. intros w. exists []. split; [symmetry; apply extended_nil | constructor]. Qed.

Lemma emits_request (ev : Event) (ans : nat -> Result A) :
  P ev -> emits P (request ev ans).
Proof. intros Hev w. exists [ev]. split; [reflexivity | repeat constructor; exact Hev]. Qed.

Lemma emits_bind (m : M A) (k : A -> M B) :
  emits P m -> (forall a, emits P (k a)) -> emits P (bind m k).
Proof.
  intros Hm Hk w. unfold bind. destruct (Hm w) as (evs & Hw & Hall).
  destruct (m w) as [[a | e] w1]; cbn [snd] in Hw; subst w1.
  - destruct (Hk a (extended w evs)) as (evs' & Hw' & Hall').
    exists (evs ++ evs'). rewrite Hw', extended_app. split; [reflexivity |].
    apply Forall_app. auto.
  - exists evs. auto.
Qed.

Lemma emits_tryCatch (m : M A) (h : JsError -> M A) :
  emits P m -> (forall e, emits P (h e)) -> emits P (tryCatch m h).
Proof.
  intros Hm Hh w. unfold tryCatch. destruct (Hm w) as (evs & Hw & Hall).
  destruct (m w) as [[a | e] w1]; cbn [snd] in Hw; subst w1.
  - exists evs. auto.
  - destruct (Hh e (extended w evs)) as (evs' & Hw' & Hall').
    exists (evs ++ evs'). rewrite Hw', extended_app. split; [reflexivity |].
    apply Forall_app. auto.
Qed.

End Emits.

(** Splits a computation along its binds, handlers and conditionals. *)
Ltac emits_steps :=
  repeat first
    [ apply emits_ret | apply emits_throw
    | apply emits_request; exact I
    | apply emits_bind; [| intros ?]
    | apply emits_tryCatch; [| intros ?]
    | match goal with
      | |- emits _ (if ?b then _ else _) => destruct b
      | |- emits _ (match ?x with _ => _ end) => destruct x
      end ].

Section WithEnv.
Variable env : Env.
Variable lower : jsstring -> jsstring.

Lemma generateImage_emits prompt size : emits notChat (generateImage env prompt size).
Proof. unfold generateImage, ensureApiKey. emits_steps. Qed.

Lemma generateVeoVideo_emits image prompt mime :
  emits notChat (generateVeoVideo env image prompt mime).
Proof. unfold generateVeoVideo, ensureApiKey. emits_steps. Qed.

(** The video chain opens no chat. *)
Lemma videoChain_emits query : emits notChat (videoChain env query).
Proof.
  unfold videoChain. apply emits_tryCatch; [| intros e; emits_steps].
  apply emits_bind; [apply emits_request; exact I | intros res].
  apply emits_bind; [apply generateImage_emits | intros img].
  destruct (present img); [| apply emits_ret].
  apply emits_bind; [apply generateVeoVideo_emits | intros uri]. apply emits_ret.
Qed.

Lemma relax_emits {A} (P Q : Event -> Prop) (m : M A) :
  (forall ev, P ev -> Q ev) -> emits P m -> emits Q m.
Proof.
  intros HPQ Hm w. destruct (Hm w) as (evs & Hw & Hall). exists evs.
  split; [exact Hw |]. eapply Forall_impl; [| exact Hall]. exact HPQ.
Qed.

Lemma handleCall_emits chat call state : emits anyEvent (handleCall env chat call state).
Proof.
  unfold handleCall. destruct state as [text0 image0].
  destruct (eqs (callName call) (lit "generate_image")); [| apply emits_ret].
  apply emits_tryCatch; [| intros e; emits_steps].
  apply emits_bind;
    [eapply relax_emits; [| apply generateImage_emits]; now intros | intros img].
  destruct (present img); [| apply emits_ret].
  apply emits_tryCatch; [| intros e; emits_steps].
  apply emits_bind; [apply emits_request; exact I | intros _; apply emits_ret].
Qed.

Lemma handleCalls_emits chat calls :
  forall state, emits anyEvent (handleCalls env chat calls state).
Proof.
  induction calls as [| call rest IH]; intros state; cbn [handleCalls].
  - apply emits_ret.
  - apply emits_bind; [apply handleCall_emits | exact IH].
Qed.

(** A handled computation that starts with a request has that request as
    its first event. *)
Lemma opens_with {A B} (ev : Event) (ans : nat -> Result B) (k : B -> M A)
      (h : JsError -> M A) :
  (forall b, emits anyEvent (k b)) -> (forall e, emits anyEvent (h e)) ->
  forall w, exists rest,
    trace (snd (tryCatch (bind (request ev ans) k) h w)) = trace w ++ ev :: rest.
Proof.
  intros Hk Hh w.
  assert (Hstep : tryCatch (bind (request ev ans) k) h w
                  = match ans (List.length (trace w)) with
                    | Ok b => tryCatch (k b) h (extended w [ev])
                    | Throw e => h e (extended w [ev])
                    end).
  { unfold tryCatch, bind, request, extended.
    destruct (ans (List.length (trace w))); reflexivity. }
  rewrite Hstep. destruct (ans (List.length (trace w))) as [b | e].
  - assert (Ht : emits anyEvent (tryCatch (k b) h)) by (apply emits_tryCatch; auto).
    destruct (Ht (extended w [ev])) as (evs & Hw & _).
    rewrite Hw. exists evs. cbn [extended trace]. now rewrite <- app_assoc.
  - destruct (Hh e (extended w [ev])) as (evs & Hw & _).
    rewrite Hw. exists evs. cbn [extended trace]. now rewrite <- app_assoc.
Qed.

(** The first thing [converse] does is to send the query to the chat of the
    selection. *)
Lemma converse_opens sel query chatHistory document links rag w :
  exists rest,
    trace (snd (converse env sel query chatHistory document links rag w))
    = trace w
      ++ SendMessage (chatOf sel chatHistory document rag)
           (MessageText (finalQuery query links)) :: rest.
Proof.
  set (chat := chatOf sel chatHistory document rag).
  set (q := finalQuery query links).
  assert (Hbody : forall response,
             emits anyEvent
               (bind (handleCalls env chat
                        (match functionCalls response with Some cs => cs | None => [] end)
                        (orElse (responseText response) [], None))
                  (fun s => ret {| text := fst s;
                                   sources := Some (groundingSources (groundingChunks response));
                                   generatedImage := snd s; mapData := Some [];
                                   generatedVideo := None |}))).
  { intros response. apply emits_bind; [apply handleCalls_emits | intros s; apply emits_ret]. }
  assert (Hhandler : forall error,
             emits anyEvent
               (if isPermissionError error then
                  if (0 <? len (tools chat))%Z then
                    bind (request (SendMessage (withoutTools chat) (MessageText q))
                            (fun t => sendMessage env t (withoutTools chat) (MessageText q)))
                      (fun response => ret (textOnly (orElse (responseText response) [])))
                  else throw (newError PAYMENT_REQUIRED)
                else if messageIs error PAYMENT_REQUIRED || messageIncludes error (lit "404")
                     then throw (newError PAYMENT_REQUIRED)
                     else ret (textOnly (lit "Error connecting to AI. Please try again.")))).
  { intros error. emits_steps. }
  unfold converse. fold chat. fold q. apply opens_with; assumption.
Qed.

End WithEnv.


(** C6, as the code has it.  The model and the tools of the chat are chosen
    in this order: a location keyword selects the maps model with the
    mapping tool alone, whatever the persona; otherwise the visual persona
    selects the image model with the image tool; otherwise, without a
    document, the image tool is enabled exactly when the query matches a
    creation verb followed by a media noun and web search exactly otherwise;
    otherwise there is no tool.  At most one tool is ever enabled.  The chat
    with that selection is opened unless the persona is the visual one, the
    query asks for a video and no document is attached: then the video chain
    runs instead and opens no chat, location keyword or not. *)
Theorem selection_precedence (env : Env) (lower : jsstring -> jsstring)
        (query : jsstring) (chatHistory : list Content) (document : option Document)
        (links : option (list jsstring)) (persona : ChatPersona)
        (rag custom : option jsstring) :
  let sel := intentSelection lower query document persona
               (initialSelection persona custom) in
  let undocumented := match document with None => true | Some _ => false end in
  (selectedModel sel, selectedTools sel)
  = (if isMapIntent lower query then (MAPS_MODEL, [GoogleMaps])
     else if isVisualCreator persona
     then (IMAGE_MODEL, [FunctionDeclarations [generateImageTool]])
     else if undocumented
     then (MODEL_NAME,
           if isImageRequest lower query
           then [FunctionDeclarations [generateImageTool]]
           else [GoogleSearch])
     else (MODEL_NAME, []))
  /\ (List.length (selectedTools sel) <= 1)%nat
  /\ chatHybrid env lower query chatHistory document links persona rag custom
     = bind (if isVisualCreator persona then ensureApiKey env else ret tt)
         (fun _ =>
            if isVisualCreator persona && isVideoRequest lower query && undocumented
            then videoChain env query
            else converse env sel query chatHistory document links rag)
  /\ emits notChat (videoChain env query)
  /\ (forall w, exists rest,
        trace (snd (converse env sel query chatHistory document links rag w))
        = trace w
          ++ SendMessage {| model := selectedModel sel;
                            systemInstruction := finalInstruction sel rag document;
                            tools := selectedTools sel;
                            history := apiHistory chatHistory document |}
               (MessageText (finalQuery query links)) :: rest).
Proof.
  cbv zeta. split; [| split; [| split; [| split]]].
  - unfold intentSelection, initialSelection.
    destruct (isMapIntent lower query); [reflexivity |].
    destruct document; destruct persona; cbn; try reflexivity;
      destruct (isImageRequest lower query); reflexivity.
  - unfold intentSelection, initialSelection.
    destruct (isMapIntent lower query); [cbn; lia |].
    destruct document; destruct persona; cbn; try lia;
      destruct (isImageRequest lower query); cbn; lia.
  - reflexivity.
  - apply videoChain_emits.
  - intros w. apply converse_opens.
Qed.

(** C6 fails as stated: with the visual persona, the query [draw a map of
    Paris] and no document, the chat is opened on the maps model with the
    mapping tool, not on the image model with the image tool. *)
Lemma map_intent_overrides_visual_persona :
  let query := lit "draw a map of Paris" in
  let sel := intentSelection asciiLower query None VISUAL_CREATOR
               (initialSelection VISUAL_CREATOR None) in
  isMapIntent asciiLower query = true
  /\ startsVideoChain asciiLower query None VISUAL_CREATOR = false
  /\ selectedModel sel = MAPS_MODEL
  /\ selectedTools sel = [GoogleMaps]
  /\ selectedModel sel <> IMAGE_MODEL
  /\ selectedTools sel <> [FunctionDeclarations [generateImageTool]]
  /\ flat_map (fun ev => match ev with
                         | SendMessage chat _ => [(model chat, tools chat)]
                         | _ => []
                         end)
       (trace (snd (chatHybrid refusesTools asciiLower query [] None None
                      VISUAL_CREATOR None None Session.newStore)))
     = [(MAPS_MODEL, [GoogleMaps]); (MAPS_MODEL, [])].
Proof.
  cbv zeta. repeat split; try (vm_compute; reflexivity); vm_compute; discriminate.
Qed.

(** C7 at the failing input: the default persona asks [hello], web search is
    enabled, the backend refuses the chat for lack of permission and refuses
    the retry without tools as well.  The caller gets the error of the retry
    as it is, not the condition [PAYMENT_REQUIRED]. *)
Lemma second_refusal_is_raised_as_is :
  let r := chatHybrid refusing asciiLower (lit "hello") [] None None GENERAL
             None None Session.newStore in
  fst r = Throw Samples.forbidden
  /\ fst r <> Throw (newError PAYMENT_REQUIRED)
  /\ messageIs Samples.forbidden PAYMENT_REQUIRED = false
  /\ flat_map (fun ev => match ev with
                         | SendMessage chat _ => [tools chat]
                         | _ => []
                         end) (trace (snd r))
     = [[GoogleSearch]; []].
Proof.
  cbv zeta. repeat split; try (vm_compute; reflexivity). vm_compute. discriminate.
Qed.

End RouterFacts.

Module FloatFacts.
Import FloatOrder.
Local Open Scope Z_scope.

(** On numbers, [SFcompare] is the lexicographic comparison of the keys. *)
Lemma SFcompare_lex X Y :
  numeric X = true -> numeric Y = true ->
  SFcompare X Y = Some (lex (key X) (key Y)).
Proof.
  destruct X as [sx | sx | | sx mx ex], Y as [sy | sy | | sy my ey];
    try discriminate; intros _ _; cbn.
  all: try (destruct sx; reflexivity).
  all: try (destruct sy; reflexivity).
  all: try (destruct sx, sy; reflexivity).
  destruct sx, sy; cbn; try reflexivity.
  - rewrite Z.compare_opp, (Z.compare_antisym ex ey).
    destruct (ex ?= ey); reflexivity.
Qed.

(** Facts on the number of digits. *)
Lemma digits2_bounds p :
  2 ^ (Zpos (digits2_pos p) - 1) <= Zpos p < 2 ^ Zpos (digits2_pos p).
Proof.
  induction p as [p IH | p IH |]; cbn [digits2_pos].
  - rewrite Pos2Z.inj_succ.
    replace (Z.succ (Zpos (digits2_pos p)) - 1) with (Z.succ (Zpos (digits2_pos p) - 1)) by lia.
    rewrite !Z.pow_succ_r by lia. lia.
  - rewrite Pos2Z.inj_succ.
    replace (Z.succ (Zpos (digits2_pos p)) - 1) with (Z.succ (Zpos (digits2_pos p) - 1)) by lia.
    rewrite !Z.pow_succ_r by lia. lia.
  - cbn. lia.
Qed.

(** A canonical mantissa has at most [prec] digits, exactly [prec] above the
    least exponent, and its exponent is at least [emin]. *)
Lemma canonical_facts m e :
  canonical_mantissa prec emax m e = true ->
  -1074 <= e /\ Zpos m < 2 ^ 53 /\ (-1074 < e -> 2 ^ 52 <= Zpos m).
Proof.
  unfold canonical_mantissa, fexp, SpecFloat.emin. intros H. apply Z.eqb_eq in H.
  change prec with 53 in H. change emax with 1024 in H.
  pose proof (digits2_bounds m) as [Hlo Hhi].
  assert (Hd : Zpos (digits2_pos m) <= 53) by lia.
  split; [lia |]. split.
  - eapply Z.lt_le_trans; [exact Hhi |]. apply Z.pow_le_mono_r; lia.
  - intros He. assert (Hd' : Zpos (digits2_pos m) = 53) by lia.
    rewrite Hd' in Hlo. exact Hlo.
Qed.

Lemma iter_xO m d : Zpos (Pos.iter xO m d) = Zpos m * 2 ^ Zpos d.
Proof.
  revert m. induction d using Pos.peano_ind; intros m.
  - cbn. lia.
  - rewrite Pos.iter_succ, Pos2Z.inj_succ, Z.pow_succ_r by lia.
    rewrite Pos2Z.inj_xO, IHd. lia.
Qed.

Lemma shl_align_value m e ez :
  ez <= e -> Zpos (fst (shl_align m e ez)) = Zpos m * 2 ^ (e - ez).
Proof.
  intros Hle. unfold shl_align. destruct (ez - e) as [| d | d] eqn:Hd.
  - cbn [fst]. replace (e - ez) with 0 by lia. lia.
  - lia.
  - cbn [fst]. rewrite iter_xO. f_equal. f_equal. lia.
Qed.

(** Rounding a non-zero number keeps its sign and does not give zero. *)
Lemma iter_pos_nat {A} (f : A -> A) p : forall x,
  iter_pos f p x = Nat.iter (Pos.to_nat p) f x.
Proof.
  induction p as [p IH | p IH |]; intros x; cbn [iter_pos].
  - rewrite !IH, Pos2Nat.inj_xI.
    replace (S (2 * Pos.to_nat p))%nat with (S (Pos.to_nat p + Pos.to_nat p))%nat by lia.
    now rewrite Nat.iter_succ_r, Nat.iter_add.
  - rewrite !IH, Pos2Nat.inj_xO.
    replace (2 * Pos.to_nat p)%nat with (Pos.to_nat p + Pos.to_nat p)%nat by lia.
    now rewrite Nat.iter_add.
  - reflexivity.
Qed.

Lemma shr_1_iter n : forall m r s,
  (Z.of_nat n < Zpos (digits2_pos m)) ->
  exists m', shr_m (Nat.iter n shr_1 (Build_shr_record (Zpos m) r s)) = Zpos m'.
Proof.
  induction n as [| n IH]; intros m r s Hn.
  - exists m. reflexivity.
  - rewrite Nat.iter_succ_r. destruct m as [p | p |]; cbn [shr_1].
    + apply IH. cbn [digits2_pos] in Hn. lia.
    + apply IH. cbn [digits2_pos] in Hn. lia.
    + cbn [digits2_pos] in Hn. lia.
Qed.

Lemma shr_fexp_positive m e l :
  -1074 <= e ->
  exists m', shr_m (fst (shr_fexp prec emax (Zpos m) e l)) = Zpos m'
             /\ -1074 <= snd (shr_fexp prec emax (Zpos m) e l).
Proof.
  intros He. unfold shr_fexp, shr, fexp, SpecFloat.emin, Zdigits2.
  change prec with 53. change emax with 1024.
  assert (Hrec : exists r s, shr_record_of_loc (Zpos m) l = Build_shr_record (Zpos m) r s).
  { destruct l as [| []]; cbn; eauto. }
  destruct Hrec as (r & s & ->).
  destruct (Z.max (Zpos (digits2_pos m) + e - 53) (3 - 1024 - 53) - e) as [| p | p] eqn:Hn;
    cbn [fst snd].
  - exists m. split; [reflexivity | lia].
  - rewrite iter_pos_nat.
    destruct (@shr_1_iter (Pos.to_nat p) m r s) as (m' & Hm'); [lia |].
    exists m'. split; [exact Hm' | lia].
  - exists m. split; [reflexivity | lia].
Qed.

Lemma binary_round_aux_signed s m e l :
  -1074 <= e -> signed s (binary_round_aux prec emax s (Zpos m) e l) = true.
Proof.
  intros He. unfold binary_round_aux.
  destruct (@shr_fexp_positive m e l He) as (m1 & Hm1 & He1).
  destruct (shr_fexp prec emax (Zpos m) e l) as [mrs1 e1]. cbn [fst snd] in *.
  rewrite Hm1.
  assert (Hr : exists m2, round_nearest_even (Zpos m1) (loc_of_shr_record mrs1) = Zpos m2).
  { unfold round_nearest_even.
    destruct (loc_of_shr_record mrs1) as [| []]; eauto.
    - destruct (Z.even (Zpos m1)); eauto. exists (m1 + 1)%positive. lia.
    - exists (m1 + 1)%positive. lia. }
  destruct Hr as (m2 & ->).
  destruct (@shr_fexp_positive m2 e1 loc_Exact He1) as (m3 & Hm3 & _).
  destruct (shr_fexp prec emax (Zpos m2) e1 loc_Exact) as [mrs3 e3]. cbn [fst] in Hm3.
  rewrite Hm3. destruct (e3 <=? emax - prec); cbn; apply Bool.eqb_reflx.
Qed.

Lemma binary_round_signed s m e :
  -1074 <= e -> signed s (binary_round prec emax s m e) = true.
Proof.
  intros He. unfold binary_round.
  destruct (shl_align m e (fexp prec emax (Zpos (digits2_pos m) + e))) as [mz ez] eqn:Hal.
  apply binary_round_aux_signed.
  unfold shl_align, fexp, SpecFloat.emin in Hal. change prec with 53 in Hal.
  change emax with 1024 in Hal.
  destruct (Z.max (Zpos (digits2_pos m) + e - 53) (3 - 1024 - 53) - e) eqn:Hd;
    inversion Hal; subst; lia.
Qed.

Lemma valid_finite s m e :
  valid_binary (S754_finite s m e) = true -> canonical_mantissa prec emax m e = true.
Proof. cbn. unfold bounded. intros H. now apply andb_prop in H. Qed.

Lemma pow2_ge_2 d : 1 <= d -> 2 <= 2 ^ d.
Proof.
  intros Hd. replace d with (Z.succ (d - 1)) by lia.
  rewrite Z.pow_succ_r by lia. pose proof (Z.pow_pos_nonneg 2 (d - 1)). lia.
Qed.

(** The sign of the exact difference of two canonical finite numbers is
    their comparison. *)
Lemma finite_difference sx mx ex sy my ey :
  canonical_mantissa prec emax mx ex = true ->
  canonical_mantissa prec emax my ey = true ->
  let ez := Z.min ey ex in
  let M := cond_Zopp sy (Zpos (fst (shl_align my ey ez)))
           - cond_Zopp sx (Zpos (fst (shl_align mx ex ez))) in
  SFltb (S754_finite sx mx ex) (S754_finite sy my ey) = (0 <? M).
Proof.
  intros Hx Hy ez M. subst M.
  rewrite !shl_align_value by (subst ez; lia).
  apply canonical_facts in Hx. apply canonical_facts in Hy.
  destruct Hx as (Hex & Hmx & Hnx). destruct Hy as (Hey & Hmy & Hny).
  unfold SFltb, SFcompare.
  destruct (Z.compare_spec ex ey) as [Heq | Hlt | Hgt].
  - subst ey. subst ez. rewrite Z.min_id, Z.sub_diag, Z.pow_0_r, !Z.mul_1_r.
    change (PosDef.Pos.compare_cont Eq mx my) with (mx ?= my)%positive.
    destruct sx, sy; cbn [cond_Zopp];
      destruct (Pos.compare_spec mx my) as [-> | Hm | Hm]; cbn [CompOpp];
      symmetry; first [apply Z.ltb_lt; lia | apply Z.ltb_ge; lia].
  - assert (Hz : ez = ex) by (subst ez; lia). rewrite Hz.
    rewrite Z.sub_diag, Z.pow_0_r, Z.mul_1_r.
    pose proof (@pow2_ge_2 (ey - ex) ltac:(lia)) as Hp.
    specialize (Hny ltac:(lia)).
    destruct sx, sy; cbn [cond_Zopp];
      symmetry; first [apply Z.ltb_lt; nia | apply Z.ltb_ge; nia].
  - assert (Hz : ez = ey) by (subst ez; lia). rewrite Hz.
    rewrite Z.sub_diag, Z.pow_0_r, Z.mul_1_r.
    pose proof (@pow2_ge_2 (ex - ey) ltac:(lia)) as Hp.
    specialize (Hnx ltac:(lia)).
    destruct sx, sy; cbn [cond_Zopp];
      symmetry; first [apply Z.ltb_lt; nia | apply Z.ltb_ge; nia].
Qed.

Lemma signed_positive r :
  signed false r = true -> SFltb (S754_zero false) r = true.
Proof. destruct r as [| [] | | [] m e]; cbn; congruence. Qed.

Lemma signed_negative r :
  signed true r = true -> SFltb (S754_zero false) r = false.
Proof. destruct r as [| [] | | [] m e]; cbn; congruence. Qed.

(** The sign of a difference is the comparison of its terms. *)
Lemma SFsub_sign X Y :
  numeric X = true -> numeric Y = true ->
  valid_binary X = true -> valid_binary Y = true ->
  SFltb (S754_zero false) (SF64sub Y X) = SFltb X Y.
Proof.
  intros HnX HnY HvX HvY.
  destruct X as [sx | sx | | sx mx ex]; try discriminate;
    destruct Y as [sy | sy | | sy my ey]; try discriminate.
  all: try (destruct sx, sy; reflexivity).
  all: try (destruct sx; reflexivity).
  all: try (destruct sy; reflexivity).
  apply valid_finite in HvX. apply valid_finite in HvY.
  rewrite (@finite_difference sx mx ex sy my ey HvX HvY).
  unfold SF64sub, SFsub, binary_normalize.
  apply canonical_facts in HvX. apply canonical_facts in HvY.
  destruct (cond_Zopp sy (Zpos (fst (shl_align my ey (Z.min ey ex))))
            - cond_Zopp sx (Zpos (fst (shl_align mx ex (Z.min ey ex))))) as [| p | p].
  - reflexivity.
  - apply signed_positive, binary_round_signed. lia.
  - apply signed_negative, binary_round_signed. lia.
Qed.

Lemma Prim2SF_numeric x : is_nan x = false -> numeric (Prim2SF x) = true.
Proof.
  intros H. unfold Prim2SF. rewrite H.
  destruct (is_zero x); [reflexivity |].
  destruct (is_infinity x); [reflexivity |].
  destruct (Z.frexp x) as [r e].
  destruct (shr_fexp prec emax (Uint63.to_Z (normfr_mantissa r)) (e - prec) loc_Exact)
    as [mrs e'].
  destruct (shr_m mrs); reflexivity.
Qed.

(** On numbers, the comparator [b - a] is positive exactly when [a < b]. *)
Lemma sub_sign (x y : float) :
  is_nan x = false -> is_nan y = false ->
  (0 <? y - x)%float = (x <? y)%float.
Proof.
  intros Hx Hy. rewrite !ltb_spec, sub_spec.
  change (Prim2SF 0) with (S754_zero false).
  apply SFsub_sign; auto using Prim2SF_numeric, Prim2SF_valid.
Qed.

Lemma ltb_lex (x y : float) :
  is_nan x = false -> is_nan y = false ->
  (x <? y)%float = match lex (key (Prim2SF x)) (key (Prim2SF y)) with Lt => true | _ => false end.
Proof.
  intros Hx Hy. rewrite ltb_spec. unfold SFltb.
  now rewrite SFcompare_lex by auto using Prim2SF_numeric.
Qed.

Lemma eqb_lex (x y : float) :
  is_nan x = false -> is_nan y = false ->
  (x =? y)%float = match lex (key (Prim2SF x)) (key (Prim2SF y)) with Eq => true | _ => false end.
Proof.
  intros Hx Hy. rewrite eqb_spec. unfold SFeqb.
  now rewrite SFcompare_lex by auto using Prim2SF_numeric.
Qed.

Ltac lex_cases :=
  unfold lex;
  repeat match goal with
         | p : (Z * Z * Z)%type |- _ => destruct p as [[? ?] ?]
         end;
  repeat match goal with
         | |- context [(?a ?= ?b)%Z] => destruct (Z.compare_spec a b)
         | H : context [(?a ?= ?b)%Z] |- _ => destruct (Z.compare_spec a b)
         end;
  try discriminate; try reflexivity; try lia.

Lemma lex_eq_sym a b : lex a b = Eq -> lex b a = Eq.
Proof. lex_cases. Qed.

Lemma lex_gt_lt a b : lex a b = Gt -> lex b a = Lt.
Proof. lex_cases. Qed.

Lemma lex_le_trans a b c : lex c b <> Gt -> lex b a <> Gt -> lex c a <> Gt.
Proof. lex_cases; congruence. Qed.

Lemma lex_lt_not_eq a b s : lex a b = Lt -> lex a s = Eq -> lex b s = Eq -> False.
Proof. lex_cases. Qed.

Lemma lex_antisym a b : lex a b <> Gt -> lex b a <> Gt -> lex a b = Eq.
Proof. lex_cases; congruence. Qed.

End FloatFacts.

Module RankingFacts.
Import Gemini VectorStore IndexingSpec FloatOrder RankingSpec.
Import FloatFacts StoreFacts ChunkerFacts.

Lemma leb_lex (x y : float) :
  is_nan x = false -> is_nan y = false ->
  (x <=? y)%float = match lex (key (Prim2SF x)) (key (Prim2SF y)) with Gt => false | _ => true end.
Proof.
  intros Hx Hy. rewrite leb_spec. unfold SFleb.
  rewrite SFcompare_lex by auto using Prim2SF_numeric.
  destruct (lex _ _); reflexivity.
Qed.

Lemma eqb_nan_r (x s : float) : is_nan s = true -> (x =? s)%float = false.
Proof.
  intros Hs. rewrite eqb_spec. unfold Prim2SF at 2. rewrite Hs. unfold SFeqb.
  destruct (Prim2SF x); reflexivity.
Qed.

Section Ranking.
Context {A : Type}.
Variable score : A -> float.


Lemma insert_perm a l : Permutation (insert (byScore score) a l) (a :: l).
Proof.
  induction l as [| b l IH]; cbn [insert]; [reflexivity |].
  destruct (0 <? (byScore score) a b)%float; [| reflexivity].
  rewrite IH. apply perm_swap.
Qed.

Lemma sort_perm l : Permutation (sort (byScore score) l) l.
Proof.
  induction l as [| a l IH]; cbn [sort]; [reflexivity |].
  rewrite insert_perm. now constructor.
Qed.

Lemma numbered_perm l l' : Permutation l l' -> numbered score l -> numbered score l'.
Proof. intros Hp. unfold numbered. now rewrite Hp. Qed.

Lemma insert_descending a l :
  is_nan (score a) = false -> numbered score l -> descending score l ->
  descending score (insert (byScore score) a l).
Proof.
  intros Ha Hl Hs. induction Hs as [| b l Hs IH Hb]; cbn [insert].
  - repeat constructor.
  - inversion Hl as [| ? ? Hnb Hnl]; subst.
    unfold byScore at 1. rewrite (@sub_sign _ _ Ha Hnb).
    destruct (score a <? score b)%float eqn:Hab.
    + constructor; [apply IH; assumption |].
      assert (Hin : Forall (fun x => (score x <=? score b)%float = true) (a :: l)).
      { constructor; [| exact Hb].
        rewrite leb_lex by assumption. rewrite ltb_lex in Hab by assumption.
        destruct (lex (key (Prim2SF (score a))) (key (Prim2SF (score b)))); congruence. }
      eapply Permutation_Forall; [| exact Hin]. symmetry. apply insert_perm.
    + constructor; [constructor; assumption |].
      assert (Hba : (score b <=? score a)%float = true).
      { rewrite leb_lex by assumption. rewrite ltb_lex in Hab by assumption.
        destruct (lex (key (Prim2SF (score a))) (key (Prim2SF (score b)))) eqn:Hc;
          try discriminate.
        - now rewrite (@lex_eq_sym _ _ Hc).
        - now rewrite (@lex_gt_lt _ _ Hc). }
      constructor; [exact Hba |].
      rewrite Forall_forall in *. intros c Hc. specialize (Hb c Hc). specialize (Hnl c Hc).
      cbn beta in *.
      rewrite leb_lex in * by assumption.
      pose proof (@lex_le_trans (key (Prim2SF (score a))) (key (Prim2SF (score b)))
                    (key (Prim2SF (score c)))) as Htr.
      destruct (lex (key (Prim2SF (score c))) (key (Prim2SF (score a)))); try reflexivity.
      exfalso. apply Htr; try reflexivity.
      * destruct (lex (key (Prim2SF (score c))) (key (Prim2SF (score b)))); congruence.
      * destruct (lex (key (Prim2SF (score b))) (key (Prim2SF (score a)))); congruence.
Qed.

Lemma sort_descending l : numbered score l -> descending score (sort (byScore score) l).
Proof.
  induction l as [| a l IH]; intros Hn; cbn [sort].
  - constructor.
  - inversion Hn; subst. apply insert_descending; auto.
    eapply numbered_perm; [symmetry; apply sort_perm | assumption].
Qed.

(** Stability: the entries of any one score keep their order. *)
Lemma insert_stable a l s :
  is_nan (score a) = false -> numbered score l ->
  filter (fun x => (score x =? s)%float) (insert (byScore score) a l)
  = filter (fun x => (score x =? s)%float) (a :: l).
Proof.
  intros Ha Hl. induction l as [| b l IH]; cbn [insert]; [reflexivity |].
  inversion Hl as [| ? ? Hnb Hnl]; subst.
  unfold byScore at 1. rewrite (@sub_sign _ _ Ha Hnb).
  destruct (score a <? score b)%float eqn:Hab; [| reflexivity].
  cbn [filter] in *. rewrite (IH Hnl).
  destruct (score a =? s)%float eqn:Has; [| reflexivity].
  destruct (score b =? s)%float eqn:Hbs; [| reflexivity].
  exfalso.
  destruct (is_nan s) eqn:Hs; [rewrite eqb_nan_r in Has by assumption; discriminate |].
  rewrite ltb_lex in Hab by assumption. rewrite eqb_lex in Has, Hbs by assumption.
  destruct (lex (key (Prim2SF (score a))) (key (Prim2SF (score b)))) eqn:Hc1; try discriminate.
  destruct (lex (key (Prim2SF (score a))) (key (Prim2SF s))) eqn:Hc2; try discriminate.
  destruct (lex (key (Prim2SF (score b))) (key (Prim2SF s))) eqn:Hc3; try discriminate.
  exact (@lex_lt_not_eq _ _ _ Hc1 Hc2 Hc3).
Qed.

Lemma sort_stable l s :
  numbered score l ->
  filter (fun x => (score x =? s)%float) (sort (byScore score) l)
  = filter (fun x => (score x =? s)%float) l.
Proof.
  induction l as [| a l IH]; intros Hn; cbn [sort]; [reflexivity |].
  inversion Hn; subst. rewrite insert_stable; auto.
  - cbn [filter]. now rewrite IH.
  - eapply numbered_perm; [symmetry; apply sort_perm | assumption].
Qed.

Lemma eqb_refl_number (x : float) : is_nan x = false -> (x =? x)%float = true.
Proof. unfold is_nan. now destruct (x =? x)%float. Qed.

Lemma leb_antisym (x y : float) :
  is_nan x = false -> is_nan y = false ->
  (x <=? y)%float = true -> (y <=? x)%float = true -> (x =? y)%float = true.
Proof.
  intros Hx Hy. rewrite !leb_lex, eqb_lex by assumption. intros Hxy Hyx.
  rewrite (@lex_antisym (key (Prim2SF x)) (key (Prim2SF y))); [reflexivity | |].
  - destruct (lex (key (Prim2SF x)) (key (Prim2SF y))); congruence.
  - destruct (lex (key (Prim2SF y)) (key (Prim2SF x))); congruence.
Qed.

(** The first entry of a list in descending order is first in the list of
    the entries of its score. *)
Lemma head_of_its_score a t :
  is_nan (score a) = false ->
  exists t', filter (fun x => (score x =? score a)%float) (a :: t) = a :: t'.
Proof. intros Ha. cbn [filter]. rewrite (@eqb_refl_number _ Ha). eauto. Qed.

(** Two lists in descending order that list the entries of each score in the
    same order are the same list: the order of a stable sort does not depend
    on how the sort proceeds. *)
Lemma stable_order_unique l1 : forall l2,
  numbered score l1 -> numbered score l2 ->
  descending score l1 -> descending score l2 ->
  (forall s, filter (fun x => (score x =? s)%float) l1
             = filter (fun x => (score x =? s)%float) l2) ->
  l1 = l2.
Proof.
  induction l1 as [| a t1 IH]; intros [| b t2] Hn1 Hn2 Hd1 Hd2 Hf.
  - reflexivity.
  - inversion Hn2 as [| ? ? Hb _]; subst.
    destruct (@head_of_its_score _ t2 Hb) as (t' & Ht'). specialize (Hf (score b)).
    rewrite Ht' in Hf. discriminate Hf.
  - inversion Hn1 as [| ? ? Ha _]; subst.
    destruct (@head_of_its_score _ t1 Ha) as (t' & Ht'). specialize (Hf (score a)).
    rewrite Ht' in Hf. discriminate Hf.
  - inversion Hn1 as [| ? ? Ha Hn1']; subst. inversion Hn2 as [| ? ? Hb Hn2']; subst.
    inversion Hd1 as [| ? ? Hd1' Hall1]; subst. inversion Hd2 as [| ? ? Hd2' Hall2]; subst.
    assert (Hclass : (score b =? score a)%float = true).
    { destruct (score b =? score a)%float eqn:Hba; [reflexivity | exfalso].
      assert (Hab : (score a =? score b)%float = false).
      { rewrite eqb_lex in * by assumption.
        destruct (lex (key (Prim2SF (score a))) (key (Prim2SF (score b)))) eqn:Hc;
          try reflexivity.
        now rewrite (@lex_eq_sym _ _ Hc) in Hba. }
      assert (Ha2 : In a t2).
      { pose proof (Hf (score a)) as H. cbn [filter] in H.
        rewrite (@eqb_refl_number _ Ha), Hba in H.
        assert (Hin : In a (filter (fun x => (score x =? score a)%float) t2))
          by (rewrite <- H; now left).
        now apply filter_In in Hin. }
      assert (Hb1 : In b t1).
      { pose proof (Hf (score b)) as H. cbn [filter] in H.
        rewrite (@eqb_refl_number _ Hb), Hab in H.
        assert (Hin : In b (filter (fun x => (score x =? score b)%float) t1))
          by (rewrite H; now left).
        now apply filter_In in Hin. }
      rewrite Forall_forall in Hall1, Hall2.
      pose proof (@leb_antisym _ _ Hb Ha (Hall1 b Hb1) (Hall2 a Ha2)) as Heq.
      congruence. }
    assert (Heq : a = b).
    { pose proof (Hf (score a)) as H. cbn [filter] in H.
      rewrite (@eqb_refl_number _ Ha), Hclass in H. now inversion H. }
    subst b. f_equal. apply IH; try assumption.
    intros s. specialize (Hf s). cbn [filter] in Hf.
    destruct (score a =? s)%float; [now inversion Hf | exact Hf].
Qed.

(** Whatever stable sort the engine runs, on scores that are numbers it
    returns the list of [sort]. *)
Lemma sort_unique l l' :
  numbered score l ->
  Permutation l' l -> descending score l' ->
  (forall s, filter (fun x => (score x =? s)%float) l'
             = filter (fun x => (score x =? s)%float) l) ->
  l' = sort (byScore score) l.
Proof.
  intros Hn Hp Hd Hf. apply stable_order_unique.
  - eapply numbered_perm; [symmetry; exact Hp | exact Hn].
  - eapply numbered_perm; [symmetry; apply sort_perm | exact Hn].
  - exact Hd.
  - now apply sort_descending.
  - intros s. now rewrite Hf, sort_stable.
Qed.

End Ranking.

Lemma cosine_loop (a : list float) : forall b pa pb d ma mb,
  List.length pa = List.length pb -> List.length a = List.length b ->
  fold_left
    (fun '(dotProduct, magA, magB) i =>
       ((dotProduct + at_ (pa ++ a) i * at_ (pb ++ b) i)%float,
        (magA + at_ (pa ++ a) i * at_ (pa ++ a) i)%float,
        (magB + at_ (pb ++ b) i * at_ (pb ++ b) i)%float))
    (seq (List.length pa) (List.length a)) (d, ma, mb)
  = (fold_left (fun acc p => (acc + fst p * snd p)%float) (combine a b) d,
     fold_left (fun acc p => (acc + fst p * snd p)%float) (combine a a) ma,
     fold_left (fun acc p => (acc + fst p * snd p)%float) (combine b b) mb).
Proof.
  induction a as [| x a IH]; intros b pa pb d ma mb Hp Hl.
  - destruct b; [reflexivity | discriminate].
  - destruct b as [| y b]; [discriminate |].
    cbn [List.length seq fold_left combine fst snd].
    assert (Hx : at_ (pa ++ x :: a) (List.length pa) = x) by apply nth_middle.
    assert (Hy : at_ (pb ++ y :: b) (List.length pa) = y)
      by (rewrite Hp; apply nth_middle).
    rewrite Hx, Hy.
    specialize (IH b (pa ++ [x]) (pb ++ [y])).
    rewrite !length_app in IH. cbn [List.length] in IH.
    rewrite <- !app_assoc in IH. cbn [app] in IH.
    rewrite Nat.add_1_r in IH. apply IH; [lia | now inversion Hl].
Qed.

Lemma cosineSimilarity_formula a b :
  List.length a = List.length b ->
  cosineSimilarity a b = (dot a b / (sqrt (dot a a) * sqrt (dot b b)))%float.
Proof.
  intros Hl. unfold cosineSimilarity.
  pose proof (@cosine_loop a b [] [] 0%float 0%float 0%float eq_refl Hl) as H.
  cbn [app List.length] in H. rewrite H. reflexivity.
Qed.

Lemma scored_consistent qe docs :
  Forall (fun p => snd p = scoreOf qe (fst p)) (scored qe docs).
Proof. unfold scored. apply Forall_forall. intros p Hp. apply in_map_iff in Hp.
  destruct Hp as (d & <- & _). reflexivity. Qed.

Lemma map_fst_scored qe docs : map fst (scored qe docs) = docs.
Proof. unfold scored. rewrite map_map. cbn. apply map_id. Qed.

Lemma sorted_map_fst qe (l : list (VectorDocument * float)) :
  Forall (fun p => snd p = scoreOf qe (fst p)) l ->
  descending (@snd VectorDocument float) l ->
  StronglySorted (fun a b => (scoreOf qe b <=? scoreOf qe a)%float = true) (map fst l).
Proof.
  intros Hc Hs. induction Hs as [| p l Hs IH Hp]; cbn [map]; [constructor |].
  inversion Hc as [| ? ? Hcp Hcl]; subst. constructor; [auto |].
  rewrite Forall_forall in *. intros d Hd. apply in_map_iff in Hd.
  destruct Hd as (q & <- & Hq). rewrite <- Hcp, <- (Hcl q Hq). now apply Hp.
Qed.

Lemma filter_map_fst qe s (l : list (VectorDocument * float)) :
  Forall (fun p => snd p = scoreOf qe (fst p)) l ->
  filter (fun d => (scoreOf qe d =? s)%float) (map fst l)
  = map fst (filter (fun p => (snd p =? s)%float) l).
Proof.
  induction 1 as [| p l Hp Hl IH]; [reflexivity |].
  cbn [map filter]. rewrite IH, <- Hp. destruct (snd p =? s)%float; reflexivity.
Qed.

(** C3, as the code has it.  When the embedding of the query is not empty,
    [topK] is not negative and no score is [NaN], [similaritySearch] scores
    every stored entry with [cosineSimilarity] against the embedding of the
    query and returns the first [topK] entries (all of them when there are
    fewer) of the corpus put in descending order of score, entries of equal
    score keeping their insertion order; a repeated call on the same corpus
    with the same embedding of the query returns the same sequence.  For an
    entry of the dimension of the query the score is
    [dot(a, b) / (sqrt(dot(a, a)) * sqrt(dot(b, b)))] in binary64.  The order
    returned is the only descending order of the corpus that keeps the
    insertion order of the entries of equal score, so it does not depend on
    how the engine sorts. *)
Theorem similaritySearch_ranks (env : Env) (query : jsstring) (topK : Z)
        (w w1 : World) (qe : list float) :
  getEmbedding env query w = (Ok qe, w1) ->
  qe <> [] ->
  (0 <= topK)%Z ->
  Forall (fun d => is_nan (scoreOf qe d) = false) (documents w) ->
  let ranked := ranking qe (documents w) in
  similaritySearch env query topK w = (Ok (firstn (Z.to_nat topK) ranked), w1)
  /\ Permutation ranked (documents w)
  /\ StronglySorted (fun a b => (scoreOf qe b <=? scoreOf qe a)%float = true) ranked
  /\ (forall s, filter (fun d => (scoreOf qe d =? s)%float) ranked
                = filter (fun d => (scoreOf qe d =? s)%float) (documents w))
  /\ List.length (firstn (Z.to_nat topK) ranked)
     = Nat.min (Z.to_nat topK) (List.length (documents w))
  /\ (forall w', documents w' = documents w ->
        fst (getEmbedding env query w') = Ok qe ->
        fst (similaritySearch env query topK w')
        = fst (similaritySearch env query topK w))
  /\ (forall d, List.length (embedding d) = List.length qe ->
        scoreOf qe d
        = (dot qe (embedding d)
           / (sqrt (dot qe qe) * sqrt (dot (embedding d) (embedding d))))%float)
  /\ (forall l',
        Permutation l' (documents w) ->
        StronglySorted (fun a b => (scoreOf qe b <=? scoreOf qe a)%float = true) l' ->
        (forall s, filter (fun d => (scoreOf qe d =? s)%float) l'
                   = filter (fun d => (scoreOf qe d =? s)%float) (documents w)) ->
        l' = ranked).
Proof.
  intros Hemb Hqe Htop Hnum ranked.
  assert (Hsearch : forall w0 w0', getEmbedding env query w0 = (Ok qe, w0') ->
            similaritySearch env query topK w0
            = (Ok (firstn (Z.to_nat topK) (ranking qe (documents w0))), w0')).
  { intros w0 w0' H0. unfold similaritySearch, bind. rewrite H0.
    destruct qe as [| x qe']; [congruence |].
    assert (Hlen : (len (x :: qe') =? 0)%Z = false).
    { apply Z.eqb_neq. unfold len. cbn [List.length]. lia. }
    rewrite Hlen. unfold getDocuments, ret.
    destruct (getEmbedding_run env query w0) as (e & evs & Hrun & _).
    rewrite Hrun in H0. inversion H0; subst. cbn [extended documents].
    f_equal. f_equal. unfold ranking, scored.
    rewrite slice_firstn_skipn by (pose proof (len_nonneg
      (sort (fun a b => (snd b - snd a)%float)
         (map (fun doc => (doc, cosineSimilarity (x :: qe') (embedding doc))) (documents w0))));
      lia).
    rewrite Z.sub_0_r. cbn [Z.to_nat skipn]. symmetry. apply firstn_map. }
  assert (Hperm : Permutation ranked (documents w)).
  { unfold ranked, ranking. rewrite <- (@map_fst_scored qe (documents w)) at 2.
    apply Permutation_map, sort_perm. }
  assert (Hnumbered : numbered snd (scored qe (documents w))).
  { unfold numbered, scored. rewrite Forall_map. exact Hnum. }
  assert (Hcons : Forall (fun p => snd p = scoreOf qe (fst p))
                    (sort (byScore snd) (scored qe (documents w)))).
  { eapply Permutation_Forall; [symmetry; apply sort_perm | apply scored_consistent]. }
  split; [now apply Hsearch |]. split; [exact Hperm |]. split.
  { apply sorted_map_fst; [exact Hcons |]. now apply sort_descending. }
  split.
  { intros s. unfold ranked, ranking. change (fun a b => (snd b - snd a)%float)
      with (byScore (@snd VectorDocument float)).
    rewrite (@filter_map_fst qe s _ Hcons), sort_stable by exact Hnumbered.
    rewrite <- (@filter_map_fst qe s) by apply scored_consistent.
    now rewrite map_fst_scored. }
  split.
  { rewrite length_firstn. f_equal. now apply Permutation_length. }
  split.
  { intros w' Hdocs Hemb'.
    destruct (getEmbedding env query w') as [r w2] eqn:Hrun'. cbn [fst] in Hemb'. subst r.
    rewrite (Hsearch w' w2 Hrun'), (Hsearch w w1 Hemb). cbn [fst]. now rewrite Hdocs. }
  split.
  { intros d Hd. unfold scoreOf. apply cosineSimilarity_formula. now symmetry. }
  intros l' Hp' Hs' Hf'.
  assert (Hranked : StronglySorted
            (fun a b => (scoreOf qe b <=? scoreOf qe a)%float = true) ranked).
  { apply sorted_map_fst; [exact Hcons |]. now apply sort_descending. }
  assert (Hstable : forall s,
            filter (fun d => (scoreOf qe d =? s)%float) ranked
            = filter (fun d => (scoreOf qe d =? s)%float) (documents w)).
  { intros s. unfold ranked, ranking. change (fun a b => (snd b - snd a)%float)
      with (byScore (@snd VectorDocument float)).
    rewrite (@filter_map_fst qe s _ Hcons), sort_stable by exact Hnumbered.
    rewrite <- (@filter_map_fst qe s) by apply scored_consistent.
    now rewrite map_fst_scored. }
  apply (@stable_order_unique _ (scoreOf qe)).
  - eapply numbered_perm; [symmetry; exact Hp' | exact Hnum].
  - eapply numbered_perm; [symmetry; exact Hperm | exact Hnum].
  - exact Hs'.
  - exact Hranked.
  - intros s. now rewrite Hf', Hstable.
Qed.

(** The theorem at work: four entries, two of them with the same score; the
    best three come back, the entries of equal score in insertion order. *)
Lemma similaritySearch_ranks_witness :
  fst (similaritySearch unitQuery (lit "q") 3 (store [back; half; full; twin]))
  = Ok [full; half; twin].
Proof.
  pose proof (@similaritySearch_ranks unitQuery (lit "q") 3
                (store [back; half; full; twin])
                (extended (store [back; half; full; twin]) [EmbedContent (lit "q")])
                [1%float; 0%float] eq_refl) as H.
  destruct H as (Hrun & _).
  - discriminate.
  - lia.
  - repeat constructor.
  - rewrite Hrun. reflexivity.
Defined.

(** C3 fails as stated.  With an entry of zero magnitude in the corpus, or
    with an entry of fewer dimensions than the query, the entry of score
    0.707 comes back before the entry of score 1; and with [topK = -1] three
    entries of four come back. *)
Lemma nan_breaks_ranking :
  fst (similaritySearch unitQuery (lit "q") 3 (store [half; zero; full]))
  = Ok [half; zero; full]
  /\ (scoreOf [1%float; 0%float] half <? scoreOf [1%float; 0%float] full)%float = true
  /\ is_nan (scoreOf [1%float; 0%float] zero) = true
  /\ fst (similaritySearch unitQuery (lit "q") 3 (store [half; short; full]))
     = Ok [half; short; full]
  /\ is_nan (scoreOf [1%float; 0%float] short) = true
  /\ fst (similaritySearch unitQuery (lit "q") (-1) (store [back; half; full; twin]))
     = Ok [full; half; twin].
Proof. repeat split. Qed.

(** C5 at the failing input: against a vector of zero magnitude the score is
    [NaN], not 0, whichever side the zero vector is on, and the entry is
    ranked with that score. *)
Lemma zero_magnitude_scores_nan :
  is_nan (cosineSimilarity [0%float; 0%float] [1%float; 0%float]) = true
  /\ is_nan (cosineSimilarity [1%float; 0%float] [0%float; 0%float]) = true
  /\ is_nan (cosineSimilarity [0%float; 0%float] [0%float; 0%float]) = true
  /\ (cosineSimilarity [1%float; 0%float] [0%float; 0%float] =? 0)%float = false
  /\ map snd (scored [1%float; 0%float] [half; zero; full])
     = [0x1.6a09e667f3bccp-1%float; nan; 1%float].
Proof. repeat split. Qed.

End RankingFacts.

Module StatsFacts.
Import VectorStore Stats RankingSpec.

Lemma eqs_spec a : forall b, eqs a b = true <-> a = b.
Proof.
  induction a as [| x a IH]; intros [| y b]; cbn; split; try congruence.
  - intros H. apply andb_prop in H. destruct H as [Hx Hr].
    apply N.eqb_eq in Hx. apply IH in Hr. now subst.
  - intros H. inversion H; subst. rewrite N.eqb_refl. now apply IH.
Qed.

Lemma eqs_refl a : eqs a a = true.
Proof. now apply eqs_spec. Qed.

Lemma existsb_eqs c seen : existsb (eqs c) seen = true <-> In c seen.
Proof.
  rewrite existsb_exists. split.
  - intros (d & Hin & Heq). apply eqs_spec in Heq. now subst.
  - intros Hin. exists c. split; [exact Hin | apply eqs_refl].
Qed.

(** The loop of the set, started with [seen], adds the first occurrences
    that are not in [seen]. *)
Lemma setOf_from l : forall seen,
  fold_left (fun seen c => if existsb (eqs c) seen then seen else seen ++ [c]) l seen
  = seen ++ filter (fun d => negb (existsb (eqs d) seen)) (firstSeen l).
Proof.
  induction l as [| c l IH]; intros seen; cbn [fold_left firstSeen filter].
  - now rewrite app_nil_r.
  - destruct (existsb (eqs c) seen) eqn:Hc; cbn [negb].
    + rewrite IH. f_equal. clear IH.
      induction (firstSeen l) as [| d ds IHd]; [reflexivity |].
      cbn [filter]. destruct (eqs d c) eqn:Hdc; cbn [negb].
      * apply eqs_spec in Hdc. subst d. now rewrite Hc.
      * cbn [filter]. now rewrite IHd.
    + rewrite IH, <- app_assoc. cbn [app]. do 2 f_equal. clear IH.
      induction (firstSeen l) as [| d ds IHd]; [reflexivity |].
      cbn [filter]. rewrite existsb_app. cbn [existsb]. rewrite orb_false_r.
      rewrite negb_orb, IHd.
      destruct (eqs d c); cbn [negb filter];
        destruct (existsb (eqs d) seen); reflexivity.
Qed.

Lemma firstSeen_In l : forall c, In c (firstSeen l) <-> In c l.
Proof.
  induction l as [| d l IH]; intros c; cbn [firstSeen]; [tauto |].
  cbn [In]. rewrite filter_In, IH, negb_true_iff. split.
  - tauto.
  - intros [-> | Hin]; [now left |].
    destruct (eqs c d) eqn:Hcd; [left; symmetry; now apply eqs_spec | now right].
Qed.

Lemma firstSeen_NoDup l : NoDup (firstSeen l).
Proof.
  induction l as [| d l IH]; cbn [firstSeen]; constructor.
  - rewrite filter_In, eqs_refl. cbn. intros [_ H]. discriminate.
  - now apply NoDup_filter.
Qed.

(** The statistics of the store: the number of entries, and the categories
    in the order in which they were first seen, each once. *)
Theorem getStats_categories (w : World) :
  exists stats,
    getStats w = (Ok stats, w)
    /\ totalDocuments stats = len (documents w)
    /\ categories stats = firstSeen (map category (documents w))
    /\ NoDup (categories stats)
    /\ (forall c, In c (categories stats) <-> In c (map category (documents w))).
Proof.
  eexists. split; [reflexivity |]. cbn [totalDocuments categories].
  assert (Hset : setOf (map category (documents w))
                 = firstSeen (map category (documents w))).
  { unfold setOf. rewrite setOf_from. cbn [app existsb negb].
    induction (firstSeen (map category (documents w))) as [| d ds IH]; [reflexivity |].
    cbn [filter]. now rewrite IH. }
  rewrite Hset. repeat split.
  - apply firstSeen_NoDup.
  - apply firstSeen_In.
  - apply firstSeen_In.
Qed.

(** Documents indexed in the categories A, B, A: the categories are A, B. *)
Lemma categories_scenario :
  let categorised c := {| id := []; text := []; source := []; category := c;
                          embedding := [1%float]; timestamp := 0 |} in
  fst (getStats (store [categorised (lit "A"); categorised (lit "B");
                        categorised (lit "A")]))
  = Ok {| totalDocuments := 3; categories := [lit "A"; lit "B"] |}.
Proof. reflexivity. Qed.

End StatsFacts.

Module Scenarios.
Import Chunker Gemini VectorStore IndexingSpec Prompts Router Frame RankingSpec.

(** A document of 1200 characters is cut into fragments of 500, 500 and 200
    characters; when the embedding of the second fragment fails,
    [addDocument] returns 2 and the corpus grows by the first and the third
    fragment. *)
Lemma partial_failure_scenario :
  let run := addDocument (Samples.embedsExceptAt 3) (Samples.letters 1200)
               (lit "notes") (lit "User Custom") Session.newStore in
  map (@List.length codeunit) (chunkText (Samples.letters 1200) 500) = [500; 500; 200]
  /\ fst run = Ok 2
  /\ map (fun d => List.length (Eff.text d)) (documents (snd run)) = [500; 200]
  /\ embedded (trace (snd run))
     = [Samples.letters 500; Samples.letters 500; Samples.letters 200].
Proof. cbv zeta. repeat split; vm_compute; reflexivity. Qed.

(** [getEmbedding] never throws: whatever the backend does, the caller gets
    an array, and the store is as before. *)
Theorem getEmbedding_never_throws (env : Env) (text : jsstring) (w : World) :
  exists e w',
    getEmbedding env text w = (Ok e, w')
    /\ documents w' = documents w /\ listeners w' = listeners w.
Proof.
  destruct (StoreFacts.getEmbedding_run env text w) as (e & evs & Hrun & _).
  exists e, (extended w evs). repeat split. exact Hrun.
Qed.

(** Four internal errors in a row: [getEmbedding] waits 1000, 2000 and 4000
    ms between the attempts, gives up, and returns the empty embedding; the
    search of the query then returns nothing. *)
Lemma embedding_exhausts_retries :
  getEmbedding RetrySpec.alwaysInternal (lit "q") (store [full])
  = (Ok [],
     extended (store [full])
       [EmbedContent (lit "q"); Sleep 1000; EmbedContent (lit "q"); Sleep 2000;
        EmbedContent (lit "q"); Sleep 4000; EmbedContent (lit "q")])
  /\ fst (similaritySearch RetrySpec.alwaysInternal (lit "q") 3 (store [full])) = Ok [].
Proof. split; reflexivity. Qed.

(** The query [Where is the Eiffel Tower?] of the default persona selects the
    maps model and the mapping tool, not web search. *)
Lemma where_is_selects_maps :
  let sel := intentSelection asciiLower (lit "Where is the Eiffel Tower?") None GENERAL
               (initialSelection GENERAL None) in
  selectedModel sel = MAPS_MODEL /\ selectedTools sel = [GoogleMaps].
Proof. cbv zeta. split; vm_compute; reflexivity. Qed.

(** The query [generate an image of a cat] of the default persona, with no
    document, selects the image tool, not web search. *)
Lemma image_request_selects_image_tool :
  let sel := intentSelection asciiLower (lit "generate an image of a cat") None GENERAL
               (initialSelection GENERAL None) in
  selectedModel sel = MODEL_NAME
  /\ selectedTools sel = [FunctionDeclarations [generateImageTool]].
Proof. cbv zeta. split; vm_compute; reflexivity. Qed.

(** A chat with tools that is refused for lack of permission and answered
    without its tools: the caller gets the plain answer. *)
Lemma tools_refused_then_answered :
  let run := chatHybrid refusesTools asciiLower (lit "hello") [] None None GENERAL
               None None Session.newStore in
  fst run = Ok (textOnly (lit "plain answer"))
  /\ flat_map (fun ev => match ev with
                         | SendMessage chat _ => [tools chat]
                         | _ => []
                         end) (trace (snd run))
     = [[GoogleSearch]; []].
Proof. cbv zeta. split; vm_compute; reflexivity. Qed.

(** The comparator of the ranking: on two scores that are numbers,
    [b.score - a.score] is positive exactly when [a.score < b.score]. *)
Theorem comparator_sign (a b : VectorDocument * float) :
  is_nan (snd a) = false -> is_nan (snd b) = false ->
  (0 <? byScore snd a b)%float = (snd a <? snd b)%float.
Proof. intros Ha Hb. unfold byScore. now apply FloatFacts.sub_sign. Qed.

Lemma comparator_sign_witness :
  (0 <? byScore snd (half, 0.5%float) (full, 1%float))%float = true.
Proof.
  rewrite (@comparator_sign (half, 0.5%float) (full, 1%float) eq_refl eq_refl).
  reflexivity.
Defined.


End Scenarios.

Module CosineFacts.
Import VectorStore RankingSpec FloatOrder Invariants.

(** Multiplication does not depend on the order of its operands. *)
Lemma mul_comm (x y : float) : (x * y)%float = (y * x)%float.
Proof.
  apply Prim2SF_inj. rewrite !mul_spec.
  destruct (Prim2SF x) as [sx|sx| |sx mx ex], (Prim2SF y) as [sy|sy| |sy my ey];
    cbn; try rewrite (xorb_comm sx sy); try reflexivity.
  now rewrite Pos.mul_comm, Z.add_comm.
Qed.

Lemma dot_comm (a : list float) : forall b acc,
  fold_left (fun acc p => (acc + fst p * snd p)%float) (combine a b) acc
  = fold_left (fun acc p => (acc + fst p * snd p)%float) (combine b a) acc.
Proof.
  induction a as [|x a IH]; intros [|y b] acc; cbn; try reflexivity.
  rewrite (mul_comm x y). apply IH.
Qed.

Lemma is_nan_spec (x : float) : is_nan x = true <-> Prim2SF x = S754_nan.
Proof.
  split.
  - intros H. destruct (Prim2SF x) eqn:E; try reflexivity; exfalso;
      assert (N : is_nan x = false)
        by (unfold is_nan; rewrite eqb_spec, E; unfold SFeqb; cbn;
            repeat match goal with
                   | |- context [match ?s with true => _ | false => _ end] => destruct s
                   end; cbn; try reflexivity;
            rewrite ?Z.compare_refl, ?Pos.compare_refl, ?Pos.compare_cont_refl; cbn;
            rewrite ?Pos.compare_refl; reflexivity);
      congruence.
  - intros E. unfold is_nan. now rewrite eqb_spec, E.
Qed.

Lemma is_zero_spec (x : float) :
  is_zero x = true -> exists s, Prim2SF x = S754_zero s.
Proof.
  unfold is_zero. rewrite eqb_spec. change (Prim2SF PrimFloat.zero) with (S754_zero false).
  destruct (Prim2SF x) as [s|s| |s m e]; unfold SFeqb; cbn.
  - eauto.
  - destruct s; discriminate.
  - discriminate.
  - destruct s; discriminate.
Qed.

Lemma void_mul_r X Y : void Y = true -> void (SF64mul X Y) = true.
Proof. destruct X as [| | |], Y as [| | |]; cbn; intros; try discriminate; reflexivity. Qed.

Lemma void_mul_l X Y : void X = true -> void (SF64mul X Y) = true.
Proof. destruct X as [| | |], Y as [| | |]; cbn; intros; try discriminate; reflexivity. Qed.

Lemma void_add X Y : void X = true -> void Y = true -> void (SF64add X Y) = true.
Proof.
  destruct X as [[]| | |], Y as [[]| | |]; cbn; intros; try discriminate; reflexivity.
Qed.

Lemma void_sqrt X : void X = true -> void (SF64sqrt X) = true.
Proof. destruct X as [| | |]; cbn; intros; try discriminate; reflexivity. Qed.

Lemma void_div X Y : void X = true -> void Y = true -> SF64div X Y = S754_nan.
Proof. destruct X as [| | |], Y as [| | |]; cbn; intros; try discriminate; reflexivity. Qed.

Lemma nan_add_l X Y : X = S754_nan -> SF64add X Y = S754_nan.
Proof. intros ->. reflexivity. Qed.

Lemma nan_add_r X Y : Y = S754_nan -> SF64add X Y = S754_nan.
Proof. intros ->. destruct X; reflexivity. Qed.

Lemma nan_mul_r X Y : Y = S754_nan -> SF64mul X Y = S754_nan.
Proof. intros ->. destruct X; reflexivity. Qed.


(** One turn of the loop of [cosineSimilarity]. *)
Lemma cosineSimilarity_fold (a b : list float) :
  cosineSimilarity a b
  = (let '(d, ma, mb) :=
       fold_left (fun (acc : float * float * float) i =>
                    ((fst (fst acc) + at_ a i * at_ b i)%float,
                     (snd (fst acc) + at_ a i * at_ a i)%float,
                     (snd acc + at_ b i * at_ b i)%float))
         (seq 0 (List.length a)) (0%float, 0%float, 0%float) in
     (d / (sqrt ma * sqrt mb))%float).
Proof.
  unfold cosineSimilarity.
  assert (E : forall l acc,
             fold_left
               (fun '(dotProduct, magA, magB) i =>
                  ((dotProduct + at_ a i * at_ b i)%float,
                   (magA + at_ a i * at_ a i)%float,
                   (magB + at_ b i * at_ b i)%float)) l acc
             = fold_left (fun (acc : float * float * float) i =>
                            ((fst (fst acc) + at_ a i * at_ b i)%float,
                             (snd (fst acc) + at_ a i * at_ a i)%float,
                             (snd acc + at_ b i * at_ b i)%float)) l acc).
  { induction l as [|i l IH]; intros [[d ma] mb]; cbn; [reflexivity | apply IH]. }
  now rewrite E.
Qed.

Lemma fold_left_ext_in {A B} (f g : A -> B -> A) (l : list B) :
  (forall acc i, In i l -> f acc i = g acc i) ->
  forall acc, fold_left f l acc = fold_left g l acc.
Proof.
  induction l as [|i l IH]; intros H acc; cbn; [reflexivity|].
  rewrite H by now left. apply IH. intros; apply H; now right.
Qed.

Lemma fold_left_invariant {A B} (P : A -> Prop) (f : A -> B -> A) (l : list B) :
  (forall acc i, P acc -> P (f acc i)) ->
  forall acc, P acc -> P (fold_left f l acc).
Proof.
  intros H. induction l as [|i l IH]; intros acc Hacc; cbn; [assumption|].
  apply IH, H, Hacc.
Qed.

Lemma at_void (b : list float) :
  Forall (fun x => is_zero x = true) b -> forall i, void (Prim2SF (at_ b i)) = true.
Proof.
  intros Hb i. unfold at_. destruct (nth_in_or_default i b nan) as [Hin | ->].
  - rewrite Forall_forall in Hb. destruct (@is_zero_spec _ (Hb _ Hin)) as [s ->]. reflexivity.
  - reflexivity.
Qed.

(** The score does not depend on which vector is the query. *)
Theorem cosineSimilarity_symmetric (a b : list float) :
  List.length a = List.length b ->
  cosineSimilarity a b = cosineSimilarity b a.
Proof.
  intros H.
  rewrite (RankingFacts.cosineSimilarity_formula a b H).
  rewrite (RankingFacts.cosineSimilarity_formula b a (eq_sym H)).
  unfold dot. rewrite (dot_comm a b).
  now rewrite (mul_comm (sqrt _) (sqrt _)).
Qed.

Lemma cosineSimilarity_symmetric_witness :
  cosineSimilarity [1%float; 2%float] [3%float; 4%float]
  = cosineSimilarity [3%float; 4%float] [1%float; 2%float].
Proof. apply cosineSimilarity_symmetric. reflexivity. Defined.

Lemma cosineSimilarity_tail (a b extra : list float) :
  (List.length a <= List.length b)%nat ->
  cosineSimilarity a (b ++ extra) = cosineSimilarity a b.
Proof.
  intros H. rewrite !cosineSimilarity_fold.
  rewrite (@fold_left_ext_in _ _ _
             (fun (acc : float * float * float) i =>
                ((fst (fst acc) + at_ a i * at_ b i)%float,
                 (snd (fst acc) + at_ a i * at_ a i)%float,
                 (snd acc + at_ b i * at_ b i)%float))); [reflexivity|].
  intros acc i Hi. apply in_seq in Hi. unfold at_.
  rewrite (app_nth1 b extra nan) by lia. reflexivity.
Qed.

Lemma cosineSimilarity_short (a b : list float) :
  (List.length b < List.length a)%nat ->
  is_nan (cosineSimilarity a b) = true.
Proof.
  intros H. rewrite cosineSimilarity_fold.
  set (f := fun (acc : float * float * float) i =>
              ((fst (fst acc) + at_ a i * at_ b i)%float,
               (snd (fst acc) + at_ a i * at_ a i)%float,
               (snd acc + at_ b i * at_ b i)%float)).
  assert (Hseq : seq 0 (List.length a)
                 = seq 0 (List.length b)
                   ++ List.length b :: seq (S (List.length b))
                                         (List.length a - S (List.length b))).
  { replace (List.length a)
      with (List.length b + S (List.length a - S (List.length b)))%nat at 1 by lia.
    rewrite seq_app. reflexivity. }
  rewrite Hseq, fold_left_app. cbn [fold_left].
  set (acc0 := fold_left f (seq 0 (List.length b)) (0%float, 0%float, 0%float)).
  assert (Hstep : Prim2SF (fst (fst (f acc0 (List.length b)))) = S754_nan).
  { unfold f; cbn [fst snd]. rewrite add_spec, mul_spec.
    apply nan_add_r, nan_mul_r. unfold at_. now rewrite nth_overflow by lia. }
  assert (Hend : Prim2SF (fst (fst (fold_left f
                    (seq (S (List.length b)) (List.length a - S (List.length b)))
                    (f acc0 (List.length b))))) = S754_nan).
  { apply (@fold_left_invariant _ _ (fun acc => Prim2SF (fst (fst acc)) = S754_nan));
      [|exact Hstep].
    intros acc i Hacc. unfold f; cbn [fst snd]. rewrite add_spec. now apply nan_add_l. }
  destruct (fold_left f _ (f acc0 _)) as [[d ma] mb]. cbn [fst snd] in Hend.
  apply is_nan_spec. rewrite div_spec, Hend. reflexivity.
Qed.

(** Vectors of different lengths: the loop runs over the indices of the
    first vector, so a second vector that is shorter is scored [NaN], and
    the components of a longer one past the length of the first are never
    read. *)
Theorem cosineSimilarity_lengths (a b extra : list float) :
  ((List.length b < List.length a)%nat -> is_nan (cosineSimilarity a b) = true)
  /\ ((List.length a <= List.length b)%nat ->
      cosineSimilarity a (b ++ extra) = cosineSimilarity a b).
Proof.
  split.
  - apply cosineSimilarity_short.
  - apply cosineSimilarity_tail.
Qed.

(** A vector whose components are all zero is scored [NaN] against every
    vector. *)
Theorem cosineSimilarity_zero_is_nan (a b : list float) :
  Forall (fun x => is_zero x = true) a \/ Forall (fun x => is_zero x = true) b ->
  is_nan (cosineSimilarity a b) = true.
Proof.
  intros H. rewrite cosineSimilarity_fold.
  set (f := fun (acc : float * float * float) i =>
              ((fst (fst acc) + at_ a i * at_ b i)%float,
               (snd (fst acc) + at_ a i * at_ a i)%float,
               (snd acc + at_ b i * at_ b i)%float)).
  apply is_nan_spec.
  destruct H as [Ha | Hb].
  - assert (Hinv : (fun acc => void (Prim2SF (fst (fst acc))) = true
                               /\ void (Prim2SF (snd (fst acc))) = true)
                     (fold_left f (seq 0 (List.length a)) (0%float, 0%float, 0%float))).
    { apply fold_left_invariant; [|split; reflexivity].
      intros acc i [Hd Hm]. unfold f; cbn [fst snd].
      rewrite !add_spec, !mul_spec. split.
      - apply void_add; [assumption|]. apply void_mul_l, at_void, Ha.
      - apply void_add; [assumption|]. apply void_mul_l, at_void, Ha. }
    destruct (fold_left f _ _) as [[d ma] mb]. cbn [fst snd] in Hinv.
    destruct Hinv as [Hd Hm].
    rewrite div_spec, mul_spec, !sqrt_spec.
    apply void_div; [assumption|]. apply void_mul_l, void_sqrt, Hm.
  - assert (Hinv : (fun acc => void (Prim2SF (fst (fst acc))) = true
                               /\ void (Prim2SF (snd acc)) = true)
                     (fold_left f (seq 0 (List.length a)) (0%float, 0%float, 0%float))).
    { apply fold_left_invariant; [|split; reflexivity].
      intros acc i [Hd Hm]. unfold f; cbn [fst snd].
      rewrite !add_spec, !mul_spec. split.
      - apply void_add; [assumption|]. apply void_mul_r, at_void, Hb.
      - apply void_add; [assumption|]. apply void_mul_r, at_void, Hb. }
    destruct (fold_left f _ _) as [[d ma] mb]. cbn [fst snd] in Hinv.
    destruct Hinv as [Hd Hm].
    rewrite div_spec, mul_spec, !sqrt_spec.
    apply void_div; [assumption|]. apply void_mul_r, void_sqrt, Hm.
Qed.

Lemma cosineSimilarity_zero_is_nan_witness :
  is_nan (cosineSimilarity [3%float; 4%float] [0%float; (-0)%float]) = true.
Proof.
  apply cosineSimilarity_zero_is_nan. right.
  repeat constructor.
Defined.

End CosineFacts.

Module CorpusFacts.
Import Chunker Gemini VectorStore IndexingSpec Session Stats Invariants StoreFacts.

(** The chunker yields [ceil(n / S)] fragments, none of them empty. *)
Theorem chunkText_count (T : jsstring) (S : positive) :
  Z.of_nat (List.length (chunkText T S)) = ((len T + Zpos S - 1) / Zpos S)%Z
  /\ Forall (fun c => c <> []) (chunkText T S)
  /\ (chunkText T S = [] <-> T = []).
Proof.
  assert (H0 : (0 <= 0)%Z) by lia.
  assert (Hf : (len T - 0 <= Z.of_nat (List.length T))%Z) by (unfold len; lia).
  destruct (ChunkerFacts.chunkLoop_spec T S (List.length T) H0 Hf)
    as (Hcat & Hlen & _ & _ & Hn).
  fold (chunkText T S) in *.
  split; [|split].
  - rewrite Hn. f_equal. pose proof (ChunkerFacts.len_nonneg T). lia.
  - eapply Forall_impl; [|exact Hlen]. intros c Hc ->. unfold len in Hc. cbn in Hc. lia.
  - split.
    + intros E. rewrite E in Hcat. cbn in Hcat. now rewrite <- Hcat.
    + intros ->. reflexivity.
Qed.

(** [similaritySearch] never throws, leaves the store as it is, and returns
    stored entries only, none more often than it is stored, at most [topK]
    of them. *)
Theorem similaritySearch_sound (env : Env) (query : jsstring) (topK : Z) (w : World) :
  exists r w' rest,
    similaritySearch env query topK w = (Ok r, w')
    /\ documents w' = documents w
    /\ listeners w' = listeners w
    /\ Permutation (r ++ rest) (documents w)
    /\ ((0 <= topK)%Z -> (len r <= topK)%Z).
Proof.
  destruct (getEmbedding_run env query w) as (e & evs & Hrun & _).
  unfold similaritySearch, bind. rewrite Hrun.
  destruct (len e =? 0)%Z.
  - exists [], (extended w evs), (documents w). cbn. repeat split; auto.
  - unfold getDocuments, ret. cbn [documents extended].
    set (sorted := sort _ _).
    assert (Hperm : Permutation (map fst sorted) (documents w)).
    { unfold sorted.
      rewrite (Permutation_map fst
                 (RankingFacts.sort_perm (@snd VectorDocument float) _)).
      rewrite map_map. cbn. rewrite map_id. apply Permutation_refl. }
    assert (Hfrom : relIndex (len sorted) 0 = 0%Z).
    { unfold relIndex. cbn. pose proof (ChunkerFacts.len_nonneg sorted). lia. }
    unfold slice. rewrite Hfrom. cbn [Z.to_nat skipn]. rewrite Z.sub_0_r.
    set (k := Z.to_nat (relIndex (len sorted) topK)).
    exists (map fst (firstn k sorted)), (extended w evs), (map fst (skipn k sorted)).
    repeat split; auto.
    + now rewrite <- map_app, firstn_skipn.
    + intros Hk. unfold len. rewrite length_map, length_firstn.
      unfold k, relIndex.
      pose proof (ChunkerFacts.len_nonneg sorted).
      destruct (topK <? 0)%Z eqn:E; [apply Z.ltb_lt in E; lia|].
      lia.
Qed.

(** Subscribing a function that is not yet subscribed and calling what
    [subscribe] returned leaves the store as it was. *)
Theorem subscribe_then_unsubscribe (f : Listener) (w : World) :
  ~ In f (listeners w) ->
  bind (subscribe f) (fun unsubscribe => unsubscribe) w = (Ok tt, w).
Proof.
  intros Hf. unfold bind. rewrite subscribe_run, unsubscribe_run.
  cbn [documents listeners trace]. f_equal.
  destruct w as [docs ls tr]. cbn in *. f_equal.
  rewrite filter_app. cbn. rewrite Nat.eqb_refl. cbn. rewrite app_nil_r.
  induction ls as [|l ls IH]; [reflexivity|].
  cbn. destruct (Nat.eqb l f) eqn:E.
  - apply Nat.eqb_eq in E. exfalso. apply Hf. now left.
  - cbn. f_equal. apply IH. intros H. apply Hf. now right.
Qed.

Lemma subscribe_then_unsubscribe_witness :
  bind (subscribe 7) (fun unsubscribe => unsubscribe)
    {| documents := []; listeners := [3; 5]; trace := [] |}
  = (Ok tt, {| documents := []; listeners := [3; 5]; trace := [] |}).
Proof.
  apply subscribe_then_unsubscribe. cbn. intros [H | [H | []]]; discriminate.
Defined.


Lemma kept_incl oks : forall chunks c, In c (kept oks chunks) -> In c chunks.
Proof.
  induction oks as [|[|] oks IH]; intros [|c' chunks] c; cbn; try tauto.
  - intros [-> | H]; [now left | right; now apply IH].
  - intros H. right. now apply IH.
Qed.

(** What [addDocument] appends: entries for fragments of the text, under
    the given source and category; as many as it counts when it returns; at
    least one when it throws, which it does only with what a listener
    threw. *)
Lemma addDocument_appends env text source category w :
  exists r w' docs evs,
    addDocument env text source category w = (r, w')
    /\ documents w' = documents w ++ docs
    /\ listeners w' = listeners w
    /\ trace w' = trace w ++ evs
    /\ Forall (fun d => wellFormed d /\ Eff.source d = source
                        /\ Eff.category d = category) docs
    /\ match r with
       | Ok n => List.length docs = n
       | Throw e =>
           docs <> []
           /\ exists t l, In l (listeners w) /\ callListener env t l = Throw e
       end.
Proof.
  destruct (addDocument_outcome env source category text w)
    as (oks & w1 & Hidx & Hcases).
  destruct (indexes_effect Hidx)
    as (_ & Hls & docs & evs & Hdocs & Htext & Hlen & Hall & Htr & _ & _).
  assert (Hwf : Forall (fun d => wellFormed d /\ Eff.source d = source
                                 /\ Eff.category d = category) docs).
  { rewrite Forall_forall in *. intros d Hd.
    destruct (Hall d Hd) as (Hs & Hc & He).
    assert (Hin : In (Eff.text d) (chunkText text 500)).
    { apply (@kept_incl oks). rewrite <- Htext. now apply in_map. }
    assert (H0 : (0 <= 0)%Z) by lia.
    assert (Hf : (len text - 0 <= Z.of_nat (List.length text))%Z) by (unfold len; lia).
    destruct (ChunkerFacts.chunkLoop_spec text 500 (List.length text) H0 Hf)
      as (_ & Hb & _).
    rewrite Forall_forall in Hb. specialize (Hb _ Hin).
    repeat split; auto; apply Hb. }
  destruct Hcases as [(Hn & Hrun) | [(Hn & _ & Hrun) | (Hn & i & e & Hthrow & Hrun)]];
    rewrite Hrun.
  - do 2 eexists. exists docs, evs. split; [reflexivity |].
    repeat split; auto. now rewrite Hlen.
  - do 2 eexists. exists docs, (evs ++ map Called (listeners w1)).
    split; [reflexivity |]. cbn [notified documents listeners trace].
    repeat split; auto. now rewrite Htr, app_assoc.
  - do 2 eexists. exists docs, (evs ++ map Called (firstn (S i) (listeners w1))).
    split; [reflexivity |]. cbn [extended documents listeners trace].
    repeat split; auto.
    + now rewrite Htr, app_assoc.
    + intros ->. cbn in Hlen. lia.
    + destruct Hthrow as (_ & l & Hnth & Hl).
      exists (List.length (trace w1) + i)%nat, l. split; [| exact Hl].
      rewrite <- Hls. eapply nth_error_In. exact Hnth.
Qed.

Section Sessions.
Variable env : Env.

Lemma perform_appends op w :
  exists docs, documents (perform env op w) = documents w ++ docs
               /\ Forall wellFormed docs.
Proof.
  destruct op as [l | l | text source category | query topK]; cbn [perform].
  - rewrite subscribe_run. exists []. cbn. now rewrite app_nil_r.
  - rewrite unsubscribe_run. exists []. cbn. now rewrite app_nil_r.
  - destruct (addDocument_appends env text source category w)
      as (r & w' & docs & evs & Hrun & Hdocs & _ & _ & Hall & _).
    rewrite Hrun. exists docs. split; [assumption|].
    eapply Forall_impl; [|exact Hall]. now intros d [H _].
  - destruct (similaritySearch_run env query topK w) as (r & evs & Hrun & _).
    rewrite Hrun. exists []. cbn. now rewrite app_nil_r.
Qed.

End Sessions.

(** Whatever the clients of the store do, the corpus only grows at its end,
    and every entry that is added is a non-empty fragment of at most 500
    code units with a non-empty embedding. *)
Theorem session_appends (env : Env) (ops : list Op) (w : World) :
  exists docs,
    documents (session env ops w) = documents w ++ docs
    /\ Forall wellFormed docs.
Proof.
  revert w. induction ops as [|op ops IH]; intros w.
  - exists []. cbn. now rewrite app_nil_r.
  - cbn [session fold_left]. fold (session env ops (perform env op w)).
    destruct (IH (perform env op w)) as (docs2 & H2 & F2).
    destruct (perform_appends env op w) as (docs1 & H1 & F1).
    exists (docs1 ++ docs2). rewrite H2, H1, app_assoc. split; [reflexivity|].
    apply Forall_app. now split.
Qed.


Lemma setOf_In l c : In c (setOf l) <-> In c l.
Proof.
  unfold setOf. rewrite StatsFacts.setOf_from. cbn.
  rewrite filter_In. rewrite StatsFacts.firstSeen_In. cbn. tauto.
Qed.

(** [getStats] after [addDocument] counts exactly the entries that were
    stored, and the categories are the earlier ones and, when an entry was
    stored, the category of the document.  When [addDocument] returns, the
    number it returns is the number of entries stored.  It throws only what
    a listener threw, and then at least one entry was stored, and is
    counted, all the same. *)
Theorem addDocument_updates_stats (env : Env) (text source category : jsstring)
        (w : World) :
  exists r w' docs before after,
    addDocument env text source category w = (r, w')
    /\ documents w' = documents w ++ docs
    /\ getStats w = (Ok before, w)
    /\ getStats w' = (Ok after, w')
    /\ totalDocuments after = (totalDocuments before + len docs)%Z
    /\ (forall c, In c (categories after)
                  <-> In c (categories before) \/ (c = category /\ docs <> []))
    /\ match r with
       | Ok n => List.length docs = n
       | Throw e =>
           docs <> []
           /\ exists t l, In l (listeners w) /\ callListener env t l = Throw e
       end.
Proof.
  destruct (addDocument_appends env text source category w)
    as (r & w' & docs & evs & Hrun & Hdocs & _ & _ & Hall & Hr).
  exists r, w', docs. do 2 eexists. split; [exact Hrun|]. split; [exact Hdocs|].
  unfold getStats, bind, getDocuments, ret.
  split; [reflexivity|]. split; [reflexivity|].
  cbn [totalDocuments categories]. split; [| split; [| exact Hr]].
  - rewrite Hdocs. unfold len. rewrite length_app. lia.
  - intros c. rewrite !setOf_In, Hdocs, map_app, in_app_iff.
    split.
    + intros [H | H]; [now left | right].
      apply in_map_iff in H. destruct H as (d & <- & Hd).
      rewrite Forall_forall in Hall. destruct (Hall d Hd) as (_ & _ & Hc).
      split; [assumption|]. intros ->. destruct Hd.
    + intros [H | [-> Hn]]; [now left | right].
      destruct docs as [|d docs]; [congruence|].
      apply Forall_inv in Hall. destruct Hall as (_ & _ & Hc). cbn. left. exact Hc.
Qed.


Lemma delays_app a b : delays (a ++ b) = delays a ++ delays b.
Proof. unfold delays. apply flat_map_app. Qed.

Lemma notSleep_delays evs : Forall notSleep evs -> delays evs = [].
Proof.
  induction 1 as [|ev evs Hev _ IH]; [reflexivity|].
  destruct ev; cbn in *; try contradiction; exact IH.
Qed.

Lemma withRetry_trace {T} (P : Event -> Prop) (fn : M T) (retries : nat) :
  Frame.emits P fn -> (forall ev, P ev -> notSleep ev) ->
  forall delay w, exists evs n,
    snd (withRetry fn retries delay w) = extended w evs
    /\ (n <= retries)%nat
    /\ delays evs = waits delay n
    /\ Forall (fun ev => P ev \/ exists d, ev = Sleep d) evs.
Proof.
  intros Hfn HP. induction retries as [|r IH]; intros delay w.
  - destruct (Hfn w) as (evs & Hw & Hq). exists evs, 0%nat.
    rewrite RetryFacts.withRetry_exhausted, Hw. repeat split; auto.
    + apply notSleep_delays. eapply Forall_impl; [|exact Hq]. exact HP.
    + eapply Forall_impl; [|exact Hq]. now left.
  - destruct (Hfn w) as (evs & Hw & Hq).
    assert (Hd0 : delays evs = []).
    { apply notSleep_delays. eapply Forall_impl; [|exact Hq]. exact HP. }
    assert (Hq' : Forall (fun ev => P ev \/ exists d, ev = Sleep d) evs).
    { eapply Forall_impl; [|exact Hq]. now left. }
    destruct (fn w) as [[v | e] w1] eqn:Hrun; cbn [snd] in Hw.
    + exists evs, 0%nat. rewrite (RetryFacts.withRetry_returns fn (S r) delay w Hrun).
      cbn [snd]. repeat split; auto; lia.
    + destruct (isInternal e) eqn:Hint.
      * rewrite (RetryFacts.withRetry_again fn r delay w Hrun Hint).
        destruct (IH (delay * 2)%Z (extended w1 [Sleep delay]))
          as (evs' & n & Hw' & Hn & Hd & Hall).
        exists (evs ++ Sleep delay :: evs'), (S n).
        rewrite Hw', Hw, !extended_app. repeat split; [lia| |].
        -- rewrite delays_app, Hd0.
           change (delays (Sleep delay :: evs')) with (delay :: delays evs').
           now rewrite Hd.
        -- apply Forall_app. split; [assumption|]. constructor; [right; eauto | assumption].
      * exists evs, 0%nat.
        rewrite (RetryFacts.withRetry_raises_other fn (S r) delay w Hrun Hint).
        cbn [snd]. repeat split; auto; lia.
Qed.

(** For a wrapped call that leaves the store alone and does not wait
    itself, [withRetry] waits at most [retries] times, for [delay], then
    twice as long each time. *)
Theorem withRetry_waits (T : Type) (fn : M T) (retries : nat) (delay : Z) :
  Frame.emits notSleep fn ->
  forall w, exists evs n,
    snd (withRetry fn retries delay w) = extended w evs
    /\ (n <= retries)%nat
    /\ delays evs = waits delay n.
Proof.
  intros Hfn w.
  destruct (@withRetry_trace T notSleep fn retries Hfn (fun ev H => H) delay w)
    as (evs & n & Hw & Hn & Hd & _).
  eauto.
Qed.

Lemma withRetry_waits_witness :
  exists evs n,
    snd (withRetry (embedOnce RetrySpec.recovers (lit "q")) 3 1000 newStore)
    = extended newStore evs
    /\ (n <= 3)%nat
    /\ delays evs = waits 1000 n.
Proof.
  apply withRetry_waits.
  intros w. exists [EmbedContent (lit "q")]. rewrite embedOnce_run.
  split; [reflexivity | repeat constructor].
Defined.

Lemma withRetry_embed_attempts env t retries : forall delay w,
  exists r n,
    withRetry (embedOnce env t) retries delay w = (r, extended w (attempts t delay n))
    /\ (n <= retries)%nat.
Proof.
  induction retries as [|k IH]; intros delay w.
  - rewrite RetryFacts.withRetry_exhausted, embedOnce_run. eexists. exists 0%nat.
    split; [reflexivity | lia].
  - pose proof (embedOnce_run env t w) as Hrun.
    destruct (embedContent env (List.length (trace w)) t) as [[v |] | e].
    + exists (Ok v), 0%nat. rewrite (RetryFacts.withRetry_returns _ (S k) delay w Hrun).
      split; [reflexivity | lia].
    + exists (Ok []), 0%nat. rewrite (RetryFacts.withRetry_returns _ (S k) delay w Hrun).
      split; [reflexivity | lia].
    + destruct (isInternal e) eqn:Hint.
      * rewrite (RetryFacts.withRetry_again _ k delay w Hrun Hint).
        destruct (IH (delay * 2)%Z (extended (extended w [EmbedContent t]) [Sleep delay]))
          as (r & n & Hr & Hn).
        exists r, (S n). rewrite Hr, !extended_app. split; [reflexivity | lia].
      * exists (Throw e), 0%nat.
        rewrite (RetryFacts.withRetry_raises_other _ (S k) delay w Hrun Hint).
        split; [reflexivity | lia].
Qed.

(** [getEmbedding] never throws and asks the backend at most four times,
    always for the same text, waiting 1000, 2000 and 4000 ms in between. *)
Theorem getEmbedding_attempts (env : Env) (t : jsstring) (w : World) :
  exists e n,
    getEmbedding env t w = (Ok e, extended w (attempts t 1000 n))
    /\ (n <= 3)%nat
    /\ embedded (attempts t 1000 n) = repeat t (S n)
    /\ delays (attempts t 1000 n) = firstn n [1000; 2000; 4000]%Z.
Proof.
  destruct (withRetry_embed_attempts env t 3 1000 w) as (r & n & Hr & Hn).
  unfold getEmbedding, tryCatch. rewrite Hr.
  exists (match r with Ok v => v | Throw _ => [] end), n.
  split; [destruct r; reflexivity|]. split; [assumption|].
  destruct n as [|[|[|[|n]]]]; try lia; split; reflexivity.
Qed.

End CorpusFacts.

Module RoutingFacts.
Import Gemini Prompts Router IndexingSpec Frame Invariants RouterSpec StoreFacts RouterFacts.




(** Every source that is shown has a link and a title. *)
Theorem groundingSources_complete (chunks : option (list GroundingChunk)) :
  Forall (fun s => sourceUri s <> [] /\ sourceTitle s <> [])
    (groundingSources chunks)
  /\ (List.length (groundingSources chunks)
      <= 2 * match chunks with Some cs => List.length cs | None => 0 end)%nat.
Proof.
  assert (Href : forall r fallback, fallback <> [] ->
            Forall (fun s => sourceUri s <> [] /\ sourceTitle s <> [])
              (referenceSource r fallback)
            /\ (List.length (referenceSource r fallback) <= 1)%nat).
  { intros [[u t] |] fallback Hf; cbn; [| split; [constructor | lia]].
    destruct u as [[|c u] |]; cbn; [split; [constructor | lia] | | split; [constructor | lia]].
    split; [| lia]. constructor; [| constructor]. cbn. split; [discriminate |].
    destruct t as [[|c' t] |]; cbn; auto; discriminate. }
  destruct chunks as [cs |]; cbn [groundingSources]; [| split; [constructor | cbn; lia]].
  induction cs as [|chunk cs [IH1 IH2]]; cbn [flat_map]; [split; [constructor | cbn; lia]|].
  destruct (Href (web chunk) (lit "Web Source")) as [W1 W2]; [discriminate|].
  destruct (Href (maps chunk) (lit "Map Location")) as [M1 M2]; [discriminate|].
  split.
  - repeat (apply Forall_app; split); assumption.
  - rewrite !length_app. cbn [List.length]. lia.
Qed.

Section WithEnv.
Variable env : Env.
Variable lower : jsstring -> jsstring.

Lemma generateImage_router prompt size : emits routerEvent (generateImage env prompt size).
Proof. unfold generateImage, ensureApiKey. emits_steps. Qed.

Lemma generateVeoVideo_router image prompt mime :
  emits routerEvent (generateVeoVideo env image prompt mime).
Proof. unfold generateVeoVideo, ensureApiKey. emits_steps. Qed.

Lemma videoChain_router query : emits routerEvent (videoChain env query).
Proof.
  unfold videoChain. apply emits_tryCatch; [| intros e; emits_steps].
  apply emits_bind; [apply emits_request; exact I | intros res].
  apply emits_bind; [apply generateImage_router | intros img].
  destruct (present img); [| apply emits_ret].
  apply emits_bind; [apply generateVeoVideo_router | intros uri]. apply emits_ret.
Qed.

Lemma handleCall_router chat call state : emits routerEvent (handleCall env chat call state).
Proof.
  unfold handleCall. destruct state as [text0 image0].
  destruct (eqs (callName call) (lit "generate_image")); [| apply emits_ret].
  apply emits_tryCatch; [| intros e; emits_steps].
  apply emits_bind; [apply generateImage_router | intros img].
  destruct (present img); [| apply emits_ret].
  apply emits_tryCatch; [| intros e; emits_steps].
  apply emits_bind; [apply emits_request; exact I | intros _; apply emits_ret].
Qed.

Lemma handleCalls_router chat calls :
  forall state, emits routerEvent (handleCalls env chat calls state).
Proof.
  induction calls as [| call rest IH]; intros state; cbn [handleCalls].
  - apply emits_ret.
  - apply emits_bind; [apply handleCall_router | exact IH].
Qed.

Lemma converse_router sel query chatHistory document links rag :
  emits routerEvent (converse env sel query chatHistory document links rag).
Proof.
  unfold converse. apply emits_tryCatch; [| intros e; emits_steps].
  apply emits_bind; [apply emits_request; exact I | intros response].
  apply emits_bind; [apply handleCalls_router | intros s; apply emits_ret].
Qed.

Lemma chatHybrid_router query chatHistory document links persona rag custom :
  emits routerEvent
    (chatHybrid env lower query chatHistory document links persona rag custom).
Proof.
  unfold chatHybrid. apply emits_bind.
  - destruct (isVisualCreator persona); [apply emits_request; exact I | apply emits_ret].
  - intros _. destruct (startsVideoChain lower query document persona).
    + apply videoChain_router.
    + apply converse_router.
Qed.

End WithEnv.

(** [chatHybrid] leaves the corpus and the listeners as they are, and asks
    nothing of the embedding backend, the scraper or the clock: it calls no
    listener and does not go through the retry helper. *)
Theorem chatHybrid_frame (env : Env) (lower : jsstring -> jsstring) (query : jsstring)
        (chatHistory : list Content) (document : option Document)
        (links : option (list jsstring)) (persona : ChatPersona)
        (rag custom : option jsstring) (w : World) :
  exists evs,
    snd (chatHybrid env lower query chatHistory document links persona rag custom w)
    = extended w evs
    /\ Forall routerEvent evs
    /\ embedded evs = [] /\ calls evs = [] /\ delays evs = [].
Proof.
  destruct (chatHybrid_router env lower query chatHistory document links persona
              rag custom w) as (evs & Hw & Hall).
  exists evs. split; [exact Hw|]. split; [exact Hall|].
  clear Hw. induction Hall as [|ev evs Hev _ (IH1 & IH2 & IH3)]; [repeat split|].
  destruct ev; cbn in Hev; try contradiction; repeat split; assumption.
Qed.


Section Errors.
Variable env : Env.
Variable lower : jsstring -> jsstring.



End Errors.




Section Fetch.
Variable env : Env.

Lemma executeFetch_emits topic : emits researchEvent (executeFetch env topic).
Proof.
  unfold executeFetch. apply emits_tryCatch.
  - apply emits_bind; [apply emits_request; cbn; auto | intros t; apply emits_ret].
  - intros e. destruct (hasStatus e 403 || messageIncludes e (lit "PERMISSION_DENIED")).
    + apply emits_bind; [apply emits_request; cbn; auto | intros t; apply emits_ret].
    + apply emits_throw.
Qed.

(** The fallback of [fetchKnowledgeFromWeb]: the retried research. *)
Lemma research_run (topic : jsstring) (w1 : World) :
  exists r evs n,
    tryCatch (withRetry (executeFetch env topic) 3 2000) (fun _ => ret []) w1
    = (Ok r, extended w1 evs)
    /\ Forall (fun ev => researchEvent ev \/ exists d, ev = Sleep d) evs
    /\ (n <= 3)%nat
    /\ delays evs = firstn n [2000; 4000; 8000]%Z.
Proof.
  assert (HP : forall ev, researchEvent ev -> notSleep ev)
    by (intros []; cbn; tauto).
  destruct (CorpusFacts.withRetry_trace 3 (executeFetch_emits topic) HP 2000 w1)
    as (evs & n & Hw & Hn & Hd & Hall).
  unfold tryCatch.
  destruct (withRetry (executeFetch env topic) 3 2000 w1) as [[r | e] w2];
    cbn [snd] in Hw; subst w2.
  - exists r, evs, n. repeat split; auto.
    rewrite Hd. destruct n as [|[|[|[|n]]]]; try lia; reflexivity.
  - exists [], evs, n. repeat split; auto.
    rewrite Hd. destruct n as [|[|[|[|n]]]]; try lia; reflexivity.
Qed.

Lemma fetchKnowledgeFromWeb_returns (topic : jsstring) (w : World) :
  exists r evs, fetchKnowledgeFromWeb env topic w = (Ok r, extended w evs).
Proof.
  unfold fetchKnowledgeFromWeb, bind, tryCatch, request.
  set (w1 := {| documents := documents w; listeners := listeners w;
                trace := trace w ++ [Scrape topic] |}).
  destruct (research_run topic w1) as (r & evs & n & Hrun & _).
  assert (Hw : extended w1 evs = extended w (Scrape topic :: evs)).
  { unfold w1, extended. cbn. now rewrite <- app_assoc. }
  unfold tryCatch in Hrun. rewrite Hw in Hrun.
  destruct (scrape env (List.length (trace w)) topic) as [[[|c0 c] |] | e];
    cbn [present truthy].
  - exists r, (Scrape topic :: evs). exact Hrun.
  - exists (c0 :: c), [Scrape topic]. reflexivity.
  - exists r, (Scrape topic :: evs). exact Hrun.
  - exists r, (Scrape topic :: evs). exact Hrun.
Qed.

End Fetch.


Section Video.
Variable env : Env.

Lemma generateImage_run prompt size w :
  generateImage env prompt size w
  = match ensureKey env (List.length (trace w)) with
    | Ok _ =>
        match imageContent env (List.length (trace w) + 1) prompt size with
        | Ok answer =>
            (Ok (firstInline answer),
             extended w [EnsureApiKey; GenerateImageContent prompt size])
        | Throw e =>
            (if isPaidModelError e then Throw (newError PAYMENT_REQUIRED) else Ok None,
             extended w [EnsureApiKey; GenerateImageContent prompt size])
        end
    | Throw e =>
        (if isPaidModelError e then Throw (newError PAYMENT_REQUIRED) else Ok None,
         extended w [EnsureApiKey])
    end.
Proof.
  unfold generateImage, ensureApiKey, tryCatch, bind, request.
  destruct (ensureKey env (List.length (trace w))) as [[] | e].
  - cbn [trace]. rewrite length_app. cbn [List.length].
    destruct (imageContent env _ prompt size) as [answer | e].
    + unfold ret, extended, firstInline. cbn. now rewrite <- app_assoc.
    + destruct (isPaidModelError e); unfold throw, ret, extended; cbn;
        now rewrite <- app_assoc.
  - destruct (isPaidModelError e); reflexivity.
Qed.

Lemma generateVeoVideo_run image prompt mime w :
  let p := if truthy prompt then prompt else lit "Animate this image" in
  generateVeoVideo env image prompt mime w
  = match ensureKey env (List.length (trace w)) with
    | Ok _ =>
        match videoOperation env (List.length (trace w) + 1) image p mime with
        | Ok uri =>
            (Ok (match uri with
                 | Some u => if truthy u then Some (u ++ lit "&key=" ++ API_KEY env) else None
                 | None => None
                 end),
             extended w [EnsureApiKey; GenerateVideos image p mime])
        | Throw e =>
            (Throw (if isPaidModelError e then newError PAYMENT_REQUIRED else e),
             extended w [EnsureApiKey; GenerateVideos image p mime])
        end
    | Throw e =>
        (Throw (if isPaidModelError e then newError PAYMENT_REQUIRED else e),
         extended w [EnsureApiKey])
    end.
Proof.
  cbv zeta. unfold generateVeoVideo, ensureApiKey, tryCatch, bind, request.
  destruct (ensureKey env (List.length (trace w))) as [[] | e].
  - cbn [trace]. rewrite length_app. cbn [List.length].
    destruct (videoOperation env _ image _ mime) as [uri | e].
    + unfold ret, extended. cbn. now rewrite <- app_assoc.
    + destruct (isPaidModelError e); unfold throw, ret, extended; cbn;
        now rewrite <- app_assoc.
  - destruct (isPaidModelError e); reflexivity.
Qed.

End Video.

Lemma truthy_ne (s : jsstring) : truthy s = true <-> s <> [].
Proof. destruct s; cbn; split; congruence. Qed.

(** The video chain asks, in this order, for the enhanced prompt, the key,
    the reference image, the key again and the video, and each request after
    the first is made exactly when the step before it succeeded: the key is
    asked for when the text model answered, the image when the key was
    granted, the key again when the image backend returned inline data that
    is not empty, the video when the key was granted again.  The image is
    asked for with the trimmed answer of the text model, or with the query
    when that answer is missing or blank; the video with that prompt and the
    image that came back.  The result carries a video exactly when the video
    backend returned a URI that is not empty, which is then completed with
    the key, and a result with a video carries the reference image.  The
    chain throws only errors whose message is PAYMENT_REQUIRED. *)
Theorem videoChain_order (env : Env) (query : jsstring) (w : World) :
  let t := List.length (trace w) in
  let enhancement := enhancementRequest query in
  let answer := generateText env t MODEL_NAME enhancement [] in
  let prompt :=
    orElse (option_map trim (match answer with Ok res => res | Throw _ => None end))
      query in
  let image :=
    match imageContent env (t + 2) prompt (lit "1K") with
    | Ok parts => orElse (firstInline parts) []
    | Throw _ => []
    end in
  let operation :=
    videoOperation env (t + 4) image
      (if truthy prompt then prompt else lit "Animate this image") (lit "image/png") in
  exists n,
    snd (videoChain env query w)
    = extended w (firstn n (videoRequests enhancement prompt image))
    /\ (1 <= n <= 5)%nat
    /\ ((2 <= n)%nat <-> exists res, answer = Ok res)
    /\ ((3 <= n)%nat <-> (2 <= n)%nat /\ ensureKey env (t + 1) = Ok tt)
    /\ ((4 <= n)%nat <-> (3 <= n)%nat /\ image <> [])
    /\ ((5 <= n)%nat <-> (4 <= n)%nat /\ ensureKey env (t + 3) = Ok tt)
    /\ match fst (videoChain env query w) with
       | Ok r =>
           (forall v, generatedVideo r = Some v
                      <-> n = 5%nat
                          /\ exists u, operation = Ok (Some u) /\ u <> []
                                       /\ v = u ++ lit "&key=" ++ API_KEY env)
           /\ (generatedVideo r <> None -> generatedImage r = Some image)
       | Throw e => messageIs e PAYMENT_REQUIRED = true
       end.
Proof.
  cbv zeta.
  set (t := List.length (trace w)).
  set (enhancement := enhancementRequest query).
  remember (videoChain env query w) as run eqn:Hrun.
  unfold videoChain, tryCatch, bind in Hrun.
  fold (enhancementRequest query) in Hrun. fold enhancement in Hrun.
  unfold request at 1 in Hrun. fold t in Hrun.
  destruct (generateText env t MODEL_NAME enhancement []) as [res | e0] eqn:Hres.
  2:{ exists 1%nat. cbv beta iota in Hrun.
      destruct (messageIs e0 PAYMENT_REQUIRED) eqn:E; unfold throw, ret in Hrun;
        subst run; cbn [fst snd].
      all: split; [reflexivity |]; split; [lia |].
      all: split; [split; [lia | intros (res & H); discriminate H] |].
      all: split; [split; [lia | intros (H & _); lia] |].
      all: split; [split; [lia | intros (H & _); lia] |].
      all: split; [split; [lia | intros (H & _); lia] |].
      - exact E.
      - cbn. split; [| intros H; now destruct H].
        intros v. split; [discriminate | intros (H & _); discriminate H]. }
  set (prompt := orElse (option_map trim res) query) in *.
  cbv beta iota in Hrun.
  set (w1 := {| documents := documents w; listeners := listeners w;
                trace := trace w ++ [GenerateContent MODEL_NAME enhancement []] |}) in *.
  assert (Ht1 : List.length (trace w1) = (t + 1)%nat).
  { unfold w1. cbn [trace]. rewrite length_app. reflexivity. }
  assert (Hshape : forall evs, extended w1 evs
                     = extended w (GenerateContent MODEL_NAME enhancement [] :: evs)).
  { intros evs. unfold extended, w1. cbn. now rewrite <- app_assoc. }
  rewrite generateImage_run, Ht1 in Hrun.
  replace (t + 1 + 1)%nat with (t + 2)%nat in Hrun by lia.
  assert (Hans : exists res0, @Ok (option jsstring) res = Ok res0) by (now exists res).
  destruct (ensureKey env (t + 1)) as [[] | e1] eqn:Hk1.
  2:{ exists 2%nat.
      destruct (isPaidModelError e1); cbv beta iota in Hrun.
      1: change (messageIs (newError PAYMENT_REQUIRED) PAYMENT_REQUIRED) with true in Hrun;
        cbv iota in Hrun.
      all: unfold throw, ret in Hrun; cbn [present] in Hrun; subst run; cbn [fst snd].
      all: split; [rewrite Hshape; reflexivity |]; split; [lia |].
      all: split; [split; [auto | lia] |].
      all: split; [split; [lia | intros (_ & H); discriminate H] |].
      all: split; [split; [lia | intros (H & _); lia] |].
      all: split; [split; [lia | intros (H & _); lia] |].
      - reflexivity.
      - cbn. split; [| intros H; now destruct H].
        intros v. split; [discriminate | intros (H & _); discriminate H]. }
  destruct (imageContent env (t + 2) prompt (lit "1K")) as [parts | e2] eqn:Himg.
  2:{ exists 3%nat.
      destruct (isPaidModelError e2); cbv beta iota in Hrun.
      1: change (messageIs (newError PAYMENT_REQUIRED) PAYMENT_REQUIRED) with true in Hrun;
        cbv iota in Hrun.
      all: unfold throw, ret in Hrun; cbn [present] in Hrun; subst run; cbn [fst snd].
      all: split; [rewrite Hshape; reflexivity |]; split; [lia |].
      all: split; [split; [auto | lia] |].
      all: split; [split; [auto | lia] |].
      all: split; [split; [lia | intros (_ & H); now destruct H] |].
      all: split; [split; [lia | intros (H & _); lia] |].
      - reflexivity.
      - cbn. split; [| intros H; now destruct H].
        intros v. split; [discriminate | intros (H & _); discriminate H]. }
  cbv beta iota in Hrun.
  destruct (present (firstInline parts)) eqn:Hp.
  2:{ exists 3%nat. unfold ret in Hrun. subst run. cbn [fst snd].
      assert (Hnone : orElse (firstInline parts) [] = []).
      { unfold present in Hp. unfold orElse.
        destruct (firstInline parts) as [s |]; [| reflexivity]. now rewrite Hp. }
      rewrite Hnone.
      split; [rewrite Hshape; reflexivity |]; split; [lia |].
      split; [split; [auto | lia] |].
      split; [split; [auto | lia] |].
      split; [split; [lia | intros (_ & H); now destruct H] |].
      split; [split; [lia | intros (H & _); lia] |].
      cbn. split; [| intros H; now destruct H].
      intros v. split; [discriminate | intros (H & _); discriminate H]. }
  destruct (firstInline parts) as [image |] eqn:Hfirst; [| discriminate Hp].
  cbn [present] in Hp.
  assert (Him : orElse (Some image) [] = image) by (cbn; now rewrite Hp).
  rewrite Him in *.
  assert (Hne : image <> []) by (now apply truthy_ne).
  set (w2 := extended w1 [EnsureApiKey; GenerateImageContent prompt (lit "1K")]) in *.
  assert (Ht2 : List.length (trace w2) = (t + 3)%nat).
  { unfold w2. cbn [extended trace]. rewrite length_app, Ht1. cbn. lia. }
  assert (Hshape2 : forall evs, extended w2 evs
                     = extended w (GenerateContent MODEL_NAME enhancement []
                                   :: EnsureApiKey :: GenerateImageContent prompt (lit "1K")
                                   :: evs)).
  { intros evs. unfold w2. rewrite extended_app, Hshape. reflexivity. }
  rewrite generateVeoVideo_run, Ht2 in Hrun.
  replace (t + 3 + 1)%nat with (t + 4)%nat in Hrun by lia.
  destruct (ensureKey env (t + 3)) as [[] | e3] eqn:Hk2.
  2:{ exists 4%nat. cbv beta iota in Hrun.
      destruct (messageIs (if isPaidModelError e3 then newError PAYMENT_REQUIRED else e3)
                  PAYMENT_REQUIRED) eqn:E; unfold throw, ret in Hrun; subst run;
        cbn [fst snd].
      all: split; [rewrite Hshape2; reflexivity |]; split; [lia |].
      all: split; [split; [auto | lia] |].
      all: split; [split; [auto | lia] |].
      all: split; [split; [auto | lia] |].
      all: split; [split; [lia | intros (_ & H); discriminate H] |].
      - exact E.
      - cbn. split; [| intros H; now destruct H].
        intros v. split; [discriminate | intros (H & _); discriminate H]. }
  exists 5%nat.
  destruct (videoOperation env (t + 4) image
              (if truthy prompt then prompt else lit "Animate this image") (lit "image/png"))
    as [uri | e4] eqn:Hop.
  - cbv beta iota in Hrun. unfold ret in Hrun. subst run.
    cbn [fst snd generatedVideo generatedImage].
    split; [rewrite Hshape2; reflexivity |]; split; [lia |].
    split; [split; [auto | lia] |].
    split; [split; [auto | lia] |].
    split; [split; [auto | lia] |].
    split; [split; [auto | lia] |].
    split; [| reflexivity].
    intros v. destruct uri as [u |].
    + destruct (truthy u) eqn:Hu.
      * split.
        -- intros H. inversion H. split; [reflexivity |]. exists u.
           split; [reflexivity |]. split; [now apply truthy_ne | reflexivity].
        -- intros (_ & u' & H & _ & ->). inversion H. reflexivity.
      * split; [discriminate |]. intros (_ & u' & H & Hne' & _). inversion H; subst u'.
        apply truthy_ne in Hne'. congruence.
    + split; [discriminate |]. intros (_ & u' & H & _). discriminate H.
  - cbv beta iota in Hrun.
    destruct (messageIs (if isPaidModelError e4 then newError PAYMENT_REQUIRED else e4)
                PAYMENT_REQUIRED) eqn:E; unfold throw, ret in Hrun; subst run;
      cbn [fst snd].
    all: split; [rewrite Hshape2; reflexivity |]; split; [lia |].
    all: split; [split; [auto | lia] |].
    all: split; [split; [auto | lia] |].
    all: split; [split; [auto | lia] |].
    all: split; [split; [auto | lia] |].
    + exact E.
    + cbn. split; [| intros H; now destruct H].
      intros v. split; [discriminate | intros (_ & u & H & _); discriminate H].
Qed.

End RoutingFacts.

Module ServicesFacts.
Import Gemini Prompts Router IndexingSpec Asking Services SingleShot.

Lemma trimStart_clean s :
  match trimStart s with
  | [] => True
  | c :: _ => isWhiteSpace c = false
  end.
Proof.
  induction s as [|c s IH]; cbn; [exact I|].
  destruct (isWhiteSpace c) eqn:E; [exact IH | exact E].
Qed.

Lemma trimStart_suffix s : exists ws, s = ws ++ trimStart s.
Proof.
  induction s as [|c s [ws IH]]; cbn; [now exists []|].
  destruct (isWhiteSpace c); [| now exists []].
  exists (c :: ws). cbn. now rewrite <- IH.
Qed.

(** A trimmed text that is not empty starts and ends with a code unit that
    is not white space. *)
Lemma trim_clean s :
  trim s <> [] ->
  (exists c, hd_error (trim s) = Some c /\ isWhiteSpace c = false)
  /\ isWhiteSpace (last (trim s) 0%N) = false.
Proof.
  unfold trim. intros Hne.
  pose proof (trimStart_clean (rev (trimStart s))) as Hend.
  destruct (trimStart_suffix (rev (trimStart s))) as [ws Hws].
  destruct (trimStart (rev (trimStart s))) as [|d t] eqn:Et; [now destruct Hne|].
  split.
  - pose proof (trimStart_clean s) as Hstart.
    assert (Hrev : trimStart s = rev t ++ d :: rev ws).
    { rewrite <- (rev_involutive (trimStart s)), Hws, rev_app_distr. cbn.
      now rewrite <- app_assoc. }
    cbn [rev]. rewrite Hrev in Hstart.
    destruct (rev t) as [|c t']; cbn in *; eauto.
  - cbn [rev]. now rewrite last_last.
Qed.

(** The persona generator never throws and asks the model once.  It gives
    back the trimmed answer of the model when that is not empty, and the
    description it was given otherwise: when the model fails, answers
    without text, or answers with white space only. *)
Theorem createPersonaDescription_falls_back (env : Env) (userDescription : jsstring)
        (w : World) :
  exists r prompt,
    createPersonaDescription env userDescription w
    = (Ok r, extended w [GenerateContent MODEL_NAME prompt []])
    /\ match generateText env (List.length (trace w)) MODEL_NAME prompt [] with
       | Ok (Some t) =>
           if truthy (trim t)
           then r = trim t
                /\ (exists c, hd_error r = Some c /\ isWhiteSpace c = false)
                /\ isWhiteSpace (last r 0%N) = false
           else r = userDescription
       | _ => r = userDescription
       end.
Proof.
  unfold createPersonaDescription, tryCatch, bind, request, ret.
  match goal with
  | |- context [generateText env _ MODEL_NAME ?p []] => set (prompt := p)
  end.
  destruct (generateText env (List.length (trace w)) MODEL_NAME prompt [])
    as [[t |] | e] eqn:Hg.
  - cbn [option_map orElse]. destruct (trim t) as [|c t'] eqn:Et.
    + exists userDescription, prompt. rewrite Hg. cbn. rewrite Et. cbn. auto.
    + exists (c :: t'), prompt. rewrite Hg. cbn [truthy]. rewrite Et. cbn [truthy].
      split; [reflexivity|]. split; [reflexivity|].
      rewrite <- Et. apply trim_clean. rewrite Et. discriminate.
  - exists userDescription, prompt. rewrite Hg. cbn. auto.
  - exists userDescription, prompt. rewrite Hg. cbn. auto.
Qed.

(** The helpers of the document chat never throw and ask exactly once.
    [chatWithDocument] sends one message, to a chat without tools whose
    history is the document, the acknowledgement, and then the earlier
    turns; [analyzeDocument] sends the document and the task in one user
    turn.  What the backend refuses becomes a fixed text, and the result of
    [analyzeDocument] is never empty. *)
Theorem document_helpers_total (env : Env)
        (generateContent : nat -> GenerateContentRequest -> Result (option jsstring))
        (query fileContent : jsstring) (history : list Content) (w : World)
        (file : Document) (task : Task) (reqs : list GenerateContentRequest) :
  (exists r,
     chatWithDocument env query fileContent history w
     = (Ok r, extended w [SendMessage (documentChat fileContent history)
                            (MessageText query)])
     /\ tools (documentChat fileContent history) = []
     /\ skipn 2 (Eff.history (documentChat fileContent history)) = history
     /\ r = match sendMessage env (List.length (trace w))
                    (documentChat fileContent history) (MessageText query) with
            | Ok response => orElse (responseText response) []
            | Throw _ => lit "Error processing document chat."
            end)
  /\ (exists r req,
        analyzeDocument generateContent file task reqs = (Ok r, reqs ++ [req])
        /\ r <> []
        /\ SingleShot.model req = MODEL_NAME
        /\ SingleShot.systemInstruction req = None
        /\ contents req
           = UserParts
               [if Router.isBinary file
                then InlineData (Router.docMimeType file) (Router.content file)
                else TextPart (lit "Document:" ++ nl ++ Router.content file);
                TextPart (lit "Perform task: " ++ toUpperCase task
                          ++ lit " on the attached document.")]
        /\ r = match generateContent (List.length reqs) req with
               | Ok (Some t) => if truthy t then t else lit "Analysis failed."
               | Ok None => lit "Analysis failed."
               | Throw _ => lit "Error analyzing document."
               end).
Proof.
  split.
  - unfold chatWithDocument, tryCatch, bind, request, ret.
    destruct (sendMessage env (List.length (trace w)) _ (MessageText query)) as [r | e];
      eexists; repeat split.
  - unfold analyzeDocument, attempt, andThen, ask, pure.
    match goal with
    | |- context [generateContent _ ?q] => set (req := q)
    end.
    destruct (generateContent (List.length reqs) req) as [[[|c t] |] | e] eqn:Hg;
      eexists; exists req; (split; [reflexivity|]); (split; [discriminate|]);
      (split; [reflexivity|]); (split; [reflexivity|]); (split; [reflexivity|]);
      rewrite Hg; reflexivity.
Qed.

Section WithModel.
Variable generateContent : nat -> GenerateContentRequest -> Result (option jsstring).

(** The end of the single-request helpers: the trimmed text of the answer,
    or [missing] when there is none, or [failed] when the request fails. *)
Lemma trimmed_answer (req : GenerateContentRequest) (missing failed : jsstring)
      (reqs : list GenerateContentRequest) :
  attempt
    (andThen (ask generateContent req) (fun response =>
     pure (orElse (option_map Router.trim response) missing)))
    (fun _ => pure failed) reqs
  = (Ok (match generateContent (List.length reqs) req with
         | Ok (Some t) => if truthy (Router.trim t) then Router.trim t else missing
         | Ok None => missing
         | Throw _ => failed
         end), reqs ++ [req]).
Proof.
  unfold attempt, andThen, ask, pure.
  destruct (generateContent (List.length reqs) req) as [[t |] | e]; reflexivity.
Qed.

End WithModel.

(** [translateText] never throws.  For a text that is empty or white space
    only it returns the empty text and asks nothing.  Otherwise it asks the
    model once, with the text between quotes at the end of the prompt, and
    its result is never empty: the trimmed answer, or a fixed text when the
    answer is missing or blank or the request fails. *)
Theorem translateText_total
        (generateContent : nat -> GenerateContentRequest -> Result (option jsstring))
        (text sourceLang targetLang : jsstring) (mode : TranslationMode) (verbose : bool)
        (reqs : list GenerateContentRequest) :
  if truthy (Router.trim text)
  then exists r req intro,
         translateText generateContent text sourceLang targetLang mode verbose reqs
         = (Ok r, reqs ++ [req])
         /\ r <> []
         /\ SingleShot.model req = MODEL_NAME
         /\ contents req = Prompt (intro ++ quote ++ text ++ quote)
         /\ r = match generateContent (List.length reqs) req with
                | Ok (Some t) =>
                    if truthy (Router.trim t) then Router.trim t
                    else lit "Processing failed."
                | Ok None => lit "Processing failed."
                | Throw _ => lit "Error."
                end
  else translateText generateContent text sourceLang targetLang mode verbose reqs
       = (Ok [], reqs).
Proof.
  unfold translateText.
  destruct (truthy (Router.trim text)); cbn [negb]; [| reflexivity].
  rewrite trimmed_answer.
  match goal with
  | |- context [generateContent _ ?q] => set (req := q)
  end.
  exists (match generateContent (List.length reqs) req with
          | Ok (Some t) =>
              if truthy (Router.trim t) then Router.trim t else lit "Processing failed."
          | Ok None => lit "Processing failed."
          | Throw _ => lit "Error."
          end), req,
    (match mode with
     | TRANSLITERATE => lit "Transliterate into " ++ targetLang ++ lit " script: "
     | TRANSLATE => lit "Input to translate: "
     end).
  split; [reflexivity|]. split.
  - destruct (generateContent (List.length reqs) req) as [[t |] | e]; try discriminate.
    destruct (Router.trim t); cbn; discriminate.
  - split; [reflexivity|]. split; [| reflexivity].
    unfold req. cbn [contents]. destruct mode; [reflexivity|].
    now rewrite <- !app_assoc.
Qed.

(** [translateDocument] and [extractTextFromImage] never throw and ask the
    model exactly once.  A binary file is sent as inline data followed by
    one instruction, a text file as one text part that ends with its
    content; the result of [translateDocument] is never empty, and the
    result of [extractTextFromImage] is empty exactly when the request fails
    or the answer is missing or blank. *)
Theorem translateDocument_total
        (generateContent : nat -> GenerateContentRequest -> Result (option jsstring))
        (file : TranslationFile) (sourceLang targetLang : jsstring)
        (mode : TranslationMode) (verbose : bool) (base64Data type : jsstring)
        (reqs : list GenerateContentRequest) :
  (exists r req instruction,
     translateDocument generateContent file sourceLang targetLang mode verbose reqs
     = (Ok r, reqs ++ [req])
     /\ r <> []
     /\ SingleShot.model req = MODEL_NAME
     /\ contents req
        = UserParts (if isBinary file
                     then [InlineData (mimeType file) (data file); TextPart instruction]
                     else [TextPart (lit "[DOCUMENT CONTENT TO PROCESS]" ++ nl ++ data file)])
     /\ r = match generateContent (List.length reqs) req with
            | Ok (Some t) => if truthy (Router.trim t) then Router.trim t else lit "Failed."
            | Ok None => lit "Failed."
            | Throw _ => lit "Error."
            end)
  /\ (exists r req instruction,
        extractTextFromImage generateContent base64Data type reqs = (Ok r, reqs ++ [req])
        /\ SingleShot.model req = MODEL_NAME
        /\ SingleShot.systemInstruction req = None
        /\ contents req = Parts [InlineData type base64Data; TextPart instruction]
        /\ r = match generateContent (List.length reqs) req with
               | Ok (Some t) => Router.trim t
               | _ => []
               end).
Proof.
  split.
  - unfold translateDocument. rewrite trimmed_answer.
    match goal with
    | |- context [generateContent _ ?q] => set (req := q)
    end.
    eexists. exists req.
    exists (if startsWith (mimeType file) (lit "image/")
            then nl ++ lit "Please analyze this image." ++ nl
                 ++ lit "1. If there is text in the image, translate it to "
                 ++ targetLang ++ lit "." ++ nl
                 ++ lit "2. If there is NO text, provide a detailed description of what you see in the image in "
                 ++ targetLang ++ lit "." ++ nl
                 ++ lit "3. If there is text but it's part of a larger scene, translate the text and briefly describe the scene."
                 ++ nl
            else match mode with
                 | TRANSLITERATE => lit "Transliterate this document."
                 | TRANSLATE => lit "Translate this document."
                 end).
    split; [reflexivity|]. split.
    + destruct (generateContent (List.length reqs) req) as [[t |] | e]; try discriminate.
      destruct (Router.trim t); cbn; discriminate.
    + split; [reflexivity|]. split; [| reflexivity].
      unfold req. cbn [contents]. destruct (isBinary file); reflexivity.
  - unfold extractTextFromImage. rewrite trimmed_answer.
    match goal with
    | |- context [generateContent _ ?q] => set (req := q)
    end.
    eexists. exists req. eexists.
    split; [reflexivity|]. split; [reflexivity|]. split; [reflexivity|].
    split; [reflexivity|].
    destruct (generateContent (List.length reqs) req) as [[t |] | e]; try reflexivity.
    destruct (Router.trim t); reflexivity.
Qed.

End ServicesFacts.

Module HuggingFaceFacts.
Import Prompts Asking HuggingFace.

Lemma slice_last_four {A} (older recent : list A) :
  (4 <= List.length recent)%nat ->
  slice (older ++ recent) (-4) (len (older ++ recent)) = slice recent (-4) (len recent).
Proof.
  intros H. unfold slice, relIndex, len. rewrite length_app.
  change (-4 <? 0)%Z with true. cbv iota.
  destruct (Z.of_nat (List.length older + List.length recent) <? 0)%Z eqn:E1;
    [apply Z.ltb_lt in E1; lia|].
  destruct (Z.of_nat (List.length recent) <? 0)%Z eqn:E2;
    [apply Z.ltb_lt in E2; lia|].
  rewrite !Z.min_id.
  replace (Z.to_nat (Z.max (Z.of_nat (List.length older + List.length recent) + -4) 0))
    with (List.length older + (List.length recent - 4))%nat by lia.
  replace (Z.to_nat (Z.max (Z.of_nat (List.length recent) + -4) 0))
    with (List.length recent - 4)%nat by lia.
  rewrite skipn_app.
  replace (List.length older + (List.length recent - 4) - List.length older)%nat
    with (List.length recent - 4)%nat by lia.
  rewrite (skipn_all2 older) by lia. cbn [app].
  f_equal. lia.
Qed.

Lemma slice_incl {A} (l : list A) b e x : In x (slice l b e) -> In x l.
Proof.
  unfold slice. intros H.
  assert (H1 : In x (skipn (Z.to_nat (relIndex (len l) b)) l)).
  { rewrite <- (firstn_skipn (Z.to_nat (relIndex (len l) e - relIndex (len l) b))
                  (skipn (Z.to_nat (relIndex (len l) b)) l)).
    apply in_or_app. now left. }
  rewrite <- (firstn_skipn (Z.to_nat (relIndex (len l) b)) l).
  apply in_or_app. now right.
Qed.


(** Only the last four messages of the history reach the prompt. *)
Theorem getPromptForModel_recent (modelId query : jsstring) (older recent : list Content)
        (systemInstruction : jsstring) (ragContext : option jsstring) :
  (4 <= List.length recent)%nat ->
  getPromptForModel modelId query (older ++ recent) systemInstruction ragContext
  = getPromptForModel modelId query recent systemInstruction ragContext.
Proof.
  intros H. unfold getPromptForModel. now rewrite (slice_last_four older recent H).
Qed.

Lemma getPromptForModel_recent_witness :
  let turn t := {| role := lit "user"; parts := [TextPart t] |} in
  getPromptForModel (lit "mistralai/Mistral-7B-Instruct-v0.2") (lit "q")
    ([turn (lit "old")] ++ [turn (lit "a"); turn (lit "b"); turn (lit "c"); turn (lit "d")])
    (lit "s") None
  = getPromptForModel (lit "mistralai/Mistral-7B-Instruct-v0.2") (lit "q")
      [turn (lit "a"); turn (lit "b"); turn (lit "c"); turn (lit "d")] (lit "s") None.
Proof. intros turn. apply getPromptForModel_recent. cbn. lia. Defined.

Lemma appendEach_ok render msgs :
  Forall (fun msg => parts msg <> []) msgs ->
  forall prompt, exists p, appendEach render msgs prompt = Ok p.
Proof.
  induction 1 as [|msg msgs Hmsg _ IH]; intros prompt; cbn; [eauto|].
  unfold firstText. destruct (parts msg) as [|[t | m d | n r] ps]; [contradiction| | |];
    apply IH.
Qed.

Lemma appendEach_throw render msgs msg :
  In msg msgs -> parts msg = [] ->
  forall prompt, appendEach render msgs prompt = Throw typeError.
Proof.
  intros Hin Hp. induction msgs as [|m msgs IH]; intros prompt; [destruct Hin|].
  cbn. unfold firstText. destruct Hin as [-> | Hin].
  - now rewrite Hp.
  - destruct (parts m) as [|[t | mt d | n r] ps]; [reflexivity| | |]; now apply IH.
Qed.

Lemma getPromptForModel_ok modelId query history systemInstruction ragContext :
  Forall (fun msg => parts msg <> []) history ->
  exists p, getPromptForModel modelId query history systemInstruction ragContext = Ok p.
Proof.
  intros H.
  assert (Hr : Forall (fun msg => parts msg <> []) (slice history (-4) (len history))).
  { rewrite Forall_forall in *. intros msg Hin. apply H. eapply slice_incl, Hin. }
  unfold getPromptForModel.
  destruct (includes modelId (lit "zephyr") || includes modelId (lit "Phi")).
  - match goal with
    | |- context [appendEach ?r ?l ?p] => destruct (appendEach_ok r Hr p) as [q ->]
    end. eauto.
  - destruct (includes modelId (lit "Mistral")); [| eauto].
    match goal with
    | |- context [appendEach ?r ?l ?p] => destruct (appendEach_ok r Hr p) as [q ->]
    end. eauto.
Qed.

Section WithFetch.
Variable fetch : nat -> FetchRequest -> Result FetchResponse.
Variable query : jsstring.
Variable history : list Content.
Variable systemInstruction : jsstring.
Variable ragContext : option jsstring.
Hypothesis complete : Forall (fun msg => parts msg <> []) history.

Lemma tryModel_run model reqs :
  exists r prompt,
    tryModel fetch query history systemInstruction ragContext model reqs
    = (Ok r, reqs ++ [remoteRequest model prompt])
    /\ r <> Some [].
Proof.
  destruct (getPromptForModel_ok model query systemInstruction ragContext complete)
    as [prompt Hp].
  unfold tryModel, andThen, settle, attempt, ask. rewrite Hp.
  exists (match fetch (List.length reqs) (remoteRequest model prompt) with
          | Ok response =>
              if (httpStatus response =? 503)%Z then None
              else if negb (ok response) then None
              else match json response with
                   | Ok (Items (Some (c :: t) :: _)) => Some (c :: t)
                   | _ => None
                   end
          | Throw _ => None
          end), prompt.
  destruct (fetch (List.length reqs) (remoteRequest model prompt)) as [response | e];
    [| split; [reflexivity | discriminate]].
  destruct (httpStatus response =? 503)%Z; [split; [reflexivity | discriminate]|].
  destruct (ok response); cbn [negb]; [| split; [reflexivity | discriminate]].
  destruct (json response) as [[[|[[|c t] |] gs] | | err] | e];
    split; try reflexivity; discriminate.
Qed.

Lemma tryModels_run models : forall reqs,
  exists r more,
    tryModels fetch query history systemInstruction ragContext models reqs
    = (Ok r, reqs ++ more)
    /\ r <> []
    /\ (List.length more <= List.length models)%nat
    /\ map url more
       = firstn (List.length more)
           (map (fun model => lit "https://api-inference.huggingface.co/models/" ++ model)
              models).
Proof.
  induction models as [|model rest IH]; intros reqs; cbn [tryModels].
  - exists NO_CONNECTION, []. rewrite app_nil_r. repeat split; auto. discriminate.
  - destruct (tryModel_run model reqs) as (r & prompt & Hrun & Hr).
    unfold andThen. rewrite Hrun.
    destruct r as [t |].
    + exists t, [remoteRequest model prompt]. repeat split; auto.
      * intros ->. now apply Hr.
      * cbn. lia.
    + destruct (IH (reqs ++ [remoteRequest model prompt])) as (r & more & H1 & H2 & H3 & H4).
      exists r, (remoteRequest model prompt :: more).
      rewrite H1, <- app_assoc. repeat split; auto.
      * cbn. lia.
      * cbn [map List.length firstn]. now rewrite H4.
Qed.

End WithFetch.

(** When every message of the history has a part, the secondary provider
    never throws and never answers with an empty text.  It asks the local
    proxy first and then the models in their order, at most once each, and
    asks no model once the local proxy has answered with a value. *)
Theorem chatWithHuggingFace_total
        (fetch : nat -> FetchRequest -> Result FetchResponse) (query : jsstring)
        (history : list Content) (systemInstruction : jsstring)
        (ragContext : option jsstring) :
  Forall (fun msg => parts msg <> []) history ->
  exists r prompt more,
    chatWithHuggingFace fetch query history systemInstruction ragContext []
    = (Ok r, localRequest prompt :: more)
    /\ r <> []
    /\ (List.length more <= 3)%nat
    /\ map url (localRequest prompt :: more)
       = firstn (S (List.length more)) addresses
    /\ (forall response result,
          fetch 0%nat (localRequest prompt) = Ok response ->
          ok response = true -> json response = Ok result -> result <> Null ->
          more = []).
Proof.
  intros complete.
  destruct (getPromptForModel_ok (lit "HuggingFaceH4/zephyr-7b-beta") query
              systemInstruction ragContext complete) as [prompt Hp].
  destruct (@tryModels_run fetch query history systemInstruction ragContext complete MODELS
              [localRequest prompt]) as (r2 & more & H1 & H2 & H3 & H4).
  unfold chatWithHuggingFace, andThen. unfold tryLocal at 1.
  unfold attempt, andThen, settle, ask. rewrite Hp. cbn [List.length app].
  destruct (fetch 0%nat (localRequest prompt)) as [response | e] eqn:Hf.
  - destruct (ok response) eqn:Hok.
    + destruct (json response) as [[gs | | err] | e] eqn:Hj.
      * eexists. exists prompt, []. split; [reflexivity|].
        split; [| repeat split; auto; cbn; lia].
        destruct gs as [|[[|c t] |] gs]; cbn; discriminate.
      * unfold raise, pure. exists r2, prompt, more. rewrite H1.
        repeat split; auto.
        -- cbn [map firstn addresses]. cbn [url localRequest]. now rewrite H4.
        -- intros response' result E Hok' Hj' Hn. rewrite Hf in E. inversion E; subst. congruence.
      * eexists. exists prompt, []. split; [reflexivity|].
        split; [| repeat split; auto; cbn; lia].
        destruct err as [[|c t] |]; cbn; discriminate.
      * unfold pure. exists r2, prompt, more. rewrite H1.
        repeat split; auto.
        -- cbn [map firstn addresses]. cbn [url localRequest]. now rewrite H4.
        -- intros response' result E Hok' Hj' Hn. rewrite Hf in E. inversion E; subst. congruence.
    + unfold pure. exists r2, prompt, more. rewrite H1.
      repeat split; auto.
      * cbn [map firstn addresses]. cbn [url localRequest]. now rewrite H4.
      * intros response' result E Hok' Hj' Hn. rewrite Hf in E. inversion E; subst. congruence.
  - unfold pure. exists r2, prompt, more. rewrite H1.
    repeat split; auto.
    + cbn [map firstn addresses]. cbn [url localRequest]. now rewrite H4.
    + intros response' result E. rewrite Hf in E. discriminate.
Qed.

(** The theorem at work: a history of two messages, each with its text
    part, while neither the local proxy nor a hosted model can be reached. *)
Lemma chatWithHuggingFace_total_witness :
  exists r prompt more,
    chatWithHuggingFace (fun _ _ => Throw Samples.unreachable) (lit "q")
      [{| Eff.role := lit "user"; parts := [TextPart (lit "hi")] |};
       {| Eff.role := lit "model"; parts := [TextPart (lit "hello")] |}]
      (lit "s") None []
    = (Ok r, localRequest prompt :: more)
    /\ r <> []
    /\ (List.length more <= 3)%nat
    /\ map url (localRequest prompt :: more)
       = firstn (S (List.length more)) addresses
    /\ (forall response result,
          (fun (_ : nat) (_ : FetchRequest) => @Throw FetchResponse Samples.unreachable)
            0%nat (localRequest prompt) = Ok response ->
          ok response = true -> json response = Ok result -> result <> Null ->
          more = []).
Proof.
  apply chatWithHuggingFace_total.
  constructor; [discriminate |]. constructor; [discriminate |]. constructor.
Defined.

(** When one of the last four messages of the history has no part, the
    secondary provider throws, and asks nothing. *)
Theorem chatWithHuggingFace_rejects
        (fetch : nat -> FetchRequest -> Result FetchResponse) (query : jsstring)
        (history : list Content) (systemInstruction : jsstring)
        (ragContext : option jsstring) (msg : Content) (reqs : list FetchRequest) :
  In msg (slice history (-4) (len history)) ->
  parts msg = [] ->
  chatWithHuggingFace fetch query history systemInstruction ragContext reqs
  = (Throw typeError, reqs).
Proof.
  intros Hin Hp.
  assert (Hprompt : getPromptForModel (lit "HuggingFaceH4/zephyr-7b-beta") query history
                      systemInstruction ragContext = Throw typeError).
  { unfold getPromptForModel.
    change (includes (lit "HuggingFaceH4/zephyr-7b-beta") (lit "zephyr")
            || includes (lit "HuggingFaceH4/zephyr-7b-beta") (lit "Phi")) with true.
    cbv iota.
    match goal with
    | |- context [appendEach ?r ?l ?p] => rewrite (@appendEach_throw r l msg Hin Hp p)
    end. reflexivity. }
  unfold chatWithHuggingFace, andThen, tryLocal, attempt, andThen, settle.
  rewrite Hprompt. unfold pure. cbn [tryModels MODELS].
  unfold andThen, tryModel, andThen, settle. now rewrite Hprompt.
Qed.

Lemma chatWithHuggingFace_rejects_witness :
  chatWithHuggingFace (fun _ _ => Throw Samples.unreachable) (lit "q")
    [{| role := lit "user"; parts := [] |}] (lit "s") None []
  = (Throw typeError, []).
Proof.
  apply (@chatWithHuggingFace_rejects _ _ _ _ _ {| role := lit "user"; parts := [] |}).
  - left. reflexivity.
  - reflexivity.
Defined.

End HuggingFaceFacts.

Module ClientFacts.
Import Gemini VectorStore Prompts Router IndexingSpec Invariants RouterSpec Clients.
Import StoreFacts.



Section Sync.
Variable env : Env.

(** What one source adds: the entries it stores are counted, unless a
    listener threw when they had been stored; then the topic counts as
    failed. *)
Lemma syncSource_run (totals : nat * nat) (source : KnowledgeSource) (w : World) :
  exists t w' docs,
    syncSource env totals source w = (Ok t, w')
    /\ documents w' = documents w ++ docs
    /\ listeners w' = listeners w
    /\ (fst t = (fst totals + List.length docs)%nat
        \/ (fst t = fst totals /\ someListenerThrows env w))
    /\ (snd totals <= snd t <= S (snd totals))%nat
    /\ Forall (fun d => wellFormed d /\ Eff.source d = name source
                        /\ Eff.category d = lit "Core Knowledge") docs.
Proof.
  destruct totals as [totalVectors failedTopics].
  destruct (RoutingFacts.fetchKnowledgeFromWeb_returns env (query source) w)
    as (r & evs & Hfetch).
  unfold syncSource, tryCatch, bind. rewrite Hfetch.
  destruct (truthy r).
  - destruct (CorpusFacts.addDocument_appends env r (name source) (lit "Core Knowledge")
                (extended w evs))
      as (k & w' & docs & evs' & Hrun & Hdocs & Hls & _ & Hall & Hk).
    rewrite Hrun. unfold ret. destruct k as [k | e].
    + exists ((totalVectors + k)%nat, failedTopics), w', docs.
      cbn [fst snd]. repeat split; auto; try lia.
    + exists (totalVectors, S failedTopics), w', docs.
      cbn [fst snd]. repeat split; auto; try lia.
      right. split; [reflexivity |].
      destruct Hk as (_ & t & l & Hin & Hl). exists t, l, e. auto.
  - unfold ret. eexists. eexists. exists []. split; [reflexivity|].
    cbn [fst snd documents listeners extended]. rewrite app_nil_r.
    repeat split; auto; cbn; lia.
Qed.

Lemma syncSources_run (sources : list KnowledgeSource) : forall totals w,
  exists t w' docs,
    syncSources env totals sources w = (Ok t, w')
    /\ documents w' = documents w ++ docs
    /\ listeners w' = listeners w
    /\ (fst totals <= fst t <= fst totals + List.length docs)%nat
    /\ (fst t = (fst totals + List.length docs)%nat \/ someListenerThrows env w)
    /\ (snd totals <= snd t <= snd totals + List.length sources)%nat
    /\ Forall (fun d => wellFormed d
                        /\ (exists source, In source sources /\ Eff.source d = name source)
                        /\ Eff.category d = lit "Core Knowledge") docs.
Proof.
  induction sources as [|source rest IH]; intros totals w; cbn [syncSources].
  - exists totals, w, []. unfold ret. rewrite app_nil_r. cbn. repeat split; auto; lia.
  - destruct (syncSource_run totals source w) as (t1 & w1 & d1 & H1 & D1 & L1 & F1 & S1 & A1).
    destruct (IH t1 w1) as (t2 & w2 & d2 & H2 & D2 & L2 & B2 & F2 & S2 & A2).
    unfold bind. rewrite H1, H2. exists t2, w2, (d1 ++ d2).
    split; [reflexivity|]. rewrite D2, D1, L2, L1, length_app, <- app_assoc.
    cbn [List.length].
    assert (Hthrows : someListenerThrows env w1 -> someListenerThrows env w).
    { unfold someListenerThrows. now rewrite L1. }
    split; [reflexivity |]. split; [reflexivity |].
    split; [destruct F1 as [F1 | [F1 _]]; lia |].
    split; [destruct F1 as [F1 | [_ F1]]; [| now right];
            destruct F2 as [F2 | F2]; [left; lia | right; auto] |].
    split; [lia |].
    apply Forall_app. split.
    + eapply Forall_impl; [| exact A1]. intros d (Hw & Hs & Hc).
      split; [exact Hw|]. split; [| exact Hc].
      exists source. split; [now left | assumption].
    + eapply Forall_impl; [| exact A2]. intros d (Hw & (s & Hin & Hs) & Hc).
      split; [exact Hw|]. split; [| exact Hc].
      exists s. split; [now right | assumption].
Qed.

End Sync.

(** A sync that is not already running never throws and ends with a status
    message, whatever the tier.  The message reports success only when the
    corpus has grown.  When the corpus has grown the message reports
    success, unless a listener of the store threw: the entries of a source
    are then stored and not counted, and the source counts as failed.  Every
    entry that was added is a fragment filed under the name of one of the
    sources of the tier, in the category of the core knowledge; the
    listeners stay as they were.  A sync that is already running does
    nothing. *)
Theorem handleSync_accounts (env : Env) (currentTier : Tier) (w : World) :
  handleSync env true currentTier w = (Ok None, w)
  /\ exists status w' docs,
       handleSync env false currentTier w = (Ok (Some status), w')
       /\ documents w' = documents w ++ docs
       /\ listeners w' = listeners w
       /\ (type status = success -> docs <> [])
       /\ (docs <> [] ->
           type status = success
           \/ exists t l e, In l (listeners w) /\ callListener env t l = Throw e)
       /\ Forall (fun d => wellFormed d
                           /\ (exists source, In source (getSources currentTier)
                                              /\ Eff.source d = name source)
                           /\ Eff.category d = lit "Core Knowledge") docs.
Proof.
  split; [reflexivity|].
  destruct (syncSources_run env (getSources currentTier) (0%nat, 0%nat) w)
    as ([totalVectors failedTopics] & w' & docs & Hrun & Hdocs & Hls & Hb & Hn & _ & Hall).
  cbn [fst snd] in Hn, Hb.
  unfold handleSync, bind. cbv zeta. rewrite Hrun. unfold ret.
  destruct (0 <? totalVectors)%nat eqn:E.
  - eexists. exists w', docs. split; [reflexivity|]. repeat split; auto.
    intros _ ->. apply Nat.ltb_lt in E. cbn in Hb. lia.
  - eexists. exists w', docs. split; [reflexivity|]. repeat split; auto.
    + cbn. discriminate.
    + intros Hne. right. apply Nat.ltb_ge in E.
      destruct Hn as [Hn | Hn]; [| exact Hn].
      destruct docs; [contradiction | cbn in Hn; lia].
Qed.

(** The hand-off of a translation to the chat.  In direct mode the text is
    passed on and the store is left alone.  In RAG mode the chat starts with
    the request for a summary when the corpus has grown and the listeners
    returned, and with the text itself, after the alert that no vectors
    could be created, when nothing was indexed.  The alert of the [catch] is
    shown only when a listener of the store threw, and then the translation
    is in the corpus although the alert says it could not be added. *)
Theorem handleTranslationToChat_outcome (env : Env) (text : jsstring) (w : World) :
  handleTranslationToChat env text false w = (Ok (text, None), w)
  /\ exists message alert w' docs,
       handleTranslationToChat env text true w = (Ok (message, alert), w')
       /\ documents w' = documents w ++ docs
       /\ ((docs <> [] /\ alert = None
            /\ message = lit "I have analyzed the translation text you sent to the Knowledge Base. Please summarize it.")
           \/ (docs = [] /\ message = text
               /\ alert = Some (lit "Could not create knowledge vectors from this translation. Please try again."))
           \/ (docs <> [] /\ message = text
               /\ alert = Some (lit "Error adding translation to Knowledge Base.")
               /\ exists t l e, In l (listeners w) /\ callListener env t l = Throw e)).
Proof.
  split; [reflexivity|].
  destruct (CorpusFacts.addDocument_appends env text (lit "Translation Result")
              (lit "User Translation") w)
    as (r & w' & docs & evs & Hrun & Hdocs & _ & _ & _ & Hr).
  unfold handleTranslationToChat, tryCatch, bind. rewrite Hrun.
  destruct r as [n | e].
  - destruct (0 <? n)%nat eqn:E; unfold ret.
    + do 2 eexists. exists w', docs. split; [reflexivity|]. split; [assumption|].
      left. repeat split.
      intros ->. apply Nat.ltb_lt in E. cbn in Hr. lia.
    + do 2 eexists. exists w', docs. split; [reflexivity|]. split; [assumption|].
      right. left. repeat split.
      apply Nat.ltb_ge in E. destruct docs; [reflexivity | cbn in Hr; lia].
  - unfold ret. destruct Hr as (Hne & t & l & Hin & Hl).
    do 2 eexists. exists w', docs. split; [reflexivity|]. split; [assumption|].
    right. right. repeat split; auto. exists t, l, e. auto.
Qed.

(** The third case at work: the translation is stored, the subscriber
    throws, and the alert says the translation could not be added. *)
Lemma handoff_alert_after_storing :
  let w := {| documents := []; listeners := [7]; trace := [] |} in
  let run := handleTranslationToChat (Samples.brokenSubscriber 7) (lit "hola") true w in
  fst run = Ok (lit "hola", Some (lit "Error adding translation to Knowledge Base."))
  /\ map Eff.text (documents (snd run)) = [lit "hola"].
Proof. vm_compute. split; reflexivity. Qed.

End ClientFacts.
